(** * The annotation canvas of the inspection editor, and the project loader

    A shallow embedding of [fault_editor.py] (marks, leader lines, the mouse
    state machine, snapshots, undo and redo) and of [models.py]
    ([Project.from_dict]).  Python values are embedded as [PyVal], Python
    exceptions as the [Raise] branch of [Result], and the mutable scene as a
    list of objects that carry their identity.  Coordinates are exact
    rationals standing for the floating-point numbers of the program.  What
    the program asks of Qt, of [math], of [uuid] and of the file system is
    collected in the class [Toolkit]. *)

From Stdlib Require Import String Ascii List ZArith QArith Qabs Bool Lia Lqa.
From Stdlib Require Import Permutation Sorted.
Import ListNotations.

Local Open Scope string_scope.
Local Open Scope list_scope.
Local Set Warnings "-register-all".

(* ================================================================== *)
(** * Python values *)
(* ================================================================== *)

(** The values that live in mark records, snapshots and project files.
    A [VDict] keeps its entries in insertion order, as a Python dict does. *)
Inductive PyVal : Type :=
| VNone
| VBool (b : bool)
| VInt (z : Z)
| VFloat (q : Q)
| VStr (s : string)
| VList (l : list PyVal)
| VDict (d : list (string * PyVal)).

Definition PyDict : Type := list (string * PyVal).

Inductive PyExn : Type :=
  KeyError | TypeError | AttributeError | ValueError | OverflowError.

Inductive Result (A : Type) : Type :=
| Ok (a : A)
| Raise (e : PyExn).
Arguments Ok {A} a.
Arguments Raise {A} e.

Definition bind {A B : Type} (r : Result A) (f : A -> Result B) : Result B :=
  match r with
  | Ok a => f a
  | Raise e => Raise e
  end.

Notation "x <- c1 ;; c2" := (bind c1 (fun x => c2))
  (at level 61, c1 at next level, right associativity).

Definition is_ok {A : Type} (r : Result A) : bool :=
  match r with Ok _ => true | Raise _ => false end.

(** [d.get(k)] *)
Fixpoint dict_get (d : PyDict) (k : string) : option PyVal :=
  match d with
  | [] => None
  | (k', v) :: r => if String.eqb k' k then Some v else dict_get r k
  end.

(** [d.get(k, dflt)] *)
Definition dict_get_default (d : PyDict) (k : string) (dflt : PyVal) : PyVal :=
  match dict_get d k with
  | Some v => v
  | None => dflt
  end.

(** [d[k] = v] *)
Fixpoint dict_set (d : PyDict) (k : string) (v : PyVal) : PyDict :=
  match d with
  | [] => [(k, v)]
  | (k', v') :: r =>
      if String.eqb k' k then (k, v) :: r else (k', v') :: dict_set r k v
  end.

(** [d.setdefault(k, v)] *)
Definition dict_setdefault (d : PyDict) (k : string) (v : PyVal) : PyDict :=
  match dict_get d k with
  | Some _ => d
  | None => dict_set d k v
  end.

Definition Qltb (x y : Q) : bool := negb (Qle_bool y x).

(** Python truthiness, as used by [or], [not] and [if]. *)
Definition truthy (v : PyVal) : bool :=
  match v with
  | VNone => false
  | VBool b => b
  | VInt z => negb (Z.eqb z 0)
  | VFloat q => negb (Qeq_bool q 0)
  | VStr s => negb (String.eqb s "")
  | VList l => match l with [] => false | _ => true end
  | VDict d => match d with [] => false | _ => true end
  end.

(** [a or b] *)
Definition py_or (a b : PyVal) : PyVal := if truthy a then a else b.

(** The number a value denotes; [bool] is a subclass of [int]. *)
Definition py_num (v : PyVal) : option Q :=
  match v with
  | VBool b => Some (if b then 1 else 0)%Q
  | VInt z => Some (inject_Z z)
  | VFloat q => Some q
  | _ => None
  end.

(** [isinstance(v, int)] *)
Definition py_as_int (v : PyVal) : option Z :=
  match v with
  | VBool b => Some (if b then 1 else 0)%Z
  | VInt z => Some z
  | _ => None
  end.

(** Python's [==]: numbers by value, lists element by element, dicts by
    their key sets and the values under each key. *)
Fixpoint py_eq (a b : PyVal) : bool :=
  match a, b with
  | VNone, VNone => true
  | VStr s, VStr t => String.eqb s t
  | VList l, VList m =>
      (fix go (l m : list PyVal) : bool :=
         match l, m with
         | [], [] => true
         | x :: l', y :: m' => py_eq x y && go l' m'
         | _, _ => false
         end) l m
  | VDict d, VDict e =>
      Nat.eqb (length d) (length e) &&
      (fix all (d : PyDict) : bool :=
         match d with
         | [] => true
         | (k, v) :: d' =>
             match dict_get e k with
             | Some w => py_eq v w && all d'
             | None => false
             end
         end) d
  | _, _ =>
      match py_num a, py_num b with
      | Some x, Some y => Qeq_bool x y
      | _, _ => false
      end
  end.

(* ================================================================== *)
(** * Geometry values (QPointF, QLineF, QRectF) *)
(* ================================================================== *)

Record QPointF : Type := mkPoint { px : Q; py : Q }.
Record QLineF : Type := mkLine { p1 : QPointF; p2 : QPointF }.
Record QRectF : Type := mkRect { rx : Q; ry : Q; rw : Q; rh : Q }.

Definition padd (a b : QPointF) : QPointF := mkPoint (px a + px b) (py a + py b).
Definition psub (a b : QPointF) : QPointF := mkPoint (px a - px b) (py a - py b).
Definition pmul (a : QPointF) (c : Q) : QPointF := mkPoint (px a * c) (py a * c).
Definition pdiv (a : QPointF) (c : Q) : QPointF := mkPoint (px a / c) (py a / c).

Definition manhattanLength (a : QPointF) : Q := Qabs (px a) + Qabs (py a).

(** Qt's [qIsNull] on a double, true of 0.0 and -0.0 only, and
    [QPointF::isNull]; PyQt makes a [QPointF] falsy exactly when it is
    null. *)
Definition qIsNull (d : Q) : bool := Qeq_bool d 0.
Definition QPointF_isNull (a : QPointF) : bool := qIsNull (px a) && qIsNull (py a).

Definition QPointF_eqb (a b : QPointF) : bool :=
  Qeq_bool (px a) (px b) && Qeq_bool (py a) (py b).

Definition rect_center (r : QRectF) : QPointF :=
  mkPoint (rx r + rw r / 2) (ry r + rh r / 2).

Definition Qmax (x y : Q) : Q := if Qltb x y then y else x.
Definition Qmin (x y : Q) : Q := if Qltb y x then y else x.

(** [QPainterPath.boundingRect()] of a path made of a [moveTo] and
    [lineTo]s: the box around its points. *)
Definition points_boundingRect (pts : list QPointF) : QRectF :=
  match pts with
  | [] => mkRect 0 0 0 0
  | p :: r =>
      let x0 := fold_left (fun a q => Qmin a (px q)) r (px p) in
      let x1 := fold_left (fun a q => Qmax a (px q)) r (px p) in
      let y0 := fold_left (fun a q => Qmin a (py q)) r (py p) in
      let y1 := fold_left (fun a q => Qmax a (py q)) r (py p) in
      mkRect x0 y0 (x1 - x0) (y1 - y0)
  end.

(* ================================================================== *)
(** * Marks *)
(* ================================================================== *)

(** The five mark classes with the constructor arguments that fix their
    shape ([CircleMark(center, r)], [SquareMark(center, size)], ...). *)
Inductive Shape : Type :=
| CircleMark (r : Q)
| SquareMark (size : Q)
| TriangleMark (size : Q)
| SCurveWithMidCircle (w h : Q)
| NoteText (text : string).

(** [self.__class__.__name__] *)
Definition class_name (s : Shape) : string :=
  match s with
  | CircleMark _ => "CircleMark"
  | SquareMark _ => "SquareMark"
  | TriangleMark _ => "TriangleMark"
  | SCurveWithMidCircle _ _ => "SCurveWithMidCircle"
  | NoteText _ => "NoteText"
  end.

Definition is_circle (s : Shape) : bool :=
  match s with CircleMark _ => true | _ => false end.

(** A mark object.  An attribute that the object may lack
    ([internal_id], [display_id], [defect_info], the anchor) is an
    [option]: [None] is "no such attribute". *)
Record Mark : Type := mkMark {
  shape : Shape;
  pos : QPointF;
  scale : Q;
  rotation : Q;
  isVisible : bool;
  isSelected : bool;
  _attached_line : option QLineF;
  _line_anchor_scene_pos : option QPointF;
  internal_id : option PyVal;
  display_id : option PyVal;
  defect_info : option PyVal;
  _defect_label : option string
}.

(** [cls(center, ...)]: a fresh item at [center], scale 1, rotation 0,
    with [setup_flags] run ([_attached_line = None]). *)
Definition new_mark (s : Shape) (center : QPointF) : Mark :=
  mkMark s center 1 0 true false None None None None None None.

Definition set_pos (p : QPointF) (m : Mark) : Mark :=
  mkMark (shape m) p (scale m) (rotation m) (isVisible m) (isSelected m)
    (_attached_line m) (_line_anchor_scene_pos m)
    (internal_id m) (display_id m) (defect_info m) (_defect_label m).

Definition set_scale_raw (s : Q) (m : Mark) : Mark :=
  mkMark (shape m) (pos m) s (rotation m) (isVisible m) (isSelected m)
    (_attached_line m) (_line_anchor_scene_pos m)
    (internal_id m) (display_id m) (defect_info m) (_defect_label m).

Definition set_rotation (a : Q) (m : Mark) : Mark :=
  mkMark (shape m) (pos m) (scale m) a (isVisible m) (isSelected m)
    (_attached_line m) (_line_anchor_scene_pos m)
    (internal_id m) (display_id m) (defect_info m) (_defect_label m).

Definition set_visible (b : bool) (m : Mark) : Mark :=
  mkMark (shape m) (pos m) (scale m) (rotation m) b (isSelected m)
    (_attached_line m) (_line_anchor_scene_pos m)
    (internal_id m) (display_id m) (defect_info m) (_defect_label m).

Definition set_selected (b : bool) (m : Mark) : Mark :=
  mkMark (shape m) (pos m) (scale m) (rotation m) (isVisible m) b
    (_attached_line m) (_line_anchor_scene_pos m)
    (internal_id m) (display_id m) (defect_info m) (_defect_label m).

Definition set_line (l : option QLineF) (m : Mark) : Mark :=
  mkMark (shape m) (pos m) (scale m) (rotation m) (isVisible m) (isSelected m)
    l (_line_anchor_scene_pos m)
    (internal_id m) (display_id m) (defect_info m) (_defect_label m).

Definition set_anchor (a : option QPointF) (m : Mark) : Mark :=
  mkMark (shape m) (pos m) (scale m) (rotation m) (isVisible m) (isSelected m)
    (_attached_line m) a
    (internal_id m) (display_id m) (defect_info m) (_defect_label m).

Definition set_internal_id (v : option PyVal) (m : Mark) : Mark :=
  mkMark (shape m) (pos m) (scale m) (rotation m) (isVisible m) (isSelected m)
    (_attached_line m) (_line_anchor_scene_pos m)
    v (display_id m) (defect_info m) (_defect_label m).

Definition set_display_id (v : option PyVal) (m : Mark) : Mark :=
  mkMark (shape m) (pos m) (scale m) (rotation m) (isVisible m) (isSelected m)
    (_attached_line m) (_line_anchor_scene_pos m)
    (internal_id m) v (defect_info m) (_defect_label m).

Definition set_defect_info (v : option PyVal) (m : Mark) : Mark :=
  mkMark (shape m) (pos m) (scale m) (rotation m) (isVisible m) (isSelected m)
    (_attached_line m) (_line_anchor_scene_pos m)
    (internal_id m) (display_id m) v (_defect_label m).

Definition set_label (v : option string) (m : Mark) : Mark :=
  mkMark (shape m) (pos m) (scale m) (rotation m) (isVisible m) (isSelected m)
    (_attached_line m) (_line_anchor_scene_pos m)
    (internal_id m) (display_id m) (defect_info m) v.

(** ** The scale clamp of [CircleMark.itemChange] *)

Definition MIN_SCALE : Q := 6 # 10.
Definition MAX_SCALE : Q := 25 # 10.

(** [CircleMark.itemChange(ItemScaleChange, value)]: the value Qt will
    apply.  Any other change goes to [super().itemChange], which returns
    [value]. *)
Definition CircleMark_itemChange_scale (value : Q) : Q :=
  let s := value in
  if Qltb s MIN_SCALE then MIN_SCALE
  else if Qltb MAX_SCALE s then MAX_SCALE
  else value.

(** [QGraphicsItem.setScale] on an item that sends geometry changes: the
    applied scale is what [itemChange(ItemScaleChange, factor)] returns.
    Only [CircleMark] overrides that change. *)
Definition setScale (factor : Q) (m : Mark) : Mark :=
  match shape m with
  | CircleMark _ => set_scale_raw (CircleMark_itemChange_scale factor) m
  | _ => set_scale_raw factor m
  end.

(** One scale-change attempt of [PlanView.wheelEvent] on a selected item:
    [item.setScale(item.scale() * factor)]. *)
Definition wheel_scale_item (factor : Q) (m : Mark) : Mark :=
  setScale (scale m * factor) m.

(** The clamp in the spec's words: the value saturated into
    [[MIN_SCALE, MAX_SCALE]]. *)
Definition saturate (v : Q) : Q := Qmax MIN_SCALE (Qmin MAX_SCALE v).

(* ================================================================== *)
(** * What the program asks of its platform *)
(* ================================================================== *)

(** Where and how an item sits in the scene: what Qt's geometry depends
    on. *)
Record Placement : Type := mkPlacement {
  pl_shape : Shape;
  pl_pos : QPointF;
  pl_scale : Q;
  pl_rotation : Q
}.

Definition placement (m : Mark) : Placement :=
  mkPlacement (shape m) (pos m) (scale m) (rotation m).

(** The services of Qt, [math], [uuid], [int] and the file system that
    the modelled functions call.  Every definition and theorem below is
    parametric in them; [Reference.toolkit] further down is one instance
    on which concrete inputs can be evaluated. *)
Class Toolkit : Type := {
  (** [math.hypot(x, y)], which is also [QLineF.length()] *)
  hypot : Q -> Q -> Q;
  (** [QLineF.intersects]: the intersection point when the result is
      [BoundedIntersection] *)
  bounded_intersection : QLineF -> QLineF -> option QPointF;
  (** [self.mapToScene(self.polygon())] of a polygon item *)
  polygon_scene : Placement -> list QPointF;
  (** [self.mapToScene(self.shape()).toSubpathPolygons()] *)
  shape_polygons_scene : Placement -> list (list QPointF);
  (** [self.mapToScene(p)] *)
  mapToScene : Placement -> QPointF -> QPointF;
  (** [boundingRect()] of the items that leave it to Qt *)
  qt_boundingRect : Shape -> QRectF;
  (** [str(uuid.uuid4())], by the number of earlier draws *)
  uuid4 : nat -> string;
  (** [QPixmap(path).isNull()] *)
  pixmap_isNull : string -> bool;
  (** [int(s)], [None] for [ValueError] *)
  py_int : string -> option Z;
  (** [s.split("-")[-1]] *)
  last_dash_field : string -> string
}.

Section Canvas.
Context {TK : Toolkit}.

Definition QLineF_length (l : QLineF) : Q :=
  hypot (px (p2 l) - px (p1 l)) (py (p2 l) - py (p1 l)).

(** [item.boundingRect()]: [CircleMark] returns its [_rect]. *)
Definition boundingRect (m : Mark) : QRectF :=
  match shape m with
  | CircleMark r => mkRect (- r) (- r) (r * 2) (r * 2)
  | s => qt_boundingRect s
  end.

(* ------------------------------------------------------------------ *)
(** ** GeometryRayMixin *)

(** The edges [poly[i] -> poly[(i + 1) % n]] of one vertex ring. *)
Definition ring_segments (poly : list QPointF) : list QLineF :=
  let n := length poly in
  map (fun i => mkLine (nth i poly (mkPoint 0 0))
                       (nth ((i + 1) mod n) poly (mkPoint 0 0)))
      (seq 0 n).

Definition _outline_segments_scene (m : Mark) : list QLineF :=
  match shape m with
  | TriangleMark _ => ring_segments (polygon_scene (placement m))
  | _ => concat (map ring_segments (shape_polygons_scene (placement m)))
  end.

(** [min(candidates, key=...)]: the first element with the least key. *)
Fixpoint min_by_key (key : QPointF -> Q) (best : QPointF) (l : list QPointF) : QPointF :=
  match l with
  | [] => best
  | c :: r => min_by_key key (if Qltb (key c) (key best) then c else best) r
  end.

Definition ray_intersection_point (m : Mark) (start_scene toward_scene : QPointF)
  : option QPointF :=
  let direction := psub toward_scene start_scene in
  let direction :=
    if Qltb (manhattanLength direction) 2
    then psub (mapToScene (placement m) (rect_center (boundingRect m))) start_scene
    else direction in
  let length := hypot (px direction) (py direction) in
  if Qltb length (1 # 1000000) then None
  else
    let direction := pdiv direction length in
    let ray := mkLine start_scene (padd start_scene (pmul direction 10000)) in
    let candidates :=
      flat_map (fun edge =>
                  match bounded_intersection ray edge with
                  | Some ip =>
                      if Qltb (1 # 1000000) (QLineF_length (mkLine start_scene ip))
                      then [ip] else []
                  | None => []
                  end)
               (_outline_segments_scene m) in
    match candidates with
    | [] => None
    | c :: r => Some (min_by_key (fun p => QLineF_length (mkLine start_scene p)) c r)
    end.

(* ------------------------------------------------------------------ *)
(** ** The leader line (BaseMarkMixin, AttachLineMixin) *)

(** [self.ray_intersection_point(anchor, center) or center]: the center
    is taken when there is no intersection, and also when the
    intersection is the point (0, 0), which is falsy. *)
Definition line_end (m : Mark) (anchor_scene : QPointF) : QPointF :=
  let center_scene := pos m in
  match ray_intersection_point m anchor_scene center_scene with
  | Some ip => if QPointF_isNull ip then center_scene else ip
  | None => center_scene
  end.

(** [_update_attached_line_geometry], the version of [BaseMarkMixin],
    which comes first in the method resolution order of every mark
    class.  Only [CircleMark] has [ray_intersection_point]. *)
Definition _update_attached_line_geometry (m : Mark) : Result Mark :=
  match _line_anchor_scene_pos m, _attached_line m with
  | Some anchor_scene, Some _ =>
      if is_circle (shape m)
      then Ok (set_line (Some (mkLine anchor_scene (line_end m anchor_scene))) m)
      else Raise AttributeError
  | _, _ => Ok m
  end.

(** [begin_attach(scene, anchor)]: a zero-length line at the anchor. *)
Definition begin_attach (anchor_scene : QPointF) (m : Mark) : Mark :=
  set_anchor (Some anchor_scene) (set_line (Some (mkLine anchor_scene anchor_scene)) m).

(** [update_attach_preview(target)] *)
Definition update_attach_preview (target_scene : QPointF) (m : Mark) : Mark :=
  match _attached_line m, _line_anchor_scene_pos m with
  | Some _, Some anchor => set_line (Some (mkLine anchor target_scene)) m
  | _, _ => m
  end.

(** [confirm_attach()] *)
Definition confirm_attach (m : Mark) : Result Mark :=
  _update_attached_line_geometry m.

(** [cancel_attach(scene)] *)
Definition cancel_attach (m : Mark) : Mark :=
  set_anchor None (set_line None m).

(** The ways the geometry of a mark that is already in the scene changes.
    A mark is movable, so Qt moves it with the pointer whenever the press
    was left to Qt.  After a press on the mark in SELECT mode the
    controller is in MOVE mode and [_on_mouse_move] follows each of Qt's
    moves; after a press in AREA_SELECT mode no drag mode is set and Qt's
    move is all that happens.  ([CircleMark.itemChange] hands every change
    to [super().itemChange], which is Qt's: the [itemChange] of
    [BaseMarkMixin] is not reached for a circle.) *)
Inductive GeomOp : Type :=
| OpMove (p : QPointF)         (* a MOVE drag step brings the item to [p] *)
| OpQtMove (p : QPointF)       (* Qt alone moves the item to [p] *)
| OpScale (factor : Q)         (* Ctrl + wheel *)
| OpMoveAnchor (p : QPointF).  (* a MOVE_ANCHOR drag step at [p] *)

(** [_on_mouse_move], MOVE branch, after Qt has moved the item. *)
Definition move_step (p : QPointF) (m : Mark) : Result Mark :=
  _update_attached_line_geometry (set_pos p m).

(** [super().mouseMoveEvent(event)] of [PlanView.mouseMoveEvent] with no
    drag mode set: the item is moved and nothing else is done. *)
Definition qt_move_step (p : QPointF) (m : Mark) : Mark := set_pos p m.

(** [_on_mouse_move], MOVE_ANCHOR branch. *)
Definition move_anchor_step (p : QPointF) (m : Mark) : Result Mark :=
  _update_attached_line_geometry (set_anchor (Some p) m).

Definition apply_op (op : GeomOp) (m : Mark) : Result Mark :=
  match op with
  | OpMove p => move_step p m
  | OpQtMove p => Ok (qt_move_step p m)
  | OpScale factor => Ok (wheel_scale_item factor m)
  | OpMoveAnchor p => move_anchor_step p m
  end.

Fixpoint apply_ops (ops : list GeomOp) (m : Mark) : Result Mark :=
  match ops with
  | [] => Ok m
  | op :: r => m' <- apply_op op m ;; apply_ops r m'
  end.



(** The line of [m] runs from its anchor to the boundary point computed
    from the mark's current geometry. *)
Definition line_in_sync (m : Mark) : Prop :=
  exists a, _line_anchor_scene_pos m = Some a /\
            _attached_line m = Some (mkLine a (line_end m a)).


End Canvas.

(* ================================================================== *)
(** * The scene and the editor state *)
(* ================================================================== *)

Inductive EditMode : Type := SELECT | AREA_SELECT.
Inductive DragMode : Type := NONE | CREATE | MOVE | MOVE_ANCHOR.

(** What [scene.items()] lists besides the background, the anchor handle,
    the leader lines and the child items: marks and memo strokes.  A memo
    free path is kept as the points of its [QPainterPath]. *)
Inductive Item : Type :=
| IMark (m : Mark)
| IMemoLine (l : QLineF) (sel : bool)
| IMemoFreePath (pts : list QPointF) (sel : bool).

(** An item of the scene with its object identity. *)
Record SceneObject : Type := mkObj { oid : nat; item : Item }.

(** The undo and redo stacks are Python lists: the top is the last
    element.  [_editing] may not have been set yet. *)
Record History : Type := mkHistory {
  _undo_stack : list PyVal;
  _redo_stack : list PyVal;
  _undo_block : bool;
  _editing : option bool
}.

(** The drag state of the mouse machine; [_drag_item] holds the identity
    of the dragged object, [_drag_line] whether a line is attached to it,
    [_press_timer] whether the press-and-hold timer is running. *)
Record Drag : Type := mkDrag {
  _drag_mode : DragMode;
  _drag_item : option nat;
  _drag_line : bool;
  _press_pos : option QPointF;
  _pressing : bool;
  _pending_press_pos : option QPointF;
  _press_timer : bool
}.

Record AnchorHandle : Type := mkHandle {
  _anchor_handle_visible : bool;
  _anchor_handle_pos : QPointF;
  _anchor_handle_target : option nat
}.

(** [FaultEditorWidget] inside its [FaultEditorDialog].  [scene] lists the
    marks and memo strokes as [scene.items()] does, the newest first;
    [bg_path] is set once an image has been loaded ([bg_item] is then not
    [None]); [handle_radius_scene] is what [_scene_dist_from_view_px] gives
    for the handle radius under the current zoom; [dirtyChanged] counts
    the emissions of the signal and [_dirty] is the flag of the dialog. *)
Record Editor : Type := mkEditor {
  scene : list SceneObject;
  next_oid : nat;
  uuid_draws : nat;
  bg_path : option string;
  hist : History;
  drag : Drag;
  handle : AnchorHandle;
  _edit_mode : EditMode;
  current_tool : string;
  _next_defect_index : Z;
  _edit_end_timer : bool;
  handle_radius_scene : Q;
  dirtyChanged : nat;
  _dirty : bool
}.

Definition with_undo_stack (v : list PyVal) (x : History) : History :=
  mkHistory v (_redo_stack x) (_undo_block x) (_editing x).

Definition with_redo_stack (v : list PyVal) (x : History) : History :=
  mkHistory (_undo_stack x) v (_undo_block x) (_editing x).

Definition with_undo_block (v : bool) (x : History) : History :=
  mkHistory (_undo_stack x) (_redo_stack x) v (_editing x).

Definition with_editing (v : option bool) (x : History) : History :=
  mkHistory (_undo_stack x) (_redo_stack x) (_undo_block x) v.

Definition with_drag_mode (v : DragMode) (x : Drag) : Drag :=
  mkDrag v (_drag_item x) (_drag_line x) (_press_pos x) (_pressing x) (_pending_press_pos x) (_press_timer x).

Definition with_drag_item (v : option nat) (x : Drag) : Drag :=
  mkDrag (_drag_mode x) v (_drag_line x) (_press_pos x) (_pressing x) (_pending_press_pos x) (_press_timer x).

Definition with_drag_line (v : bool) (x : Drag) : Drag :=
  mkDrag (_drag_mode x) (_drag_item x) v (_press_pos x) (_pressing x) (_pending_press_pos x) (_press_timer x).

Definition with_press_pos (v : option QPointF) (x : Drag) : Drag :=
  mkDrag (_drag_mode x) (_drag_item x) (_drag_line x) v (_pressing x) (_pending_press_pos x) (_press_timer x).

Definition with_pressing (v : bool) (x : Drag) : Drag :=
  mkDrag (_drag_mode x) (_drag_item x) (_drag_line x) (_press_pos x) v (_pending_press_pos x) (_press_timer x).

Definition with_pending_press_pos (v : option QPointF) (x : Drag) : Drag :=
  mkDrag (_drag_mode x) (_drag_item x) (_drag_line x) (_press_pos x) (_pressing x) v (_press_timer x).

Definition with_press_timer (v : bool) (x : Drag) : Drag :=
  mkDrag (_drag_mode x) (_drag_item x) (_drag_line x) (_press_pos x) (_pressing x) (_pending_press_pos x) v.

Definition with_anchor_handle_visible (v : bool) (x : AnchorHandle) : AnchorHandle :=
  mkHandle v (_anchor_handle_pos x) (_anchor_handle_target x).

Definition with_anchor_handle_pos (v : QPointF) (x : AnchorHandle) : AnchorHandle :=
  mkHandle (_anchor_handle_visible x) v (_anchor_handle_target x).

Definition with_anchor_handle_target (v : option nat) (x : AnchorHandle) : AnchorHandle :=
  mkHandle (_anchor_handle_visible x) (_anchor_handle_pos x) v.

Definition with_scene (v : list SceneObject) (x : Editor) : Editor :=
  mkEditor v (next_oid x) (uuid_draws x) (bg_path x) (hist x) (drag x) (handle x) (_edit_mode x) (current_tool x) (_next_defect_index x) (_edit_end_timer x) (handle_radius_scene x) (dirtyChanged x) (_dirty x).

Definition with_next_oid (v : nat) (x : Editor) : Editor :=
  mkEditor (scene x) v (uuid_draws x) (bg_path x) (hist x) (drag x) (handle x) (_edit_mode x) (current_tool x) (_next_defect_index x) (_edit_end_timer x) (handle_radius_scene x) (dirtyChanged x) (_dirty x).

Definition with_uuid_draws (v : nat) (x : Editor) : Editor :=
  mkEditor (scene x) (next_oid x) v (bg_path x) (hist x) (drag x) (handle x) (_edit_mode x) (current_tool x) (_next_defect_index x) (_edit_end_timer x) (handle_radius_scene x) (dirtyChanged x) (_dirty x).

Definition with_bg_path (v : option string) (x : Editor) : Editor :=
  mkEditor (scene x) (next_oid x) (uuid_draws x) v (hist x) (drag x) (handle x) (_edit_mode x) (current_tool x) (_next_defect_index x) (_edit_end_timer x) (handle_radius_scene x) (dirtyChanged x) (_dirty x).

Definition with_hist (v : History) (x : Editor) : Editor :=
  mkEditor (scene x) (next_oid x) (uuid_draws x) (bg_path x) v (drag x) (handle x) (_edit_mode x) (current_tool x) (_next_defect_index x) (_edit_end_timer x) (handle_radius_scene x) (dirtyChanged x) (_dirty x).

Definition with_drag (v : Drag) (x : Editor) : Editor :=
  mkEditor (scene x) (next_oid x) (uuid_draws x) (bg_path x) (hist x) v (handle x) (_edit_mode x) (current_tool x) (_next_defect_index x) (_edit_end_timer x) (handle_radius_scene x) (dirtyChanged x) (_dirty x).

Definition with_handle (v : AnchorHandle) (x : Editor) : Editor :=
  mkEditor (scene x) (next_oid x) (uuid_draws x) (bg_path x) (hist x) (drag x) v (_edit_mode x) (current_tool x) (_next_defect_index x) (_edit_end_timer x) (handle_radius_scene x) (dirtyChanged x) (_dirty x).

Definition with_edit_mode (v : EditMode) (x : Editor) : Editor :=
  mkEditor (scene x) (next_oid x) (uuid_draws x) (bg_path x) (hist x) (drag x) (handle x) v (current_tool x) (_next_defect_index x) (_edit_end_timer x) (handle_radius_scene x) (dirtyChanged x) (_dirty x).

Definition with_current_tool (v : string) (x : Editor) : Editor :=
  mkEditor (scene x) (next_oid x) (uuid_draws x) (bg_path x) (hist x) (drag x) (handle x) (_edit_mode x) v (_next_defect_index x) (_edit_end_timer x) (handle_radius_scene x) (dirtyChanged x) (_dirty x).

Definition with_next_defect_index (v : Z) (x : Editor) : Editor :=
  mkEditor (scene x) (next_oid x) (uuid_draws x) (bg_path x) (hist x) (drag x) (handle x) (_edit_mode x) (current_tool x) v (_edit_end_timer x) (handle_radius_scene x) (dirtyChanged x) (_dirty x).

Definition with_edit_end_timer (v : bool) (x : Editor) : Editor :=
  mkEditor (scene x) (next_oid x) (uuid_draws x) (bg_path x) (hist x) (drag x) (handle x) (_edit_mode x) (current_tool x) (_next_defect_index x) v (handle_radius_scene x) (dirtyChanged x) (_dirty x).

Definition with_handle_radius_scene (v : Q) (x : Editor) : Editor :=
  mkEditor (scene x) (next_oid x) (uuid_draws x) (bg_path x) (hist x) (drag x) (handle x) (_edit_mode x) (current_tool x) (_next_defect_index x) (_edit_end_timer x) v (dirtyChanged x) (_dirty x).

Definition with_dirtyChanged (v : nat) (x : Editor) : Editor :=
  mkEditor (scene x) (next_oid x) (uuid_draws x) (bg_path x) (hist x) (drag x) (handle x) (_edit_mode x) (current_tool x) (_next_defect_index x) (_edit_end_timer x) (handle_radius_scene x) v (_dirty x).

Definition with_dirty (v : bool) (x : Editor) : Editor :=
  mkEditor (scene x) (next_oid x) (uuid_draws x) (bg_path x) (hist x) (drag x) (handle x) (_edit_mode x) (current_tool x) (_next_defect_index x) (_edit_end_timer x) (handle_radius_scene x) (dirtyChanged x) v.

(* ================================================================== *)
(** * Serialization of marks and the snapshot *)
(* ================================================================== *)

(** [v[k]] with a string key. *)
Definition py_getitem (v : PyVal) (k : string) : Result PyVal :=
  match v with
  | VDict d => match dict_get d k with Some x => Ok x | None => Raise KeyError end
  | _ => Raise TypeError
  end.

(** The elements a [for] loop or a [*] argument list draws from a value. *)
Definition py_iter (v : PyVal) : Result (list PyVal) :=
  match v with
  | VList l => Ok l
  | VDict d => Ok (map (fun kv => VStr (fst kv)) d)
  | VStr s => Ok (map (fun c => VStr (String c EmptyString)) (list_ascii_of_string s))
  | _ => Raise TypeError
  end.

(** The ints that a C double can take are those under 2^1024 - 2^970 in
    absolute value.  Beyond, Python's conversion of an int to a float and
    its division of ints raise [OverflowError], and Qt refuses the argument
    with [TypeError]. *)
Definition DBL_INT_LIMIT : Z := Eval vm_compute in (2 ^ 1024 - 2 ^ 970)%Z.

(** The number [v] denotes, where an int has to stay under [limit] in
    absolute value and [too_big] is raised when it does not. *)
Definition num_within (limit : Z) (too_big : PyExn) (v : PyVal) : Result Q :=
  match v with
  | VInt z => if (Z.abs z <? limit)%Z then Ok (inject_Z z) else Raise too_big
  | _ => match py_num v with
         | Some q => Ok q
         | None => Raise TypeError
         end
  end.

(** A value passed where Qt expects a double. *)
Definition as_number (v : PyVal) : Result Q := num_within DBL_INT_LIMIT TypeError v.

(** The operand [v] of [v * f] or [v + f] with a float [f]: an int is
    converted to a float. *)
Definition py_float (v : PyVal) : Result Q := num_within DBL_INT_LIMIT OverflowError v.

(** The operand [v] of [v / 2] and of [-v / 2]: the quotient of an int is
    a float. *)
Definition py_halved (v : PyVal) : Result Q :=
  num_within (2 * DBL_INT_LIMIT) OverflowError v.

(** The radius [r] of [QRectF(-r, -r, r * 2, r * 2)]: the products are
    ints when [r] is one, and Qt takes them as doubles. *)
Definition rect_radius (v : PyVal) : Result Q :=
  num_within (DBL_INT_LIMIT / 2) TypeError v.

(** [QPointF( *v )] *)
Definition point_of_args (v : PyVal) : Result QPointF :=
  args <- py_iter v ;;
  match args with
  | [] => Ok (mkPoint 0 0)
  | [a; b] => x <- as_number a ;; y <- as_number b ;; Ok (mkPoint x y)
  | _ => Raise TypeError
  end.

Fixpoint for_each {A S : Type} (f : A -> S -> Result S) (l : list A) (s : S)
  : Result S :=
  match l with
  | [] => Ok s
  | a :: r => s' <- f a s ;; for_each f r s'
  end.

Fixpoint map_result {A B : Type} (f : A -> Result B) (l : list A)
  : Result (list B) :=
  match l with
  | [] => Ok []
  | a :: r => b <- f a ;; bs <- map_result f r ;; Ok (b :: bs)
  end.

(** The registry [MARK_CLASSES]. *)
Inductive MarkClass : Type :=
| cls_CircleMark
| cls_SquareMark
| cls_TriangleMark
| cls_SCurveWithMidCircle
| cls_NoteText.

Definition MARK_CLASSES (name : string) : option MarkClass :=
  if String.eqb name "CircleMark" then Some cls_CircleMark
  else if String.eqb name "SquareMark" then Some cls_SquareMark
  else if String.eqb name "TriangleMark" then Some cls_TriangleMark
  else if String.eqb name "SCurveWithMidCircle" then Some cls_SCurveWithMidCircle
  else if String.eqb name "NoteText" then Some cls_NoteText
  else None.

(** [MARK_CLASSES.get(key)]: a list or a dict is unhashable, any other
    value that is not one of the five names finds nothing. *)
Definition MARK_CLASSES_get (key : PyVal) : Result (option MarkClass) :=
  match key with
  | VStr s => Ok (MARK_CLASSES s)
  | VList _ | VDict _ => Raise TypeError
  | _ => Ok None
  end.

(** The six fields [_restore_item] gives a circle by [setdefault]. *)
Definition size_default : PyVal :=
  VDict [("width_mm", VStr ""); ("length_m", VStr ""); ("count_ea", VStr "")].

Definition restore_defaults (di : PyDict) : PyDict :=
  let di := dict_setdefault di "member" (VStr "") in
  let di := dict_setdefault di "location" (VStr "") in
  let di := dict_setdefault di "defect_type" (VStr "") in
  let di := dict_setdefault di "size" size_default in
  let di := dict_setdefault di "progress" (VBool false) in
  dict_setdefault di "remark" (VStr "").

(** [CircleMark.set_circle_id(n)]: the attribute, and the numeral in the
    circle. *)
Definition set_circle_id (n : PyVal) (m : Mark) : Mark := set_display_id (Some n) m.

(** [enable_defect_label(text)]: the label item takes a [str], and
    [None] for the null string. *)
Definition enable_defect_label (text : PyVal) (m : Mark) : Result Mark :=
  match text with
  | VStr t => Ok (set_label (Some t) m)
  | VNone => Ok (set_label (Some "") m)
  | _ => Raise TypeError
  end.

Definition addItem (it : Item) (e : Editor) : Editor :=
  with_next_oid (S (next_oid e)) (with_scene (mkObj (next_oid e) it :: scene e) e).

Definition removeItem (o : nat) (e : Editor) : Editor :=
  with_scene (filter (fun x => negb (Nat.eqb (oid x) o)) (scene e)) e.

Fixpoint lookup_obj (o : nat) (sc : list SceneObject) : option Item :=
  match sc with
  | [] => None
  | x :: r => if Nat.eqb (oid x) o then Some (item x) else lookup_obj o r
  end.

Definition update_obj (o : nat) (f : Item -> Item) (sc : list SceneObject)
  : list SceneObject :=
  map (fun x => if Nat.eqb (oid x) o then mkObj (oid x) (f (item x)) else x) sc.

Definition marks_of (sc : list SceneObject) : list Mark :=
  flat_map (fun o => match item o with IMark m => [m] | _ => [] end) sc.

Section Snapshots.
Context {TK : Toolkit}.

Definition point_list (p : QPointF) : PyVal := VList [VFloat (px p); VFloat (py p)].

(** [SerializableMixin.to_dict] *)
Definition SerializableMixin_to_dict (m : Mark) : PyDict :=
  let d := [("type", VStr (class_name (shape m)));
            ("x", VFloat (px (pos m)));
            ("y", VFloat (py (pos m)));
            ("scale", VFloat (scale m));
            ("rotation", VFloat (rotation m))] in
  let d := match _attached_line m with
           | Some l => dict_set d "line"
                         (VDict [("p1", point_list (p1 l)); ("p2", point_list (p2 l))])
           | None => d
           end in
  let d := match internal_id m with Some v => dict_set d "internal_id" v | None => d end in
  let d := match display_id m with Some v => dict_set d "display_id" v | None => d end in
  match defect_info m with Some v => dict_set d "defect_info" v | None => d end.

(** [to_dict] of the five classes. *)
Definition to_dict (m : Mark) : PyDict :=
  let d := SerializableMixin_to_dict m in
  match shape m with
  | CircleMark _ => dict_set d "radius" (VFloat (rw (boundingRect m) / 2))
  | SquareMark size => dict_set d "size" (VFloat size)
  | TriangleMark _ => dict_set d "size" (VFloat (rw (boundingRect m)))
  | SCurveWithMidCircle _ _ =>
      dict_set (dict_set d "w" (VFloat (rw (boundingRect m))))
               "h" (VFloat (rh (boundingRect m)))
  | NoteText text => dict_set d "text" (VStr text)
  end.

(** [cls.from_dict(info, scene, editor)]: [QPointF(x, y)] is built first,
    then the constructor of the class runs on the size it is given.
    [CircleMark] makes [QRectF(-r, -r, r * 2, r * 2)]; [SquareMark] calls
    [super().__init__(-size/2, -size/2, size, size)]; [TriangleMark]
    starts with [size * math.sqrt(3) / 2]; [SCurveWithMidCircle] computes
    [-h / 2], [h / 2], [w / 2] and then [top + h * 0.25]; [NoteText] hands
    its text to [QGraphicsTextItem]. *)
Definition from_dict (cls : MarkClass) (info : PyDict) : Result Mark :=
  x <- as_number (dict_get_default info "x" (VInt 0)) ;;
  y <- as_number (dict_get_default info "y" (VInt 0)) ;;
  match cls with
  | cls_CircleMark =>
      r <- rect_radius (dict_get_default info "radius" (VInt 18)) ;;
      Ok (new_mark (CircleMark r) (mkPoint x y))
  | cls_SquareMark =>
      _ <- py_halved (dict_get_default info "size" (VInt 36)) ;;
      size <- as_number (dict_get_default info "size" (VInt 36)) ;;
      Ok (new_mark (SquareMark size) (mkPoint x y))
  | cls_TriangleMark =>
      size <- py_float (dict_get_default info "size" (VInt 40)) ;;
      Ok (new_mark (TriangleMark size) (mkPoint x y))
  | cls_SCurveWithMidCircle =>
      _ <- py_halved (dict_get_default info "h" (VInt 55)) ;;
      w <- py_halved (dict_get_default info "w" (VInt 43)) ;;
      h <- py_float (dict_get_default info "h" (VInt 55)) ;;
      Ok (new_mark (SCurveWithMidCircle w h) (mkPoint x y))
  | cls_NoteText =>
      match dict_get_default info "text" (VStr "") with
      | VStr text => Ok (new_mark (NoteText text) (mkPoint x y))
      | VNone => Ok (new_mark (NoteText "") (mkPoint x y))
      | _ => Raise TypeError
      end
  end.

(** The item [_restore_item] builds from a record of a known class.  (The
    program adds the item to the scene before it sets the scale; an
    exception ends the model either way.) *)
Definition restore_mark (cls : MarkClass) (info : PyDict) : Result Mark :=
  item <- from_dict cls info ;;
  s <- as_number (dict_get_default info "scale" (VFloat 1)) ;;
  let item := setScale s item in
  a <- as_number (dict_get_default info "rotation" (VInt 0)) ;;
  let item := set_rotation a item in
  let item := set_internal_id (Some (dict_get_default info "internal_id" VNone)) item in
  let did := dict_get_default info "display_id" VNone in
  let item := set_display_id (Some did) item in
  let dinfo := dict_get_default info "defect_info" (VDict []) in
  let item := set_defect_info (Some dinfo) item in
  item <- (if is_circle (shape item)
           then match py_or dinfo (VDict []) with
                | VDict di => Ok (set_defect_info (Some (VDict (restore_defaults di))) item)
                | _ => Raise AttributeError
                end
           else Ok item) ;;
  item <- (if is_circle (shape item) && truthy did
           then match defect_info item with
                | Some (VDict di) =>
                    enable_defect_label (dict_get_default di "member" (VStr ""))
                                        (set_circle_id did item)
                | _ => Raise AttributeError
                end
           else if truthy did then enable_defect_label did item
           else Ok item) ;;
  let line_data := dict_get_default info "line" VNone in
  if truthy line_data
  then
    a1 <- (v <- py_getitem line_data "p1" ;; point_of_args v) ;;
    a2 <- (v <- py_getitem line_data "p2" ;; point_of_args v) ;;
    _update_attached_line_geometry
      (set_anchor (Some a1) (set_line (Some (mkLine a1 a2)) item))
  else Ok item.

(** [_restore_item(info)] *)
Definition _restore_item (info : PyVal) (e : Editor) : Result Editor :=
  t <- py_getitem info "type" ;;
  cls <- MARK_CLASSES_get t ;;
  match cls, info with
  | Some c, VDict d => item <- restore_mark c d ;; Ok (addItem (IMark item) e)
  | _, _ => Ok e
  end.

(** [open_png_from_path(path)]: nothing happens when the pixmap is null
    (a path that is not a string gives a null pixmap); otherwise the
    scene is cleared and rebuilt around the new background. *)
Definition open_png_from_path (path : PyVal) (e : Editor) : Editor :=
  match path with
  | VStr p =>
      if pixmap_isNull p then e
      else with_bg_path (Some p)
             (with_handle (mkHandle false (_anchor_handle_pos (handle e)) None)
                (with_scene [] e))
  | _ => e
  end.

(** [_calc_next_defect_index()] *)
Definition _calc_next_defect_index (e : Editor) : Z :=
  let max_n :=
    fold_left
      (fun max_n o =>
         match item o with
         | IMark m =>
             match display_id m with
             | Some did =>
                 match py_as_int did with
                 | Some n => Z.max max_n n
                 | None =>
                     match did with
                     | VStr s =>
                         match py_int (last_dash_field s) with
                         | Some n => Z.max max_n n
                         | None => max_n
                         end
                     | _ => max_n
                     end
                 end
             | None => max_n
             end
         | _ => max_n
         end)
      (scene e) 0%Z in
  (max_n + 1)%Z.

(** One entry of the [memos] loop of [_restore_snapshot]. *)
Definition restore_memo (m : PyVal) (e : Editor) : Result Editor :=
  match m with
  | VDict md =>
      let t := dict_get_default md "type" VNone in
      if py_eq t (VStr "memo_line") then
        a1 <- (v <- py_getitem m "p1" ;; point_of_args v) ;;
        a2 <- (v <- py_getitem m "p2" ;; point_of_args v) ;;
        Ok (addItem (IMemoLine (mkLine a1 a2) false) e)
      else if py_eq t (VStr "memo_free") then
        let pts := py_or (dict_get_default md "pts" VNone) (VList []) in
        if truthy pts then
          match pts with
          | VList (first :: rest) =>
              p0 <- point_of_args first ;;
              ps <- map_result point_of_args rest ;;
              Ok (addItem (IMemoFreePath (p0 :: ps) false) e)
          | _ => Raise TypeError
          end
        else Ok e
      else Ok e
  | _ => Raise AttributeError
  end.

(** [_restore_snapshot(snapshot)] *)
Definition _restore_snapshot (snapshot : PyVal) (e : Editor) : Result Editor :=
  match snapshot, bg_path e with
  | VDict snap, Some bp =>
      let e := open_png_from_path (dict_get_default snap "image" (VStr bp)) e in
      items <- py_iter (dict_get_default snap "items" (VList [])) ;;
      e <- for_each _restore_item items e ;;
      memos <- py_iter (dict_get_default snap "memos" (VList [])) ;;
      e <- for_each restore_memo memos e ;;
      Ok (with_next_defect_index (_calc_next_defect_index e) e)
  | _, _ => Raise AttributeError
  end.

(** [FaultEditorDialog.get_defects()] *)
Definition get_defects (e : Editor) : PyDict :=
  [("items", VList (map (fun m => VDict (to_dict m)) (marks_of (scene e))))].

(** The [memos] list of [_make_snapshot]. *)
Definition memo_records (sc : list SceneObject) : list PyVal :=
  flat_map
    (fun o =>
       match item o with
       | IMemoLine l _ =>
           [VDict [("type", VStr "memo_line");
                   ("p1", point_list (p1 l));
                   ("p2", point_list (p2 l))]]
       | IMemoFreePath pts _ =>
           [VDict [("type", VStr "memo_free"); ("pts", VList (map point_list pts))]]
       | IMark _ => []
       end) sc.

(** [_make_snapshot()] *)
Definition _make_snapshot (e : Editor) : PyVal :=
  let snap := get_defects e in
  let snap := dict_set snap "__version__" (VInt 1) in
  VDict (dict_set snap "memos" (VList (memo_records (scene e)))).

(* ------------------------------------------------------------------ *)
(** ** Edit sessions, undo and redo *)

(** [FaultEditorDialog.mark_dirty()] *)
Definition dialog_mark_dirty (e : Editor) : Editor := with_dirty true e.

(** [FaultEditorWidget.mark_dirty()]: emits [dirtyChanged], to which the
    dialog's [mark_dirty] is connected. *)
Definition mark_dirty (e : Editor) : Editor :=
  dialog_mark_dirty (with_dirtyChanged (S (dirtyChanged e)) e).

Definition _begin_edit (e : Editor) : Editor :=
  if _undo_block (hist e) then e
  else with_hist (with_editing (Some true) (hist e)) e.

(** [self._undo_stack[-1]] when the stack is not empty. *)
Definition stack_top (st : list PyVal) : option PyVal :=
  match st with
  | [] => None
  | _ => Some (last st VNone)
  end.

(** [not self._undo_stack or self._undo_stack[-1] != snapshot] *)
Definition differs_from_top (st : list PyVal) (snapshot : PyVal) : bool :=
  match stack_top st with
  | None => true
  | Some top => negb (py_eq top snapshot)
  end.

Definition _end_edit (e : Editor) : Editor :=
  if _undo_block (hist e) then e
  else
    match _editing (hist e) with
    | Some true =>
        let snapshot := _make_snapshot e in
        let e :=
          if differs_from_top (_undo_stack (hist e)) snapshot
          then dialog_mark_dirty
                 (with_hist (with_redo_stack []
                               (with_undo_stack (_undo_stack (hist e) ++ [snapshot])
                                  (hist e))) e)
          else e in
        with_hist (with_editing (Some false) (hist e)) e
    | _ => e
    end.

(** The first half of [undo()]: recording is blocked and the current
    state moves to the redo stack. *)
Definition undo_pop (e : Editor) : Editor :=
  let e := with_hist (with_undo_block true (hist e)) e in
  let current := last (_undo_stack (hist e)) VNone in
  with_hist (with_redo_stack (_redo_stack (hist e) ++ [current])
               (with_undo_stack (removelast (_undo_stack (hist e))) (hist e))) e.

Definition undo (e : Editor) : Result Editor :=
  if Nat.ltb (length (_undo_stack (hist e))) 2 then Ok e
  else
    let e := undo_pop e in
    let snapshot := last (_undo_stack (hist e)) VNone in
    e <- _restore_snapshot snapshot e ;;
    let e := with_hist (with_undo_block false (hist e)) e in
    Ok (mark_dirty e).

(** The first half of [redo()]. *)
Definition redo_pop (e : Editor) : Editor :=
  let e := with_hist (with_undo_block true (hist e)) e in
  let snapshot := last (_redo_stack (hist e)) VNone in
  with_hist (with_undo_stack (_undo_stack (hist e) ++ [snapshot])
               (with_redo_stack (removelast (_redo_stack (hist e))) (hist e))) e.

Definition redo (e : Editor) : Result Editor :=
  match _redo_stack (hist e) with
  | [] => Ok e
  | _ =>
      let snapshot := last (_redo_stack (hist e)) VNone in
      let e := redo_pop e in
      e <- _restore_snapshot snapshot e ;;
      let e := with_hist (with_undo_block false (hist e)) e in
      Ok (mark_dirty e)
  end.

End Snapshots.

(* ================================================================== *)
(** * The canvas controller: hit tests and the mouse state machine *)
(* ================================================================== *)

Inductive MouseButton : Type := LeftButton | RightButton | MiddleButton.

(** What a hit test can return: a mark (the items with [to_dict]), a memo
    stroke, or any other graphics item (a leader line, the background,
    the anchor handle, a label, the numeral of a circle). *)
Inductive HitKind : Type :=
| HMark (o : nat)
| HMemo (o : nat)
| HOther.

(** A graphics item as the hit test sees it, with its [parentItem()]. *)
Inductive GItem : Type :=
| GI (kind : HitKind) (parentItem : option GItem).

(** A mouse event as the view hands it over: the button, the position
    mapped to the scene, what [scene.items(scene_pos)] lists there (the
    topmost item first, so [scene.itemAt] is its head), whether Ctrl or
    Shift is held, whether the left button is down, and, for a move in
    MOVE mode, where Qt's own drag has put the item. *)
Record MouseEvent : Type := mkEvent {
  button : MouseButton;
  scene_pos : QPointF;
  hits : list GItem;
  ctrl_or_shift : bool;
  left_down : bool;
  dragged_to : QPointF
}.

(** The loop [while it is not None: if hasattr(it, "to_dict"): return it;
    it = it.parentItem()]. *)
Fixpoint to_dict_owner (g : GItem) : option nat :=
  match g with
  | GI (HMark o) _ => Some o
  | GI _ (Some parent) => to_dict_owner parent
  | GI _ None => None
  end.

(** [_can_create_at(scene_pos)]: only [scene.itemAt], the topmost item,
    is examined. *)
Definition _can_create_at (hits : list GItem) : bool :=
  match hits with
  | [] => true
  | hit :: _ => match to_dict_owner hit with Some _ => false | None => true end
  end.

(** [_find_shape_at(scene_pos)]: every item at the position is examined. *)
Fixpoint _find_shape_at (hits : list GItem) : option nat :=
  match hits with
  | [] => None
  | hit :: r =>
      match to_dict_owner hit with
      | Some o => Some o
      | None => _find_shape_at r
      end
  end.

(** The pointer lies over a mark: some item under it is a mark or has a
    mark up its parent chain. *)
Definition over_a_mark (hits : list GItem) : Prop :=
  exists g, In g hits /\ to_dict_owner g <> None.

Definition set_item_selected (b : bool) (it : Item) : Item :=
  match it with
  | IMark m => IMark (set_selected b m)
  | IMemoLine l _ => IMemoLine l b
  | IMemoFreePath pts _ => IMemoFreePath pts b
  end.

Definition item_selected (it : Item) : bool :=
  match it with
  | IMark m => isSelected m
  | IMemoLine _ s => s
  | IMemoFreePath _ s => s
  end.

Definition clearSelection (e : Editor) : Editor :=
  with_scene (map (fun x => mkObj (oid x) (set_item_selected false (item x))) (scene e)) e.

Definition selectedItems (e : Editor) : list SceneObject :=
  filter (fun x => item_selected (item x)) (scene e).

Definition EditMode_eqb (a b : EditMode) : bool :=
  match a, b with
  | SELECT, SELECT | AREA_SELECT, AREA_SELECT => true
  | _, _ => false
  end.

Definition MouseButton_eqb (a b : MouseButton) : bool :=
  match a, b with
  | LeftButton, LeftButton | RightButton, RightButton | MiddleButton, MiddleButton => true
  | _, _ => false
  end.

Definition default_defect_info : PyVal :=
  VDict [("member", VStr "벽체");
         ("location", VStr "");
         ("defect_type", VStr "");
         ("size", size_default);
         ("progress", VBool false);
         ("remark", VStr "")].

Section Controller.
Context {TK : Toolkit}.

(** Apply a method of a mark to the scene object [o]. *)
Definition update_mark (o : nat) (f : Mark -> Result Mark) (e : Editor)
  : Result Editor :=
  match lookup_obj o (scene e) with
  | Some (IMark m) =>
      m' <- f m ;;
      Ok (with_scene (update_obj o (fun _ => IMark m') (scene e)) e)
  | _ => Ok e
  end.

(** [_init_defect_for_item(item)] on the scene object [o]: a fresh
    [internal_id]; a circle also takes the next display id, the default
    defect record and its label. *)
Definition _init_defect_for_item (o : nat) (e : Editor) : Editor :=
  match lookup_obj o (scene e) with
  | Some (IMark m) =>
      let m := set_internal_id (Some (VStr (uuid4 (uuid_draws e)))) m in
      let e := with_uuid_draws (S (uuid_draws e)) e in
      if is_circle (shape m) then
        let m := set_circle_id (VInt (_next_defect_index e)) m in
        let m := set_defect_info (Some default_defect_info) m in
        let m := set_label (Some "벽체") m in
        with_next_defect_index (_next_defect_index e + 1)%Z
          (with_scene (update_obj o (fun _ => IMark m) (scene e)) e)
      else with_scene (update_obj o (fun _ => IMark m) (scene e)) e
  | _ => e
  end.

Definition _is_basic_shape (e : Editor) : bool :=
  existsb (String.eqb (current_tool e)) ["circle"; "rect"; "tri"; "s"; "text"].

(** The item a double click creates for the current tool. *)
Definition item_for_tool (tool : string) (p : QPointF) : option Mark :=
  if String.eqb tool "circle" then Some (new_mark (CircleMark 18) p)
  else if String.eqb tool "rect" then Some (new_mark (SquareMark 36) p)
  else if String.eqb tool "tri" then Some (new_mark (TriangleMark 40) p)
  else if String.eqb tool "s" then Some (new_mark (SCurveWithMidCircle 43 55) p)
  else if String.eqb tool "text" then Some (new_mark (NoteText "하자") p)
  else None.

Definition stop_press_timer (e : Editor) : Editor :=
  with_drag (with_pending_press_pos None
               (with_pressing false (with_press_timer false (drag e)))) e.

(** [_on_mouse_double_click(event)] *)
Definition _on_mouse_double_click (ev : MouseEvent) (e : Editor) : Editor * bool :=
  let e := stop_press_timer e in
  if negb (MouseButton_eqb (button ev) LeftButton) then (e, false)
  else if match bg_path e with None => true | Some _ => false end
          || negb (_is_basic_shape e)
          || negb (EditMode_eqb (_edit_mode e) SELECT)
  then (e, false)
  else
    let p := scene_pos ev in
    if negb (_can_create_at (hits ev)) then (e, false)
    else
      match item_for_tool (current_tool e) p with
      | None => (e, false)
      | Some it =>
          let e := _begin_edit e in
          let o := next_oid e in
          let e := addItem (IMark it) e in
          let e := _init_defect_for_item o e in
          let e := with_scene (update_obj o (set_item_selected true) (scene e)) e in
          let e := _end_edit e in
          (mark_dirty e, true)
      end.

(** The anchor of the object [o], when it is a mark that has one. *)
Definition anchor_of (o : nat) (e : Editor) : option QPointF :=
  match lookup_obj o (scene e) with
  | Some (IMark m) => _line_anchor_scene_pos m
  | _ => None
  end.

(** [_on_mouse_press(event)] *)
Definition _on_mouse_press (ev : MouseEvent) (e : Editor) : Editor * bool :=
  match bg_path e with
  | None => (e, false)
  | Some _ =>
  if negb (MouseButton_eqb (button ev) LeftButton) then (e, false)
  else
    let p := scene_pos ev in
    let on_handle :=
      match _anchor_handle_visible (handle e), _anchor_handle_target (handle e) with
      | true, Some t =>
          match anchor_of t e with
          | Some anchor =>
              if Qle_bool (QLineF_length (mkLine p anchor)) (handle_radius_scene e)
              then Some t else None
          | None => None
          end
      | _, _ => None
      end in
    match on_handle with
    | Some t =>
        let e := _begin_edit e in
        (with_drag (with_drag_item (Some t) (with_drag_mode MOVE_ANCHOR (drag e))) e, true)
    | None =>
    match hits ev with
    | GI (HMemo o) _ :: _ =>
        let e :=
          if EditMode_eqb (_edit_mode e) AREA_SELECT then e
          else if negb (ctrl_or_shift ev)
          then let e := clearSelection e in
               with_scene (update_obj o (set_item_selected true) (scene e)) e
          else with_scene
                 (update_obj o (fun it => set_item_selected (negb (item_selected it)) it)
                    (scene e)) e in
        (e, true)
    | _ =>
        let hit := _find_shape_at (hits ev) in
        let e := if EditMode_eqb (_edit_mode e) AREA_SELECT then e else clearSelection e in
        match hit, _edit_mode e with
        | Some h, SELECT =>
            let e := _begin_edit e in
            (with_drag (with_drag_item (Some h) (with_drag_mode MOVE (drag e))) e, false)
        | None, SELECT =>
            if String.eqb (current_tool e) "memo_line" then
              let e := stop_press_timer e in
              let e := _begin_edit e in
              let o := next_oid e in
              let e := addItem (IMemoLine (mkLine p p) false) e in
              (with_drag (mkDrag CREATE (Some o) false (Some p)
                            (_pressing (drag e)) (_pending_press_pos (drag e))
                            (_press_timer (drag e))) e, true)
            else if String.eqb (current_tool e) "memo_free" then
              let e := stop_press_timer e in
              let e := _begin_edit e in
              let o := next_oid e in
              let e := addItem (IMemoFreePath [p] false) e in
              (with_drag (mkDrag CREATE (Some o) false (Some p)
                            (_pressing (drag e)) (_pending_press_pos (drag e))
                            (_press_timer (drag e))) e, true)
            else
              (with_drag (with_press_timer true
                            (with_pending_press_pos (Some p)
                               (with_pressing true (drag e)))) e, false)
        | _, _ => (e, false)
        end
    end
    end
  end.

(** [_begin_drag_create()], run when the press-and-hold timer fires. *)
Definition _begin_drag_create (e : Editor) : Editor :=
  let e := with_drag (with_press_timer false (drag e)) e in
  if negb (String.eqb (current_tool e) "circle") then e
  else match _drag_mode (drag e) with
  | NONE =>
    if negb (EditMode_eqb (_edit_mode e) SELECT) then e
    else match _pressing (drag e), _pending_press_pos (drag e) with
    | true, Some p =>
        if QPointF_isNull p then e
        else
          let e := _begin_edit e in
          let e := with_drag (with_pending_press_pos None (with_pressing false (drag e))) e in
          let it := set_visible false (new_mark (CircleMark 18) p) in
          let it := set_circle_id (VInt (_next_defect_index e)) it in
          let it := begin_attach p it in
          let o := next_oid e in
          let e := addItem (IMark it) e in
          with_drag (mkDrag CREATE (Some o) true (Some p)
                       (_pressing (drag e)) (_pending_press_pos (drag e))
                       (_press_timer (drag e))) e
    | _, _ => e
    end
  | _ => e
  end.

(** [_reset_mouse_drag()] *)
Definition _reset_mouse_drag (e : Editor) : Editor :=
  with_drag (with_drag_line false
               (with_drag_item None
                  (with_press_pos None (with_drag_mode NONE (drag e))))) e.

(** [_min_line_length_for_item(item)] *)
Definition _min_line_length_for_item (m : Mark) : Q :=
  let rect := boundingRect m in
  let base := Qmax (rw rect) (rh rect) in
  base + 10.

Definition drag_object (e : Editor) : option Item :=
  match _drag_item (drag e) with
  | Some o => lookup_obj o (scene e)
  | None => None
  end.

(** [_on_mouse_move(event)] *)
Definition _on_mouse_move (ev : MouseEvent) (e : Editor) : Result Editor :=
  match _drag_mode (drag e), _drag_item (drag e) with
  | NONE, _ => Ok e
  | MOVE_ANCHOR, Some o =>
      e <- update_mark o (move_anchor_step (scene_pos ev)) e ;;
      Ok (with_handle (mkHandle true (scene_pos ev) (Some o)) e)
  | MOVE, Some o => update_mark o (move_step (dragged_to ev)) e
  | CREATE, Some o =>
      match lookup_obj o (scene e), _press_pos (drag e) with
      | Some (IMemoLine _ s), Some pp =>
          Ok (with_scene
                (update_obj o (fun _ => IMemoLine (mkLine pp (scene_pos ev)) s) (scene e)) e)
      | Some (IMemoLine _ _), None => Raise TypeError
      | Some (IMemoFreePath pts s), _ =>
          Ok (with_scene
                (update_obj o (fun _ => IMemoFreePath (pts ++ [scene_pos ev]) s) (scene e)) e)
      | Some (IMark m), _ =>
          if is_circle (shape m) && _drag_line (drag e) && left_down ev
          then update_mark o
                 (fun m => m <- move_step (scene_pos ev) (set_visible true m) ;;
                           Ok (match display_id m with
                               | Some d => set_circle_id d m
                               | None => m
                               end)) e
          else Ok e
      | None, _ => Ok e
      end
  | _, None => Ok e
  end.

Definition MIN_MEMO_LINE_LEN : Q := 8.
Definition MIN_MEMO_PATH_SIZE : Q := 6.

Definition undersized_memo (it : Item) : bool :=
  match it with
  | IMemoLine l _ => Qltb (QLineF_length l) MIN_MEMO_LINE_LEN
  | IMemoFreePath pts _ =>
      let rect := points_boundingRect pts in
      Qltb (rw rect) MIN_MEMO_PATH_SIZE && Qltb (rh rect) MIN_MEMO_PATH_SIZE
  | IMark _ => false
  end.

(** The first two tests of [_on_mouse_release]: the dragged item is a
    memo stroke under the minimum size. *)
Definition undersized_drag_memo (e : Editor) : option nat :=
  match _drag_item (drag e), drag_object e with
  | Some o, Some it => if undersized_memo it then Some o else None
  | _, _ => None
  end.

(** [_on_mouse_release(event)] *)
Definition _on_mouse_release (ev : MouseEvent) (e : Editor) : Result Editor :=
  if negb (MouseButton_eqb (button ev) LeftButton) then Ok e
  else
    match undersized_drag_memo e with
    | Some o => Ok (_reset_mouse_drag (_end_edit (removeItem o e)))
    | None =>
        match _drag_mode (drag e) with
        | MOVE | MOVE_ANCHOR =>
            e <- match _drag_mode (drag e), _drag_item (drag e), drag_object e with
                 | MOVE, Some o, Some (IMark m) =>
                     match _attached_line m with
                     | Some _ => update_mark o _update_attached_line_geometry e
                     | None => Ok e
                     end
                 | _, _, _ => Ok e
                 end ;;
            Ok (mark_dirty
                  (with_drag (with_drag_item None (with_drag_mode NONE (drag e)))
                     (with_edit_end_timer true e)))
        | mode =>
            let e := stop_press_timer e in
            match mode, _drag_item (drag e), drag_object e with
            | CREATE, Some _, Some (IMemoLine _ _ | IMemoFreePath _ _) =>
                Ok (mark_dirty (_reset_mouse_drag (_end_edit e)))
            | CREATE, Some o, Some (IMark m) =>
                match _press_pos (drag e) with
                | None => Raise TypeError
                | Some pp =>
                    let end_pos := scene_pos ev in
                    let straight_len := QLineF_length (mkLine pp end_pos) in
                    let too_short :=
                      match shape m with
                      | NoteText _ => false
                      | _ => Qltb straight_len (_min_line_length_for_item m)
                      end in
                    if negb (is_circle (shape m)) then Raise AttributeError
                    else if too_short then
                      e <- update_mark o (fun m => Ok (cancel_attach m)) e ;;
                      Ok (_reset_mouse_drag (removeItem o e))
                    else
                      e <- update_mark o
                             (fun m => confirm_attach (set_visible true (set_pos end_pos m))) e ;;
                      let e := _init_defect_for_item o e in
                      let e := _end_edit e in
                      Ok (_reset_mouse_drag (mark_dirty e))
                end
            | _, _, _ => Ok e
            end
        end
    end.

(** What the release of an undersized memo stroke [o] leaves: the stroke
    is gone, the drag state is reset, and the history and the dirty flag
    are those of [_end_edit] run on the scene without the stroke.  With a
    session open, the snapshot of that scene is pushed, the redo stack
    cleared and the dialog flagged dirty when the snapshot differs from the
    top of the undo stack; when it equals the top, both stacks and the
    flag stay as they are. *)
Definition memo_discarded (o : nat) (e e' : Editor) : Prop :=
  lookup_obj o (scene e') = None /\
  _drag_mode (drag e') = NONE /\ _drag_item (drag e') = None /\
  hist e' = hist (_end_edit (removeItem o e)) /\
  _dirty e' = _dirty (_end_edit (removeItem o e)) /\
  (_undo_block (hist e) = false -> _editing (hist e) = Some true ->
   if differs_from_top (_undo_stack (hist e)) (_make_snapshot (removeItem o e))
   then _undo_stack (hist e')
        = _undo_stack (hist e) ++ [_make_snapshot (removeItem o e)] /\
        _redo_stack (hist e') = [] /\
        _dirty e' = true
   else _undo_stack (hist e') = _undo_stack (hist e) /\
        _redo_stack (hist e') = _redo_stack (hist e) /\
        _dirty e' = _dirty e).

(** The Ctrl + wheel branch of [PlanView.wheelEvent]: every selected item
    is scaled by the factor, and the edit session is left to the idle
    timer.  (Memo strokes are scaled by Qt as well; their scale is not
    part of this model.) *)
Definition wheel_scale (factor : Q) (e : Editor) : Editor :=
  match selectedItems e with
  | [] => e
  | _ =>
      let e := match _editing (hist e) with
               | Some true => e
               | _ => _begin_edit e
               end in
      let e := with_scene
                 (map (fun x =>
                         match item x with
                         | IMark m =>
                             if isSelected m
                             then mkObj (oid x) (IMark (wheel_scale_item factor m))
                             else x
                         | _ => x
                         end) (scene e)) e in
      with_edit_end_timer true e
  end.

End Controller.

(* ================================================================== *)
(** * Renumbering, deletion, and the dialog around the editor *)
(* ================================================================== *)

(** [list.sort(key=...)] is stable: an element goes in front of the first
    one whose key is not smaller. *)
Fixpoint insert_by_key {A : Type} (key : A -> Z) (x : A) (l : list A) : list A :=
  match l with
  | [] => [x]
  | y :: r => if (key y <? key x)%Z then y :: insert_by_key key x r else x :: y :: r
  end.

Definition sort_by_key {A : Type} (key : A -> Z) (l : list A) : list A :=
  fold_right (insert_by_key key) [] l.

(** The first loop of [_renumber_circle_ids]: the circles whose
    [display_id] is an [int], each with that id.  A circle without the
    attribute raises. *)
Fixpoint collect_circles (sc : list SceneObject) : Result (list (nat * Z)) :=
  match sc with
  | [] => Ok []
  | x :: r =>
      match item x with
      | IMark m =>
          if is_circle (shape m) then
            match display_id m with
            | None => Raise AttributeError
            | Some d =>
                rest <- collect_circles r ;;
                match py_as_int d with
                | Some n => Ok ((oid x, n) :: rest)
                | None => Ok rest
                end
            end
          else collect_circles r
      | _ => collect_circles r
      end
  end.

(** The body of the second loop: [if circle.display_id != idx:
    circle.set_circle_id(idx); circle.display_id = idx]. *)
Definition renumber_one (idx : Z) (it : Item) : Item :=
  match it with
  | IMark m =>
      match display_id m with
      | Some d => if py_eq d (VInt idx) then it else IMark (set_circle_id (VInt idx) m)
      | None => it
      end
  | _ => it
  end.

(** [for idx, circle in enumerate(circles, start=1)] *)
Fixpoint renumber_loop (idx : Z) (circles : list (nat * Z)) (sc : list SceneObject)
  : list SceneObject :=
  match circles with
  | [] => sc
  | (o, _) :: r => renumber_loop (idx + 1)%Z r (update_obj o (renumber_one idx) sc)
  end.

Definition renumber_scene (sc : list SceneObject) : Result (list SceneObject) :=
  circles <- collect_circles sc ;;
  Ok (renumber_loop 1%Z (sort_by_key snd circles) sc).

(** [_renumber_circle_ids()] *)
Definition _renumber_circle_ids (e : Editor) : Result Editor :=
  sc <- renumber_scene (scene e) ;;
  Ok (with_scene sc e).

(** The display ids of the circles of a scene, in scene order. *)
Definition circle_ids (sc : list SceneObject) : list (option PyVal) :=
  flat_map (fun x => match item x with
                     | IMark m => if is_circle (shape m) then [display_id m] else []
                     | _ => []
                     end) sc.

(** The display id of an item that is a circle numbered by an [int]. *)
Definition int_circle (it : Item) : option Z :=
  match it with
  | IMark m =>
      if is_circle (shape m)
      then match display_id m with Some d => py_as_int d | None => None end
      else None
  | _ => None
  end.

(** The display id of the circle with identity [o]. *)
Definition circle_id_of (o : nat) (sc : list SceneObject) : option Z :=
  match lookup_obj o sc with
  | Some it => int_circle it
  | None => None
  end.

(** The circles of a scene whose display id is an [int], in scene order,
    each as its identity and that id. *)
Definition circle_entries (sc : list SceneObject) : list (nat * Z) :=
  flat_map (fun x => match int_circle (item x) with
                     | Some n => [(oid x, n)]
                     | None => []
                     end) sc.

(** Every circle of the scene has an [int] as its display id. *)
Definition circles_numbered (sc : list SceneObject) : Prop :=
  forall x m, In x sc -> item x = IMark m -> is_circle (shape m) = true ->
              exists n, display_id m = Some (VInt n).

(** An item that is not a circle without a number. *)
Definition numbered_item (it : Item) : Prop :=
  forall m, it = IMark m -> is_circle (shape m) = true ->
            exists n, display_id m = Some (VInt n).

(** The index the loop of [renumber_loop] gives the object [o]. *)
Fixpoint assigned (idx : Z) (l : list (nat * Z)) (o : nat) : option Z :=
  match l with
  | [] => None
  | (o', _) :: r => if Nat.eqb o' o then Some idx else assigned (idx + 1)%Z r o
  end.

(** The scene after the loop, object by object. *)
Definition renumbered (sorted : list (nat * Z)) (x : SceneObject) : SceneObject :=
  match assigned 1 sorted (oid x) with
  | Some i => mkObj (oid x) (renumber_one i (item x))
  | None => x
  end.

Section Dialog.
Context {TK : Toolkit}.

(** [delete_selected_items()] *)
Definition delete_selected_items (e : Editor) : Result Editor :=
  match selectedItems e with
  | [] => Ok e
  | items =>
      let e := _begin_edit e in
      let e := fold_left (fun e x => removeItem (oid x) e) items e in
      e <- _renumber_circle_ids e ;;
      let e := with_next_defect_index (_calc_next_defect_index e) e in
      let e := clearSelection e in
      let e := _end_edit e in
      Ok (mark_dirty e)
  end.

(** The user's selection as Qt keeps it: the objects named in [sel]
    become the selected ones. *)
Definition select_objects (sel : list nat) (e : Editor) : Editor :=
  with_scene
    (map (fun x => mkObj (oid x)
                     (set_item_selected (existsb (Nat.eqb (oid x)) sel) (item x)))
       (scene e)) e.

(** [FaultEditorWidget.__init__]: building the shape panel selects its
    first row, the memo line tool. *)
Definition FaultEditorWidget_init (radius : Q) : Editor :=
  mkEditor [] 0 0 None
    (mkHistory [] [] false None)
    (mkDrag NONE None false None false None false)
    (mkHandle false (mkPoint 0 0) None)
    SELECT "memo_line" 1%Z false radius 0 false.

(** [_on_shape_selected]: the user picks a tool in the shape panel. *)
Definition _on_shape_selected (tool : string) (e : Editor) : Editor :=
  with_current_tool tool e.

(** [FaultEditorDialog._load_defects(defects)] *)
Definition _load_defects (defects : PyVal) (e : Editor) : Result Editor :=
  match defects, bg_path e with
  | VDict d, Some bp =>
      let items := dict_get_default d "items" (VList []) in
      let e := with_scene [] e in
      let e := open_png_from_path (VStr bp) e in
      l <- py_iter items ;;
      e <- for_each _restore_item l e ;;
      let e := with_next_defect_index (_calc_next_defect_index e) e in
      let e := with_dirty false e in
      let baseline := VDict (get_defects e) in
      Ok (with_hist (with_undo_stack [baseline] (with_redo_stack [] (hist e))) e)
  | _, _ => Raise AttributeError
  end.

(** [FaultEditorDialog.__init__(image_path, defects)] *)
Definition FaultEditorDialog_init (radius : Q) (image_path : string) (defects : PyVal)
  : Result Editor :=
  let e := FaultEditorWidget_init radius in
  let e := open_png_from_path (VStr image_path) e in
  let snap := _make_snapshot e in
  let e := with_hist (with_undo_stack [snap] (with_redo_stack [] (hist e))) e in
  e <- (if truthy defects then _load_defects defects e else Ok e) ;;
  Ok (with_dirty false e).

(** What the user can do to the canvas, and the handler each action
    runs.  The hold timer fires only while it is running. *)
Inductive UserAction : Type :=
| PickTool (tool : string)
| DoubleClick (ev : MouseEvent)
| Press (ev : MouseEvent)
| HoldTimer
| Move (ev : MouseEvent)
| Release (ev : MouseEvent)
| Select (sel : list nat)
| DeleteKey.

Definition step (a : UserAction) (e : Editor) : Result Editor :=
  match a with
  | PickTool tool => Ok (_on_shape_selected tool e)
  | DoubleClick ev => Ok (fst (_on_mouse_double_click ev e))
  | Press ev => Ok (fst (_on_mouse_press ev e))
  | HoldTimer => Ok (if _press_timer (drag e) then _begin_drag_create e else e)
  | Move ev => _on_mouse_move ev e
  | Release ev => _on_mouse_release ev e
  | Select sel => Ok (select_objects sel e)
  | DeleteKey => delete_selected_items e
  end.

Definition run (actions : list UserAction) (e : Editor) : Result Editor :=
  for_each step actions e.

(** The editor states that creations and deletions lead to: a dialog
    opened on a drawing without saved defects, then any actions. *)
Definition reachable (e : Editor) : Prop :=
  exists (radius : Q) (image_path : string) (actions : list UserAction),
    (e0 <- FaultEditorDialog_init radius image_path VNone ;; run actions e0) = Ok e.

(** What every such state satisfies: the objects of the scene are
    distinct, their identities are below the next one to hand out, and
    every circle has an [int] as its display id. *)
Definition scene_inv (e : Editor) : Prop :=
  NoDup (map oid (scene e)) /\
  (forall x, In x (scene e) -> (oid x < next_oid e)%nat) /\
  circles_numbered (scene e).

End Dialog.

(* ================================================================== *)
(** * What a snapshot keeps of a scene *)
(* ================================================================== *)

(** [getattr(item, name, d)] *)
Definition attr_or (a : option PyVal) (d : PyVal) : PyVal :=
  match a with Some v => v | None => d end.

(** The [line] entry of [to_dict]. *)
Definition line_record (l : QLineF) : PyVal :=
  VDict [("p1", point_list (p1 l)); ("p2", point_list (p2 l))].

Definition class_of (s : Shape) : MarkClass :=
  match s with
  | CircleMark _ => cls_CircleMark
  | SquareMark _ => cls_SquareMark
  | TriangleMark _ => cls_TriangleMark
  | SCurveWithMidCircle _ _ => cls_SCurveWithMidCircle
  | NoteText _ => cls_NoteText
  end.




(** The keys written by [SerializableMixin.to_dict], not by a subclass. *)
Definition base_key (k : string) : bool :=
  negb (existsb (String.eqb k) ["radius"; "size"; "w"; "h"; "text"]).

(** A defect record that has the six fields of a circle. *)
Definition has_all_fields (di : PyDict) : bool :=
  forallb (fun k => match dict_get di k with Some _ => true | None => false end)
          ["member"; "location"; "defect_type"; "size"; "progress"; "remark"].

Section RoundTrip.
Context {TK : Toolkit}.

(** The shape [from_dict] rebuilds from what [to_dict] wrote: the sizes
    are read back from the bounding rectangle. *)
Definition roundtrip_shape (m : Mark) : Shape :=
  match shape m with
  | CircleMark _ => CircleMark (rw (boundingRect m) / 2)
  | SquareMark size => SquareMark size
  | TriangleMark _ => TriangleMark (rw (boundingRect m))
  | SCurveWithMidCircle _ _ =>
      SCurveWithMidCircle (rw (boundingRect m)) (rh (boundingRect m))
  | NoteText text => NoteText text
  end.

(** The [defect_info] a restored mark ends with: the recorded one, or
    [{}] when the mark had none; a circle's is completed with the six
    default fields. *)
Definition restored_defect_info (m : Mark) : PyVal :=
  let dinfo := attr_or (defect_info m) (VDict []) in
  if is_circle (shape m) then
    match py_or dinfo (VDict []) with
    | VDict di => VDict (restore_defaults di)
    | v => v
    end
  else dinfo.

(** The marks the editor builds: a circle's scale has been through the
    clamp, its defect record is a dict whose member is text; a mark of
    another class has no line, and a display id only if it is text. *)
Definition mark_ok (m : Mark) : bool :=
  let did := attr_or (display_id m) VNone in
  let dinfo := attr_or (defect_info m) (VDict []) in
  if is_circle (shape m) then
    Qle_bool MIN_SCALE (scale m) && Qle_bool (scale m) MAX_SCALE &&
    match py_or dinfo (VDict []) with
    | VDict di =>
        negb (truthy did) ||
        match dict_get_default (restore_defaults di) "member" (VStr "") with
        | VStr _ => true
        | _ => false
        end
    | _ => false
    end
  else
    (negb (truthy did) || match did with VStr _ => true | _ => false end) &&
    match _attached_line m with None => true | Some _ => false end.

Definition item_ok (it : Item) : bool :=
  match it with
  | IMark m => mark_ok m
  | IMemoLine _ _ => true
  | IMemoFreePath pts _ => match pts with [] => false | _ => true end
  end.

Definition scene_ok (sc : list SceneObject) : bool :=
  forallb (fun x => item_ok (item x)) sc.

(** [m'] is what restoring the record of [m] yields. *)
Definition restored_from (m m' : Mark) : Prop :=
  shape m' = roundtrip_shape m /\
  pos m' = pos m /\
  scale m' = scale m /\
  rotation m' = rotation m /\
  internal_id m' = Some (attr_or (internal_id m) VNone) /\
  display_id m' = Some (attr_or (display_id m) VNone) /\
  defect_info m' = Some (restored_defect_info m) /\
  _line_anchor_scene_pos m' = option_map p1 (_attached_line m).

(** The round trip as the claim has it: the restored mark has the same
    internal id, position, scale, rotation and [defect_info]. *)
Definition same_mark_data (m m' : Mark) : Prop :=
  internal_id m' = internal_id m /\
  pos m' = pos m /\
  scale m' = scale m /\
  rotation m' = rotation m /\
  defect_info m' = defect_info m.

(** A mark that has an internal id and a [defect_info], complete in the
    case of a circle: the marks for which nothing is filled in. *)
Definition keeps_its_data (m : Mark) : Prop :=
  internal_id m <> None /\
  exists v, defect_info m = Some v /\
            (is_circle (shape m) = true ->
             exists di, v = VDict di /\ has_all_fields di = true).

End RoundTrip.

(* ================================================================== *)
(** * models.py: loading a project *)
(* ================================================================== *)

Module Models.

(** The dataclasses.  A field holds whatever the file had under its key,
    so the fields are [PyVal]s; [inspections] is always built by [dict]. *)
Record BuildingInfo : Type := mkBuildingInfo {
  b_name : PyVal;
  b_address : PyVal;
  b_location : PyVal;
  b_memo : PyVal;
  b_photos : list PyVal
}.

Record SubPart : Type := mkSubPart {
  sp_id : PyVal;
  sp_name : PyVal;
  sp_image_path : PyVal;
  inspections : PyDict
}.

Record Part : Type := mkPart {
  part_id : PyVal;
  part_name : PyVal;
  subparts : list SubPart
}.

Record Project : Type := mkProject {
  project_id : PyVal;
  building : BuildingInfo;
  parts : list Part
}.

(** Loading draws random ids: a computation takes the number of draws
    made so far and returns it updated, or raises. *)
Definition M (A : Type) : Type := nat -> Result (A * nat).

Definition ret {A : Type} (a : A) : M A := fun n => Ok (a, n).

Definition bindM {A B : Type} (c : M A) (f : A -> M B) : M B :=
  fun n => match c n with
           | Ok (a, n') => f a n'
           | Raise e => Raise e
           end.

Definition lift {A : Type} (r : Result A) : M A :=
  fun n => match r with Ok a => Ok (a, n) | Raise e => Raise e end.

Notation "x <~ c1 ;; c2" := (bindM c1 (fun x => c2))
  (at level 61, c1 at next level, right associativity).

Fixpoint mapM {A B : Type} (f : A -> M B) (l : list A) : M (list B) :=
  match l with
  | [] => ret []
  | a :: r => b <~ f a ;; bs <~ mapM f r ;; ret (b :: bs)
  end.

(** [v.get(k, dflt)] on a value that may not be a dict. *)
Definition py_get (v : PyVal) (k : string) (dflt : PyVal) : Result PyVal :=
  match v with
  | VDict d => Ok (dict_get_default d k dflt)
  | _ => Raise AttributeError
  end.

(** One element of the sequence [dict()] is given: an iterable of two
    items, the key and the value.  An element that cannot be iterated is
    a [TypeError], one of another length a [ValueError], a key that is a
    list or a dict (unhashable) a [TypeError].  The dicts of this embedding
    have [str] keys, as the objects of a JSON file do; a pair whose key is
    a number, a bool or [None] makes a dict it cannot hold, and the model
    stops there with [TypeError]; a [str] is read byte by byte, which is
    character by character for ASCII text (the theorems on loading leave
    the other pairs out, see [str_keyed]). *)
Definition dict_pair (x : PyVal) : Result (string * PyVal) :=
  items <- py_iter x ;;
  match items with
  | [VStr k; v] => Ok (k, v)
  | [_; _] => Raise TypeError
  | _ => Raise ValueError
  end.

(** [dict(v)]: a copy of a dict, or the dict of a sequence of pairs; the
    characters of a [str] are no pairs. *)
Definition py_dict (v : PyVal) : Result PyDict :=
  match v with
  | VDict d => Ok d
  | VList l =>
      for_each (fun x d => kv <- dict_pair x ;; Ok (dict_set d (fst kv) (snd kv))) l []
  | VStr s => if String.eqb s "" then Ok [] else Raise ValueError
  | _ => Raise TypeError
  end.

(** [dict(v or {})] *)
Definition dict_or_empty (v : PyVal) : Result PyDict := py_dict (py_or v (VDict [])).

Definition remove_dashes (s : string) : string :=
  string_of_list_ascii
    (filter (fun c => negb (Ascii.eqb c "-"%char)) (list_ascii_of_string s)).

Section Loader.
Context {TK : Toolkit}.

(** [new_id(prefix)]: the prefix, an underscore, and the first ten hex
    digits of a fresh uuid. *)
Definition new_id (prefix : string) : M PyVal :=
  fun n =>
    Ok (VStr (prefix ++ "_" ++ substring 0 10 (remove_dashes (uuid4 n))), S n).

(** One step of the loop of [normalize_subpart_inspections]. *)
Definition normalize_entry (kv : string * PyVal) (insp : PyDict) : Result PyDict :=
  let (k, v) := kv in
  match v with
  | VNone => Ok (dict_set insp k (VDict [("defects", VDict [])]))
  | VDict vd =>
      match dict_get vd "defects" with
      | None => Ok (dict_set insp k (VDict [("defects", VDict vd)]))
      | Some dv =>
          d <- dict_or_empty dv ;;
          Ok (dict_set insp k (VDict (dict_set vd "defects" (VDict d))))
      end
  | VStr s =>
      match index 0 "defects" s with
      | Some _ => Raise AttributeError
      | None => d <- dict_or_empty v ;; Ok (dict_set insp k (VDict [("defects", VDict d)]))
      end
  | VList l =>
      if existsb (fun x => py_eq x (VStr "defects")) l then Raise AttributeError
      else d <- dict_or_empty v ;; Ok (dict_set insp k (VDict [("defects", VDict d)]))
  | _ => Raise TypeError
  end.

(** [normalize_subpart_inspections(sp)], on the [inspections] of [sp]. *)
Definition normalize_subpart_inspections (insp : PyDict) : Result PyDict :=
  for_each normalize_entry insp insp.

(** The body of the loop over [p["subparts"]]. *)
Definition subpart_from_dict (sp : PyVal) : M SubPart :=
  match sp with
  | VDict sd =>
      fresh <~ new_id "subpart" ;;
      insp <~ lift (dict_or_empty (dict_get_default sd "inspections" (VDict []))) ;;
      let legacy_defects := dict_get_default sd "defects" VNone in
      insp <~ (match legacy_defects, insp with
               | VNone, _ => ret insp
               | _, [] =>
                   ld <~ lift (dict_or_empty legacy_defects) ;;
                   ret [("DEFAULT", VDict [("defects", VDict ld)])]
               | _, _ => ret insp
               end) ;;
      insp <~ lift (normalize_subpart_inspections insp) ;;
      ret (mkSubPart (dict_get_default sd "id" fresh)
                     (dict_get_default sd "name" (VStr ""))
                     (dict_get_default sd "image_path" (VStr ""))
                     insp)
  | _ => lift (Raise AttributeError)
  end.

(** The [else] branch: a part that carries the drawing and the defects
    itself. *)
Definition legacy_subpart (pd : PyDict) : M SubPart :=
  legacy_defects <~ lift (dict_or_empty (dict_get_default pd "defects" (VDict []))) ;;
  fresh <~ new_id "subpart" ;;
  insp <~ lift (normalize_subpart_inspections
                  [("DEFAULT", VDict [("defects", VDict legacy_defects)])]) ;;
  ret (mkSubPart fresh
                 (dict_get_default pd "name" (VStr ""))
                 (dict_get_default pd "image_path" (VStr ""))
                 insp).

(** The body of the loop over [d["parts"]]. *)
Definition part_from_dict (p : PyVal) : M Part :=
  match p with
  | VDict pd =>
      sps <~ (match dict_get pd "subparts" with
              | Some v => l <~ lift (py_iter v) ;; mapM subpart_from_dict l
              | None => sp <~ legacy_subpart pd ;; ret [sp]
              end) ;;
      fresh <~ new_id "part" ;;
      ret (mkPart (dict_get_default pd "id" fresh)
                  (dict_get_default pd "name" (VStr ""))
                  sps)
  | VStr _ | VList _ => lift (Raise AttributeError)
  | _ => lift (Raise TypeError)
  end.

Definition building_from_dict (d : PyDict) : Result BuildingInfo :=
  let b := py_or (dict_get_default d "building" (VDict [])) (VDict []) in
  name <- py_get b "name" (VStr "") ;;
  address <- py_get b "address" (VStr "") ;;
  location <- py_get b "location" (VStr "") ;;
  memo <- py_get b "memo" (VStr "") ;;
  ph <- py_get b "photos" (VList []) ;;
  photos <- py_iter (py_or ph (VList [])) ;;
  Ok (mkBuildingInfo name address location memo photos).

(** [Project.from_dict(d)] *)
Definition from_dict (d : PyVal) : M Project :=
  match d with
  | VDict dd =>
      b <~ lift (building_from_dict dd) ;;
      ps <~ lift (py_iter (py_or (dict_get_default dd "parts" (VList [])) (VList []))) ;;
      parts <~ mapM part_from_dict ps ;;
      fresh <~ new_id "proj" ;;
      ret (mkProject (dict_get_default dd "id" fresh) b parts)
  | _ => lift (Raise AttributeError)
  end.

(** The [inspections] the migration produces: [{"DEFAULT": {"defects":
    defects}}]. *)
Definition default_inspection (defects : PyDict) : PyDict :=
  [("DEFAULT", VDict [("defects", VDict defects)])].

End Loader.
End Models.

(* ================================================================== *)
(** * A reference platform for concrete inputs *)
(* ================================================================== *)

(** One [Toolkit] on which the functions above can be run with concrete
    inputs; no theorem is about it.  It stands for Qt and Python only
    where the examples go: the square root behind [hypot] is cut to six
    decimals (exact on the lengths the examples use, short of
    [math.hypot] elsewhere); the outline of a circle is that of its
    bounding rectangle, without rotation; the bounding rectangles of the
    triangle, the curve and the text are nominal; [py_int] reads plain
    decimal digits, where [int()] also takes white space, a sign and
    underscores. *)
Module Reference.

Definition sqrt6 (q : Q) : Q :=
  Z.sqrt (Qnum q * 1000000000000 / Zpos (Qden q)) # 1000000.

Definition hypot (x y : Q) : Q := sqrt6 (x * x + y * y).

(** [QLineF::intersects], after its implementation in Qt. *)
Definition bounded_intersection (l1 l2 : QLineF) : option QPointF :=
  let a := psub (p2 l1) (p1 l1) in
  let b := psub (p1 l2) (p2 l2) in
  let c := psub (p1 l1) (p1 l2) in
  let denominator := py a * px b - px a * py b in
  if Qeq_bool denominator 0 then None
  else
    let reciprocal := 1 / denominator in
    let na := (py b * px c - px b * py c) * reciprocal in
    if Qltb na 0 || Qltb 1 na then None
    else
      let nb := (px a * py c - py a * px c) * reciprocal in
      if Qltb nb 0 || Qltb 1 nb then None
      else Some (padd (p1 l1) (pmul a na)).

(** [mapToScene] of a top-level item whose transform origin is its own
    origin and whose rotation is 0. *)
Definition mapToScene (m : Placement) (p : QPointF) : QPointF :=
  padd (pl_pos m) (pmul p (pl_scale m)).

(** [QGraphicsItem.shape()] is the outline of [boundingRect()] unless a
    class overrides it; [CircleMark] does not.  The path of a rectangle
    has one closed subpath of five points. *)
Definition shape_polygons_scene (m : Placement) : list (list QPointF) :=
  match pl_shape m with
  | CircleMark r =>
      [map (mapToScene m)
           [mkPoint (- r) (- r); mkPoint r (- r); mkPoint r r; mkPoint (- r) r;
            mkPoint (- r) (- r)]]
  | _ => []
  end.

Definition polygon_scene (m : Placement) : list QPointF :=
  match pl_shape m with
  | TriangleMark size =>
      let h := size * sqrt6 3 / 2 in
      map (mapToScene m)
          [mkPoint 0 (- h / 2); mkPoint (- size / 2) (h / 2); mkPoint (size / 2) (h / 2)]
  | _ => []
  end.

(** The bounding rectangle of the square is its rectangle widened by
    half the pen width on each side, as Qt computes it; the other boxes
    are nominal (Qt takes them from the stroked outline). *)
Definition qt_boundingRect (s : Shape) : QRectF :=
  match s with
  | CircleMark r => mkRect (- r) (- r) (r * 2) (r * 2)
  | SquareMark size => mkRect (- size / 2 - 1) (- size / 2 - 1) (size + 2) (size + 2)
  | TriangleMark size =>
      let h := size * sqrt6 3 / 2 in
      mkRect (- size / 2 - 1) (- h / 2 - 1) (size + 2) (h + 2)
  | SCurveWithMidCircle w h => mkRect (- w / 2) (- h / 2 - (3 # 2)) w (h + 3)
  | NoteText _ => mkRect 0 0 40 24
  end.

Definition digit (n : nat) : string :=
  String (ascii_of_nat (48 + n mod 10)) EmptyString.

Definition uuid4 (n : nat) : string :=
  ("0000" ++ digit (n / 1000) ++ digit (n / 100) ++ digit (n / 10) ++ digit n
   ++ "-0000-4000-8000-000000000000")%string.

(** Every path but the empty one names a readable image. *)
Definition pixmap_isNull (path : string) : bool := String.eqb path "".

Fixpoint digits_value (acc : Z) (s : string) : option Z :=
  match s with
  | EmptyString => Some acc
  | String c r =>
      let n := nat_of_ascii c in
      if Nat.leb 48 n && Nat.leb n 57
      then digits_value (acc * 10 + Z.of_nat (n - 48)) r
      else None
  end.

Definition py_int (s : string) : option Z :=
  match s with
  | EmptyString => None
  | _ => digits_value 0 s
  end.

Fixpoint last_field (cur : string) (s : string) : string :=
  match s with
  | EmptyString => cur
  | String c r =>
      if Ascii.eqb c "-"%char then last_field EmptyString r
      else last_field (cur ++ String c EmptyString)%string r
  end.

#[export] Instance toolkit : Toolkit := {
  hypot := hypot;
  bounded_intersection := bounded_intersection;
  polygon_scene := polygon_scene;
  shape_polygons_scene := shape_polygons_scene;
  mapToScene := mapToScene;
  qt_boundingRect := qt_boundingRect;
  uuid4 := uuid4;
  pixmap_isNull := pixmap_isNull;
  py_int := py_int;
  last_dash_field := last_field EmptyString
}.

End Reference.


(* ================================================================== *)
(** * models.py: the inspection helpers and [Project.to_dict] *)
(* ================================================================== *)

Module Helpers.

(** [dataclasses.asdict] on the four dataclasses: the fields in their
    order of declaration. *)
Definition BuildingInfo_asdict (b : Models.BuildingInfo) : PyVal :=
  VDict [("name", Models.b_name b); ("address", Models.b_address b);
         ("location", Models.b_location b); ("memo", Models.b_memo b);
         ("photos", VList (Models.b_photos b))].

Definition SubPart_asdict (sp : Models.SubPart) : PyVal :=
  VDict [("id", Models.sp_id sp); ("name", Models.sp_name sp);
         ("image_path", Models.sp_image_path sp);
         ("inspections", VDict (Models.inspections sp))].

Definition Part_asdict (p : Models.Part) : PyVal :=
  VDict [("id", Models.part_id p); ("name", Models.part_name p);
         ("subparts", VList (map SubPart_asdict (Models.subparts p)))].

(** [Project.to_dict()] *)
Definition to_dict (proj : Models.Project) : PyVal :=
  VDict [("id", Models.project_id proj);
         ("building", BuildingInfo_asdict (Models.building proj));
         ("parts", VList (map Part_asdict (Models.parts proj)))].

(** [ensure_inspection(sp, key)], on the [inspections] of [sp]. *)
Definition ensure_inspection (key : string) (insp : PyDict) : Result PyDict :=
  let insp :=
    match dict_get insp key with
    | Some _ => insp
    | None => dict_set insp key (VDict [("defects", VDict [])])
    end in
  Models.normalize_subpart_inspections insp.

(** [sp.inspections[key]] *)
Definition inspection_at (insp : PyDict) (key : string) : Result PyVal :=
  match dict_get insp key with
  | Some v => Ok v
  | None => Raise KeyError
  end.

(** [get_defects(sp, key)]: the defects, and the [inspections] as the
    call leaves them. *)
Definition get_defects (key : string) (insp : PyDict) : Result (PyVal * PyDict) :=
  insp <- ensure_inspection key insp ;;
  info <- inspection_at insp key ;;
  d <- py_getitem info "defects" ;;
  Ok (d, insp).

(** [set_defects(sp, key, defects)] *)
Definition set_defects (key : string) (defects : PyVal) (insp : PyDict) : Result PyDict :=
  insp <- ensure_inspection key insp ;;
  d <- Models.dict_or_empty defects ;;
  info <- inspection_at insp key ;;
  match info with
  | VDict i => Ok (dict_set insp key (VDict (dict_set i "defects" (VDict d))))
  | _ => Raise TypeError
  end.

(** [copy_inspection(sp, src, dst)] *)
Definition copy_inspection (src dst : string) (insp : PyDict) : Result PyDict :=
  insp <- ensure_inspection src insp ;;
  match dict_get insp dst with
  | Some _ => Raise ValueError
  | None =>
      v <- inspection_at insp src ;;
      Models.normalize_subpart_inspections (dict_set insp dst v)
  end.

(** An inspection record as [normalize_subpart_inspections] leaves it: a
    dict whose [defects] is a dict. *)
Definition has_defects_dict (v : PyVal) : Prop :=
  exists vd dm, v = VDict vd /\ dict_get vd "defects" = Some (VDict dm).

(** The [inspections] of a sub-part in normal form: the keys are distinct
    (it is a dict) and every record has its [defects] dict. *)
Definition normal (insp : PyDict) : Prop :=
  NoDup (map fst insp) /\ Forall (fun kv => has_defects_dict (snd kv)) insp.

(** The record under [k] has its [defects] dict. *)
Definition shaped_at (s : PyDict) (k : string) : Prop :=
  exists v, dict_get s k = Some v /\ has_defects_dict v.

End Helpers.

(** A value in which every dict has distinct keys, as every Python value
    has. *)
Fixpoint unique_keys (v : PyVal) : Prop :=
  match v with
  | VList l =>
      (fix all (l : list PyVal) : Prop :=
         match l with
         | [] => True
         | x :: r => unique_keys x /\ all r
         end) l
  | VDict d =>
      NoDup (map fst d) /\
      (fix all (d : list (string * PyVal)) : Prop :=
         match d with
         | [] => True
         | (_, x) :: r => unique_keys x /\ all r
         end) d
  | _ => True
  end.

(** The strings whose characters are those of ASCII: a [string] holds one
    byte for each of them. *)
Definition ascii_text (s : string) : bool :=
  forallb (fun c => Nat.ltb (nat_of_ascii c) 128) (list_ascii_of_string s).

(** A pair that [dict()] takes as this embedding has it: not a list of
    two items whose first is a number, a bool or [None] (the entry would
    have a key that is not a [str]), and not a [str] with characters
    beyond ASCII (a [str] given as a pair is read character by
    character). *)
Definition str_key_pair (x : PyVal) : Prop :=
  match x with
  | VList [VNone; _] | VList [VBool _; _] | VList [VInt _; _] | VList [VFloat _; _] =>
      False
  | VStr s => ascii_text s = true
  | _ => True
  end.

(** A value in which every element of every list is such a pair, at any
    depth: whatever [dict()] makes of one of its lists has [str] keys, as
    the objects of a JSON file have. *)
Fixpoint str_keyed (v : PyVal) : Prop :=
  match v with
  | VList l =>
      (fix all (l : list PyVal) : Prop :=
         match l with
         | [] => True
         | x :: r => str_key_pair x /\ str_keyed x /\ all r
         end) l
  | VDict d =>
      (fix all (d : list (string * PyVal)) : Prop :=
         match d with
         | [] => True
         | (_, x) :: r => str_keyed x /\ all r
         end) d
  | _ => True
  end.

(* ================================================================== *)
(** * part_manager.py: the inspections of a sub-part *)
(* ================================================================== *)

Module PartManager.

(** What [InspectionCreateDialog.get_data()] returns: the stripped name,
    the start date as text, and the end date when it is enabled. *)
Record InspectionData : Type := mkInspectionData {
  data_name : string;
  data_start_date : string;
  data_end_date : option string
}.

(** The record [add_inspection] and [copy_inspection] store. *)
Definition inspection_record (data : InspectionData) (defects : PyDict) : PyVal :=
  VDict [("name", VStr (data_name data));
         ("start_date", VStr (data_start_date data));
         ("end_date", match data_end_date data with Some s => VStr s | None => VNone end);
         ("defects", VDict defects)].

(** [not data["name"] or not data["start_date"]] *)
Definition data_missing (data : InspectionData) : bool :=
  String.eqb (data_name data) "" || String.eqb (data_start_date data) "".

(** [_refresh_inspection_list(sp)]: the rows added to the list, each
    with the [info["name"]] its [QListWidgetItem] is made of and the
    inspection id it carries. *)
Definition _refresh_inspection_list (insp : PyDict) : Result (list (PyVal * string)) :=
  map_result (fun kv =>
                name <- py_getitem (snd kv) "name" ;;
                Ok (name, fst kv)) insp.

Section Actions.
Context {TK : Toolkit}.

(** The id text of [new_id(prefix)]. *)
Definition new_key (prefix : string) : Models.M string :=
  fun n =>
    match Models.new_id prefix n with
    | Ok (VStr s, n') => Ok (s, n')
    | Ok (_, _) => Raise TypeError
    | Raise x => Raise x
    end.

(** [add_inspection()], once the dialog is accepted with [data]. *)
Definition add_inspection (data : InspectionData) (insp : PyDict) : Models.M PyDict :=
  if data_missing data then Models.ret insp
  else
    Models.bindM (new_key "insp") (fun insp_id =>
    Models.ret (dict_set insp insp_id (inspection_record data []))).

(** [copy_inspection()], once the dialog is accepted with [data]. *)
Definition copy_inspection (src : string) (data : InspectionData) (insp : PyDict)
  : Models.M PyDict :=
  if data_missing data then Models.ret insp
  else
    Models.bindM (new_key "insp") (fun new_id_ =>
    Models.bindM (Models.lift (Helpers.inspection_at insp src)) (fun info =>
    Models.bindM (Models.lift (Models.py_get info "defects" (VDict []))) (fun d0 =>
    Models.bindM (Models.lift (Models.py_dict d0)) (fun d =>
    Models.ret (dict_set insp new_id_ (inspection_record data d)))))).

End Actions.

(** [edit_defects()]: the defects the editor dialog is opened with. *)
Definition edit_defects (key : string) (insp : PyDict) : Result PyVal :=
  info <- Helpers.inspection_at insp key ;;
  Models.py_get info "defects" (VDict []).

(** [on_save(new_defects)], the slot [edit_defects] connects to
    [saveRequested]. *)
Definition on_save (key : string) (new_defects : PyVal) (insp : PyDict) : Result PyDict :=
  info <- Helpers.inspection_at insp key ;;
  match info with
  | VDict i => Ok (dict_set insp key (VDict (dict_set i "defects" new_defects)))
  | _ => Raise TypeError
  end.

End PartManager.

(* ================================================================== *)
(** * The dialog: saving *)
(* ================================================================== *)

Section SaveDefs.
Context {TK : Toolkit}.

(** [FaultEditorDialog.save_if_dirty()]: the editor afterwards, and the
    defects emitted with [saveRequested], if any.  [_baseline_snapshot] is
    written here and read nowhere; the editor does not carry it. *)
Definition save_if_dirty (e : Editor) : Editor * option PyDict :=
  if negb (_dirty e) then (e, None)
  else
    let defects := get_defects e in
    let snap := _make_snapshot e in
    let e := with_hist (with_undo_stack [snap] (with_redo_stack [] (hist e))) e in
    (with_dirty false e, Some defects).

End SaveDefs.

(* ================================================================== *)
(** * The numbers of the marks *)
(* ================================================================== *)

Section NumberDefs.
Context {TK : Toolkit}.

(** The number [_calc_next_defect_index] reads off a display id: an
    [int] itself, and for text the [int] after its last dash. *)
Definition id_number (did : PyVal) : option Z :=
  match py_as_int did with
  | Some n => Some n
  | None =>
      match did with
      | VStr s => py_int (last_dash_field s)
      | _ => None
      end
  end.

(** The numbers in use in a scene. *)
Definition number_in_use (sc : list SceneObject) (n : Z) : Prop :=
  exists x m did, In x sc /\ item x = IMark m /\ display_id m = Some did /\
                  id_number did = Some n.

(** Every number in use is below the next one to hand out. *)
Definition numbers_below_next (e : Editor) : Prop :=
  forall n, number_in_use (scene e) n -> (n < _next_defect_index e)%Z.

(** One round of the loop of [_calc_next_defect_index], on the running
    maximum. *)
Definition calc_step (max_n : Z) (o : SceneObject) : Z :=
  match item o with
  | IMark m =>
      match display_id m with
      | Some did => match id_number did with Some n => Z.max max_n n | None => max_n end
      | None => max_n
      end
  | _ => max_n
  end.

End NumberDefs.

(* ================================================================== *)
(** * The ray of a leader line *)
(* ================================================================== *)

Section RayDefs.
Context {TK : Toolkit}.

(** The direction [ray_intersection_point] looks along before it is
    normalized: toward the given point, or toward the center of the mark
    when that point is nearer than 2 (Manhattan) to the start. *)
Definition ray_direction (m : Mark) (start_scene toward_scene : QPointF) : QPointF :=
  let direction := psub toward_scene start_scene in
  if Qltb (manhattanLength direction) 2
  then psub (mapToScene (placement m) (rect_center (boundingRect m))) start_scene
  else direction.

(** The ray of length 10000 that [ray_intersection_point] casts. *)
Definition cast_ray (m : Mark) (start_scene toward_scene : QPointF) : QLineF :=
  let direction := ray_direction m start_scene toward_scene in
  let length := hypot (px direction) (py direction) in
  mkLine start_scene (padd start_scene (pmul (pdiv direction length) 10000)).

(** The candidates [ray_intersection_point] collects: the bounded
    intersections of the ray with the outline that are farther than 1e-6
    from the start. *)
Definition ray_candidates (m : Mark) (start_scene : QPointF) (ray : QLineF)
  : list QPointF :=
  flat_map (fun edge =>
              match bounded_intersection ray edge with
              | Some ip =>
                  if Qltb (1 # 1000000) (QLineF_length (mkLine start_scene ip))
                  then [ip] else []
              | None => []
              end)
           (_outline_segments_scene m).

End RayDefs.

(* ================================================================== *)
(** * The anchor handle under the pointer *)
(* ================================================================== *)

Section HoverDefs.
Context {TK : Toolkit}.

(** The anchor of an item that has a leader line: the items
    [_on_hover_move] looks at. *)
Definition hover_anchor (it : Item) : option QPointF :=
  match it with
  | IMark m =>
      match _attached_line m, _line_anchor_scene_pos m with
      | Some _, Some anchor => Some anchor
      | _, _ => None
      end
  | _ => None
  end.

(** One round of the loop of [_on_hover_move]: [best] holds
    [best_item], [best_dist] and [best_anchor]. *)
Definition hover_step (scene_pos : QPointF) (radius_scene : Q)
           (best : option nat * Q * QPointF) (x : SceneObject)
  : option nat * Q * QPointF :=
  match hover_anchor (item x) with
  | Some anchor =>
      let d := QLineF_length (mkLine scene_pos anchor) in
      if Qltb d radius_scene && Qltb d (snd (fst best))
      then (Some (oid x), d, anchor)
      else best
  | None => best
  end.

(** [_on_hover_move(event)] *)
Definition _on_hover_move (ev : MouseEvent) (e : Editor) : Editor :=
  match _drag_mode (drag e) with
  | NONE =>
      let best := fold_left (hover_step (scene_pos ev) (handle_radius_scene e))
                            (scene e)
                            (None, 1000000000000000000%Q, mkPoint 0 0) in
      match fst (fst best) with
      | Some t => with_handle (mkHandle true (snd best) (Some t)) e
      | None => with_handle (mkHandle false (_anchor_handle_pos (handle e)) None) e
      end
  | _ => e
  end.

(** What the loop has found after the items [sc]. *)
Definition hover_found (p : QPointF) (radius : Q) (sc : list SceneObject)
           (best : option nat * Q * QPointF) : Prop :=
  (snd (fst best) <= 1000000000000000000)%Q /\
  match fst (fst best) with
  | Some t =>
      exists x, In x sc /\ oid x = t /\ hover_anchor (item x) = Some (snd best) /\
                snd (fst best) = QLineF_length (mkLine p (snd best)) /\
                (snd (fst best) < radius)%Q
  | None => snd (fst best) = 1000000000000000000%Q
  end /\
  (forall y a, In y sc -> hover_anchor (item y) = Some a ->
               (QLineF_length (mkLine p a) < radius)%Q ->
               (snd (fst best) <= QLineF_length (mkLine p a))%Q).

End HoverDefs.


(* ================================================================== *)
(** * Concrete inputs *)
(* ================================================================== *)

(** A circle of radius 18 centered at (110, 0), its leader line anchored
    at (10, 0) and confirmed. *)
Definition circle_with_line : Mark :=
  set_line (Some (mkLine (mkPoint 10 0) (mkPoint 92 0)))
    (set_anchor (Some (mkPoint 10 0)) (new_mark (CircleMark 18) (mkPoint 110 0))).


Section ConcreteInputs.
#[local] Existing Instance Reference.toolkit.

(** A left-button event at [p] over the items [hits]. *)
Definition left_at (p : QPointF) (hits : list GItem) : MouseEvent :=
  mkEvent LeftButton p hits false true p.

Definition or_else {A : Type} (r : Result A) (d : A) : A :=
  match r with Ok a => a | Raise _ => d end.

(** The dialog opened on a drawing with no defects saved yet. *)
Definition editor_opened : Editor :=
  or_else (FaultEditorDialog_init 10 "plan.png" VNone) (FaultEditorWidget_init 10).

(** A square placed by a double click at (50, 50). *)
Definition editor_with_square : Editor :=
  fst (_on_mouse_double_click (left_at (mkPoint 50 50) [])
         (_on_shape_selected "rect" editor_opened)).

(** A circle placed by a double click at (100, 100). *)
Definition editor_with_circle : Editor :=
  fst (_on_mouse_double_click (left_at (mkPoint 100 100) [])
         (_on_shape_selected "circle" editor_opened)).

(** ... and what undoing that leaves to restore. *)
Definition editor_with_circle_undone : Editor :=
  or_else (_restore_snapshot (last (_undo_stack (hist (undo_pop editor_with_circle))) VNone)
             (undo_pop editor_with_circle))
          editor_opened.

(** A memo line begun by a press on empty canvas at (20, 20): the edit
    session is open and the stroke is in the scene. *)
Definition editor_memo_pressed : Editor :=
  fst (_on_mouse_press (left_at (mkPoint 20 20) []) editor_opened).


(** Two circles placed by double clicks, one after the other. *)
Definition two_circles_actions : list UserAction :=
  [PickTool "circle";
   DoubleClick (left_at (mkPoint 100 100) []);
   DoubleClick (left_at (mkPoint 300 300) [])].

Definition editor_two_circles : Editor :=
  or_else (run two_circles_actions editor_opened) editor_opened.

(** A circle placed at (100, 100), a memo line then drawn across it from
    (50, 100) to (150, 100), and the square tool picked.  The memo line
    was added to the scene after the circle, so it lies above it. *)
Definition covered_circle_actions : list UserAction :=
  [PickTool "circle";
   DoubleClick (left_at (mkPoint 100 100) []);
   PickTool "memo_line";
   Press (left_at (mkPoint 50 100) []);
   Move (left_at (mkPoint 150 100) []);
   Release (left_at (mkPoint 150 100) []);
   PickTool "rect"].

Definition editor_covered_circle : Editor :=
  or_else (run covered_circle_actions editor_opened) editor_opened.

(** A double click at the circle's center: [scene.items] lists the memo
    line (object 1) above the circle (object 0). *)
Definition click_on_covered_circle : MouseEvent :=
  left_at (mkPoint 100 100) [GI (HMemo 1) None; GI (HMark 0) None].

(** A double click at the center of the circle of [editor_with_circle],
    on the circle's number, a child item of the circle. *)
Definition click_on_circle_number : MouseEvent :=
  left_at (mkPoint 100 100) [GI HOther (Some (GI (HMark 0) None)); GI (HMark 0) None].

(** The dialog reopened on an inspection that was saved with no marks:
    [defects] is the saved [{"items": []}]. *)
Definition editor_reopened : Editor :=
  or_else (FaultEditorDialog_init 10 "plan.png" (VDict [("items", VList [])]))
          (FaultEditorWidget_init 10).

(** A memo line begun by a press at (20, 20) in the reopened dialog. *)
Definition editor_reopened_memo_pressed : Editor :=
  fst (_on_mouse_press (left_at (mkPoint 20 20) []) editor_reopened).

(** A free stroke begun by a press at (20, 20) and moved to (22, 23). *)
Definition editor_free_pressed : Editor :=
  or_else (run [PickTool "memo_free";
                Press (left_at (mkPoint 20 20) []);
                Move (left_at (mkPoint 22 23) [])] editor_opened)
          editor_opened.

(** A circle being created by a drag: the press at (200, 200) is held
    until the timer fires, and the pointer has moved to (205, 200). *)
Definition editor_circle_dragged : Editor :=
  or_else (run [PickTool "circle";
                Press (left_at (mkPoint 200 200) []);
                HoldTimer;
                Move (left_at (mkPoint 205 200) [])] editor_opened)
          editor_opened.

(** A project file of mixed age: its first part is of the oldest format,
    with the drawing and the defects on the part itself; its second part
    has a sub-part that still carries its defects directly. *)
Definition saved_defects : PyDict :=
  [("items", VList [VDict [("type", VStr "SquareMark"); ("x", VFloat 3); ("y", VFloat 4)]])].

Definition oldest_part : PyDict :=
  [("id", VStr "part_1"); ("name", VStr "1F"); ("image_path", VStr "1f.png");
   ("defects", VDict saved_defects)].

Definition old_subpart : PyDict :=
  [("id", VStr "subpart_1"); ("name", VStr "A"); ("image_path", VStr "2f_a.png");
   ("defects", VDict saved_defects)].

Definition part_with_old_subpart : PyDict :=
  [("id", VStr "part_2"); ("name", VStr "2F"); ("subparts", VList [VDict old_subpart])].

Definition old_project : PyDict :=
  [("id", VStr "proj_1");
   ("building", VDict [("name", VStr "Tower")]);
   ("parts", VList [VDict oldest_part; VDict part_with_old_subpart])].

End ConcreteInputs.
(* ================================================================== *)
(** * More concrete inputs *)
(* ================================================================== *)

(** The inspections of a sub-part as older files have them: one with no
    record at all, one that holds the defects directly, one that holds
    them as a list of pairs. *)
Definition mixed_inspections : PyDict :=
  [("2024-01", VNone);
   ("2024-06", VDict [("items", VList [])]);
   ("2024-09", VList [VList [VStr "items"; VList []]; VStr "ab"])].

Definition mixed_inspections_normalized : PyDict :=
  [("2024-01", VDict [("defects", VDict [])]);
   ("2024-06", VDict [("defects", VDict [("items", VList [])])]);
   ("2024-09", VDict [("defects", VDict [("items", VList []); ("a", VStr "b")])])].

(** A record of a circle with one of its fields filled in. *)
Definition beam_defect : PyDict := [("member", VStr "beam")].

Section MoreConcreteInputs.
#[local] Existing Instance Reference.toolkit.

(** One inspection with the defects of [saved_defects]. *)
Definition saved_inspections : PyDict :=
  [("2024-01", VDict [("defects", VDict saved_defects)])].

Definition surveyed_project : Models.Project :=
  Models.mkProject (VStr "proj_1")
    (Models.mkBuildingInfo (VStr "Tower") (VStr "1 Main St") (VStr "") (VStr "")
                           [VStr "front.jpg"])
    [Models.mkPart (VStr "part_1") (VStr "1F")
       [Models.mkSubPart (VStr "subpart_1") (VStr "A") (VStr "1f_a.png")
                         saved_inspections]].

(** What the inspection dialog returns for a new inspection without an
    end date. *)
Definition spring_inspection : PartManager.InspectionData :=
  PartManager.mkInspectionData "2024 spring" "2024-03-01" None.

(** The scene of two circles with the older one selected. *)
Definition editor_two_circles_selected : Editor :=
  select_objects [0%nat] editor_two_circles.

(** The editor with a circle, its image file no longer readable. *)
Definition editor_image_gone : Editor :=
  with_bg_path (Some "") editor_with_circle.

(** The release of the drag of [editor_circle_dragged], 100 to the right
    of the press. *)
Definition far_release : MouseEvent := left_at (mkPoint 300 200) [].

Definition editor_circle_created : Editor :=
  or_else (_on_mouse_release far_release editor_circle_dragged) editor_opened.

(** The pointer 3 to the right of the anchor of that circle. *)
Definition near_anchor : MouseEvent := left_at (mkPoint 203 200) [].

End MoreConcreteInputs.

(* ================================================================== *)
(** * Properties *)
(* ================================================================== *)

(** Split a successful [bind]: its first computation returned. *)
Ltac bind_ok E :=
  match type of E with
  | bind ?c _ = Ok _ =>
      let a := fresh "a" in
      let x := fresh "x" in
      let H := fresh "H" in
      destruct c as [a|x] eqn:H; cbn [bind] in E; [|discriminate E]
  end.

(** ** Order on the rationals behind the boolean tests *)

Lemma Qltb_lt (x y : Q) : Qltb x y = true <-> (x < y)%Q.
Proof.
  unfold Qltb. rewrite negb_true_iff. split; intro H.
  - apply Qnot_le_lt. intro L. apply Qle_bool_iff in L. congruence.
  - destruct (Qle_bool y x) eqn:E; [|reflexivity].
    apply Qle_bool_iff in E. apply Qle_not_lt in E. contradiction.
Qed.

Lemma Qltb_ge (x y : Q) : Qltb x y = false <-> (y <= x)%Q.
Proof.
  unfold Qltb. rewrite negb_false_iff. apply Qle_bool_iff.
Qed.

(** ** The scale clamp *)

Lemma CircleMark_itemChange_scale_range (v : Q) :
  (MIN_SCALE <= CircleMark_itemChange_scale v <= MAX_SCALE)%Q.
Proof.
  unfold CircleMark_itemChange_scale, MIN_SCALE, MAX_SCALE.
  destruct (Qltb v (6 # 10)) eqn:E1.
  - split; [apply Qle_refl | discriminate].
  - destruct (Qltb (25 # 10) v) eqn:E2.
    + split; [discriminate | apply Qle_refl].
    + apply Qltb_ge in E1. apply Qltb_ge in E2. split; assumption.
Qed.

Lemma CircleMark_itemChange_scale_saturate (v : Q) :
  (CircleMark_itemChange_scale v == saturate v)%Q.
Proof.
  unfold CircleMark_itemChange_scale, saturate, Qmax, Qmin, MIN_SCALE, MAX_SCALE.
  destruct (Qltb v (6 # 10)) eqn:E1.
  - apply Qltb_lt in E1.
    assert (E3 : Qltb v (25 # 10) = true) by (apply Qltb_lt; lra).
    rewrite E3.
    assert (E4 : Qltb (6 # 10) v = false) by (apply Qltb_ge; lra).
    rewrite E4. reflexivity.
  - apply Qltb_ge in E1.
    destruct (Qltb (25 # 10) v) eqn:E2.
    + apply Qltb_lt in E2.
      assert (E3 : Qltb v (25 # 10) = false) by (apply Qltb_ge; lra).
      rewrite E3. reflexivity.
    + apply Qltb_ge in E2.
      destruct (Qltb v (25 # 10)) eqn:E3.
      * destruct (Qltb (6 # 10) v) eqn:E4; [reflexivity|].
        apply Qltb_ge in E4. lra.
      * apply Qltb_ge in E3. simpl. lra.
Qed.

Lemma wheel_scale_item_circle (f : Q) (m : Mark) (r : Q) :
  shape m = CircleMark r ->
  shape (wheel_scale_item f m) = CircleMark r /\
  scale (wheel_scale_item f m) = CircleMark_itemChange_scale (scale m * f).
Proof.
  intro H. unfold wheel_scale_item, setScale. rewrite H. simpl. auto.
Qed.

Lemma wheel_fold_circle (fs : list Q) : forall (m : Mark) (r : Q),
  shape m = CircleMark r ->
  (MIN_SCALE <= scale m <= MAX_SCALE)%Q ->
  let m' := fold_left (fun m f => wheel_scale_item f m) fs m in
  shape m' = CircleMark r /\ (MIN_SCALE <= scale m' <= MAX_SCALE)%Q.
Proof.
  induction fs as [|f fs IH]; intros m r Hs Hr; simpl.
  - auto.
  - destruct (wheel_scale_item_circle f m r Hs) as [Hs' Hv].
    apply IH; [assumption|]. rewrite Hv. apply CircleMark_itemChange_scale_range.
Qed.

(** C7.  A [CircleMark] starts at scale 1; after any number of scale-change
    attempts, each multiplying the current scale by some factor, its scale
    lies in [[0.6, 2.5]], and every further attempt applies exactly the
    requested scale saturated into that interval. *)
Theorem circle_scale_is_clamped :
  forall (center : QPointF) (r : Q) (factors : list Q) (f : Q),
    let m := fold_left (fun m f => wheel_scale_item f m) factors
                       (new_mark (CircleMark r) center) in
    (MIN_SCALE <= scale m <= MAX_SCALE)%Q /\
    (scale (wheel_scale_item f m) == saturate (scale m * f))%Q /\
    (MIN_SCALE <= scale (wheel_scale_item f m) <= MAX_SCALE)%Q.
Proof.
  intros center r factors f m.
  assert (H0 : (MIN_SCALE <= scale (new_mark (CircleMark r) center) <= MAX_SCALE)%Q).
  { simpl. unfold MIN_SCALE, MAX_SCALE. split; discriminate. }
  destruct (wheel_fold_circle factors (new_mark (CircleMark r) center) r eq_refl H0)
    as [Hs Hr].
  fold m in Hs, Hr.
  destruct (wheel_scale_item_circle f m r Hs) as [_ Hv].
  split; [exact Hr|]. rewrite Hv. split.
  - apply CircleMark_itemChange_scale_saturate.
  - apply CircleMark_itemChange_scale_range.
Qed.

(** ** The leader line *)

Section LeaderLineProofs.
Context {TK : Toolkit}.

Lemma line_end_set_line (l : option QLineF) (m : Mark) (a : QPointF) :
  line_end (set_line l m) a = line_end m a.
Proof. reflexivity. Qed.











End LeaderLineProofs.



(** The same after a move that Qt makes alone: dragged to (120, 0) in
    AREA_SELECT mode, the circle keeps a line that ends at (92, 0), while
    the ray from the anchor now meets the outline at (102, 0); the next
    MOVE drag step puts the end back on the outline. *)
Lemma leader_line_after_qt_move :
  exists m' l' m'' l'',
    @apply_ops Reference.toolkit [OpQtMove (mkPoint 120 0)] circle_with_line = Ok m' /\
    _attached_line m' = Some l' /\
    QPointF_eqb (p2 l') (mkPoint 92 0) = true /\
    QPointF_eqb (@line_end Reference.toolkit m' (mkPoint 10 0)) (mkPoint 102 0) = true /\
    @apply_ops Reference.toolkit [OpMove (mkPoint 120 0)] m' = Ok m'' /\
    _attached_line m'' = Some l'' /\
    QPointF_eqb (p2 l'') (mkPoint 102 0) = true.
Proof.
  eexists. eexists. eexists. eexists.
  split; [reflexivity|]. split; [reflexivity|].
  split; [vm_compute; reflexivity|]. split; [vm_compute; reflexivity|].
  split; [vm_compute; reflexivity|]. split; [reflexivity|].
  vm_compute. reflexivity.
Qed.

(** ** Edit sessions, undo and redo *)

Section HistoryProofs.
Context {TK : Toolkit}.

Lemma for_each_invariant {A S : Type} (P : S -> Prop) (f : A -> S -> Result S) :
  (forall a s s', f a s = Ok s' -> P s -> P s') ->
  forall (l : list A) (s s' : S), for_each f l s = Ok s' -> P s -> P s'.
Proof.
  intros Hf l. induction l as [|a l IH]; intros s s' E Hs; simpl in E.
  - inversion E; subst; assumption.
  - destruct (f a s) as [s1|x] eqn:E1; simpl in E; [|discriminate].
    apply (IH s1 s' E). apply (Hf a s s1 E1 Hs).
Qed.

Lemma _restore_item_keeps (info : PyVal) (e e' : Editor) :
  _restore_item info e = Ok e' ->
  hist e' = hist e /\ dirtyChanged e' = dirtyChanged e /\ _dirty e' = _dirty e
  /\ bg_path e' = bg_path e.
Proof.
  unfold _restore_item. intro E.
  bind_ok E. bind_ok E.
  destruct a0 as [c|]; [|inversion E; subst; auto].
  destruct info; try (inversion E; subst; auto; fail).
  bind_ok E. inversion E; subst. auto.
Qed.

Lemma restore_memo_keeps (m : PyVal) (e e' : Editor) :
  restore_memo m e = Ok e' ->
  hist e' = hist e /\ dirtyChanged e' = dirtyChanged e /\ _dirty e' = _dirty e
  /\ bg_path e' = bg_path e.
Proof.
  unfold restore_memo. intro E.
  destruct m; try discriminate.
  destruct (py_eq (dict_get_default d "type" VNone) (VStr "memo_line")).
  - bind_ok E. bind_ok E. inversion E; subst; auto.
  - destruct (py_eq (dict_get_default d "type" VNone) (VStr "memo_free")).
    + destruct (truthy (py_or (dict_get_default d "pts" VNone) (VList [])));
        [|inversion E; subst; auto].
      destruct (py_or (dict_get_default d "pts" VNone) (VList [])); try discriminate.
      destruct l as [|first rest]; [discriminate|].
      bind_ok E. bind_ok E. inversion E; subst; auto.
    + inversion E; subst; auto.
Qed.

Lemma open_png_from_path_keeps (path : PyVal) (e : Editor) :
  hist (open_png_from_path path e) = hist e /\
  dirtyChanged (open_png_from_path path e) = dirtyChanged e /\
  _dirty (open_png_from_path path e) = _dirty e.
Proof.
  unfold open_png_from_path. destruct path; auto.
  destruct (pixmap_isNull s); auto.
Qed.

Lemma _restore_snapshot_keeps (snapshot : PyVal) (e e' : Editor) :
  _restore_snapshot snapshot e = Ok e' ->
  hist e' = hist e /\ dirtyChanged e' = dirtyChanged e /\ _dirty e' = _dirty e.
Proof.
  unfold _restore_snapshot. intro E.
  destruct snapshot; try discriminate.
  destruct (bg_path e) as [bp|]; [|discriminate].
  bind_ok E. bind_ok E. bind_ok E. bind_ok E.
  inversion E; subst. simpl.
  pose proof (open_png_from_path_keeps (dict_get_default d "image" (VStr bp)) e)
    as (H3 & H4 & H5).
  assert (K1 : hist a0 = hist e /\ dirtyChanged a0 = dirtyChanged e /\ _dirty a0 = _dirty e).
  { apply (for_each_invariant
             (fun s => hist s = hist e /\ dirtyChanged s = dirtyChanged e /\ _dirty s = _dirty e)
             _restore_item) with (2 := H0); [|auto].
    intros i s s' Ea (Ka & Kb & Kc).
    destruct (_restore_item_keeps i s s' Ea) as (La & Lb & Lc & _).
    repeat split; congruence. }
  apply (for_each_invariant
           (fun s => hist s = hist e /\ dirtyChanged s = dirtyChanged e /\ _dirty s = _dirty e)
           restore_memo) with (2 := H2); [|exact K1].
  intros i s s' Ea (Ka & Kb & Kc).
  destruct (restore_memo_keeps i s s' Ea) as (La & Lb & Lc & _).
  repeat split; congruence.
Qed.

(** C4.  When a session is open and no replay is in progress,
    [_end_edit] pushes the snapshot it captures exactly when that snapshot
    differs from the top of the undo stack (an empty stack has no top to
    agree with), and a push empties the redo stack; when the snapshot
    equals the top, both stacks stay as they are.  When no session is open
    or a replay is in progress, [_end_edit] changes nothing at all. *)
Theorem end_edit_pushes_iff_snapshot_differs :
  forall e : Editor,
    let snapshot := _make_snapshot e in
    let st := _undo_stack (hist e) in
    (_undo_block (hist e) = false -> _editing (hist e) = Some true ->
     ((forall top, stack_top st = Some top -> py_eq top snapshot = false) ->
      _undo_stack (hist (_end_edit e)) = st ++ [snapshot] /\
      _redo_stack (hist (_end_edit e)) = []) /\
     (forall top, stack_top st = Some top -> py_eq top snapshot = true ->
      _undo_stack (hist (_end_edit e)) = st /\
      _redo_stack (hist (_end_edit e)) = _redo_stack (hist e))) /\
    (_undo_block (hist e) = true \/ _editing (hist e) <> Some true ->
     _end_edit e = e).
Proof.
  intros e snapshot st. split.
  - intros Hb He. unfold _end_edit. rewrite Hb, He. fold snapshot. fold st.
    unfold differs_from_top. split.
    + intro Hd. destruct (stack_top st) as [top|] eqn:Et.
      * rewrite (Hd top eq_refl). simpl. auto.
      * simpl. auto.
    + intros top Et Heq. rewrite Et, Heq. simpl. auto.
  - intros [Hb | He]; unfold _end_edit.
    + rewrite Hb. reflexivity.
    + destruct (_undo_block (hist e)); [reflexivity|].
      destruct (_editing (hist e)) as [[|]|]; try reflexivity. congruence.
Qed.

(** C10.  An [undo()] that restores (at least two entries on the undo
    stack) and a [redo()] that restores (a non-empty redo stack) end by
    calling [mark_dirty]: the signal is emitted once more and the dialog
    is flagged dirty, whatever the restored snapshot is. *)
Theorem undo_redo_always_mark_dirty :
  forall e e1 : Editor,
    ((2 <= length (_undo_stack (hist e)))%nat ->
     _restore_snapshot (last (_undo_stack (hist (undo_pop e))) VNone) (undo_pop e) = Ok e1 ->
     exists e', undo e = Ok e' /\ _dirty e' = true /\
                dirtyChanged e' = S (dirtyChanged e) /\ scene e' = scene e1) /\
    (_redo_stack (hist e) <> [] ->
     _restore_snapshot (last (_redo_stack (hist e)) VNone) (redo_pop e) = Ok e1 ->
     exists e', redo e = Ok e' /\ _dirty e' = true /\
                dirtyChanged e' = S (dirtyChanged e) /\ scene e' = scene e1).
Proof.
  intros e e1. split.
  - intros Hlen E. unfold undo.
    destruct (Nat.ltb_spec (length (_undo_stack (hist e))) 2) as [L|L]; [lia|].
    cbv beta iota zeta. rewrite E. cbn [bind]. eexists. split; [reflexivity|].
    destruct (_restore_snapshot_keeps _ _ _ E) as (_ & Hd & _).
    simpl. rewrite Hd. simpl. auto.
  - intros Hne. unfold redo.
    destruct (_redo_stack (hist e)) as [|s r] eqn:Er; [congruence|].
    intro E. cbv beta iota zeta. rewrite E. cbn [bind].
    eexists. split; [reflexivity|].
    destruct (_restore_snapshot_keeps _ _ _ E) as (_ & Hd & _).
    simpl. rewrite Hd. simpl. auto.
Qed.

End HistoryProofs.

(** ** Snapshots *)

Lemma dict_get_set_eq (d : PyDict) (k : string) (v : PyVal) :
  dict_get (dict_set d k v) k = Some v.
Proof.
  induction d as [|[k' v'] d IH]; simpl.
  - rewrite String.eqb_refl. reflexivity.
  - destruct (String.eqb k' k) eqn:E; simpl.
    + rewrite String.eqb_refl. reflexivity.
    + rewrite E. exact IH.
Qed.

Lemma dict_get_set_ne (d : PyDict) (k k' : string) (v : PyVal) :
  String.eqb k k' = false ->
  dict_get (dict_set d k v) k' = dict_get d k'.
Proof.
  intro N. induction d as [|[k0 v0] d IH]; simpl.
  - rewrite N. reflexivity.
  - destruct (String.eqb k0 k) eqn:E; simpl.
    + apply String.eqb_eq in E. subst k0. rewrite N. reflexivity.
    + destruct (String.eqb k0 k'); [reflexivity | exact IH].
Qed.

Ltac dict_simpl :=
  repeat (rewrite dict_get_set_eq || (rewrite dict_get_set_ne by reflexivity)).


Section SnapshotProofs.
Context {TK : Toolkit}.

Lemma to_dict_base_key (m : Mark) (k : string) :
  base_key k = true ->
  dict_get (to_dict m) k = dict_get (SerializableMixin_to_dict m) k.
Proof.
  unfold base_key. simpl. intro H.
  apply negb_true_iff in H.
  repeat (apply orb_false_iff in H; destruct H as [? H]).
  assert (R : forall a, String.eqb k a = false -> String.eqb a k = false).
  { intros a Ha. rewrite String.eqb_sym. exact Ha. }
  unfold to_dict. destruct (shape m);
    repeat (rewrite dict_get_set_ne by (apply R; assumption)); reflexivity.
Qed.

Lemma base_lookups (m : Mark) :
  dict_get (SerializableMixin_to_dict m) "type" = Some (VStr (class_name (shape m))) /\
  dict_get (SerializableMixin_to_dict m) "x" = Some (VFloat (px (pos m))) /\
  dict_get (SerializableMixin_to_dict m) "y" = Some (VFloat (py (pos m))) /\
  dict_get (SerializableMixin_to_dict m) "scale" = Some (VFloat (scale m)) /\
  dict_get (SerializableMixin_to_dict m) "rotation" = Some (VFloat (rotation m)) /\
  dict_get (SerializableMixin_to_dict m) "line" = option_map line_record (_attached_line m) /\
  dict_get (SerializableMixin_to_dict m) "internal_id" = internal_id m /\
  dict_get (SerializableMixin_to_dict m) "display_id" = display_id m /\
  dict_get (SerializableMixin_to_dict m) "defect_info" = defect_info m.
Proof.
  unfold SerializableMixin_to_dict.
  destruct (_attached_line m), (internal_id m), (display_id m), (defect_info m);
    repeat split; dict_simpl; reflexivity.
Qed.

Lemma dgd (m : Mark) (k : string) (d : PyVal) :
  base_key k = true ->
  dict_get_default (to_dict m) k d =
  match dict_get (SerializableMixin_to_dict m) k with Some v => v | None => d end.
Proof. intro H. unfold dict_get_default. rewrite to_dict_base_key by exact H. reflexivity. Qed.

Lemma point_eta (p : QPointF) : mkPoint (px p) (py p) = p.
Proof. destruct p; reflexivity. Qed.

Lemma from_dict_to_dict (m : Mark) :
  from_dict (class_of (shape m)) (to_dict m) = Ok (new_mark (roundtrip_shape m) (pos m)).
Proof.
  destruct (base_lookups m) as (_ & Hx & Hy & _).
  unfold from_dict.
  rewrite (dgd m "x") by reflexivity. rewrite (dgd m "y") by reflexivity.
  rewrite Hx, Hy. cbn [as_number py_float py_halved rect_radius num_within py_num bind]. rewrite point_eta.
  unfold roundtrip_shape, to_dict, dict_get_default.
  destruct (shape m); cbn [class_of]; dict_simpl; cbn [as_number py_float py_halved rect_radius num_within py_num bind]; reflexivity.
Qed.

Lemma clamp_in_range (v : Q) :
  Qle_bool MIN_SCALE v = true -> Qle_bool v MAX_SCALE = true ->
  CircleMark_itemChange_scale v = v.
Proof.
  intros H1 H2. unfold CircleMark_itemChange_scale, Qltb. rewrite H1, H2. reflexivity.
Qed.

Lemma setScale_new_mark (m : Mark) :
  (is_circle (shape m) = true ->
   Qle_bool MIN_SCALE (scale m) = true /\ Qle_bool (scale m) MAX_SCALE = true) ->
  setScale (scale m) (new_mark (roundtrip_shape m) (pos m))
  = set_scale_raw (scale m) (new_mark (roundtrip_shape m) (pos m)).
Proof.
  intro H. unfold setScale, roundtrip_shape.
  destruct (shape m); cbn [shape new_mark]; try reflexivity.
  destruct (H eq_refl) as [H1 H2]. rewrite clamp_in_range by assumption. reflexivity.
Qed.

Lemma is_circle_roundtrip (m : Mark) : is_circle (roundtrip_shape m) = is_circle (shape m).
Proof. unfold roundtrip_shape. destruct (shape m); reflexivity. Qed.

Lemma line_record_points (l : QLineF) :
  (v <- py_getitem (line_record l) "p1" ;; point_of_args v) = Ok (p1 l) /\
  (v <- py_getitem (line_record l) "p2" ;; point_of_args v) = Ok (p2 l).
Proof.
  unfold line_record, point_list. cbn. rewrite !point_eta. auto.
Qed.

Ltac mark_simpl :=
  cbn [shape pos scale rotation isVisible isSelected _attached_line
       _line_anchor_scene_pos internal_id display_id defect_info _defect_label
       new_mark set_pos set_scale_raw set_rotation set_visible set_selected
       set_line set_anchor set_internal_id set_display_id set_defect_info
       set_label set_circle_id bind andb orb negb option_map].

Lemma restore_mark_to_dict (m : Mark) :
  mark_ok m = true ->
  exists m', restore_mark (class_of (shape m)) (to_dict m) = Ok m' /\ restored_from m m'.
Proof.
  intro OK.
  destruct (base_lookups m) as (_ & _ & _ & Hs & Hr & Hl & Hi & Hd & Hf).
  unfold restore_mark. rewrite from_dict_to_dict. cbn [bind].
  rewrite (dgd m "scale"), (dgd m "rotation"), (dgd m "internal_id"),
    (dgd m "display_id"), (dgd m "defect_info"), (dgd m "line") by reflexivity.
  rewrite Hs, Hr, Hl, Hi, Hd, Hf. cbn [as_number py_float py_halved rect_radius num_within py_num bind].
  clear Hs Hr Hl Hi Hd Hf.
  fold (attr_or (internal_id m) VNone) (attr_or (display_id m) VNone)
       (attr_or (defect_info m) (VDict [])).
  unfold mark_ok in OK.
  unfold restored_from, restored_defect_info.
  remember (attr_or (internal_id m) VNone) as iid eqn:Eiid.
  remember (attr_or (display_id m) VNone) as did eqn:Edid.
  remember (attr_or (defect_info m) (VDict [])) as dinfo eqn:Edinfo.
  clear Eiid Edid Edinfo.
  rewrite setScale_new_mark.
  2:{ intro C. rewrite C in OK. apply andb_true_iff in OK. destruct OK as [OK _].
      apply andb_true_iff in OK. exact OK. }
  pose proof (is_circle_roundtrip m) as Hcirc.
  remember (roundtrip_shape m) as s' eqn:Es'. clear Es'.
  mark_simpl. rewrite Hcirc.
  destruct (is_circle (shape m)) eqn:Circ.
  - apply andb_true_iff in OK. destruct OK as [_ Hmem].
    destruct (py_or dinfo (VDict [])) as [| | | | | |di] eqn:Epo; try discriminate.
    mark_simpl. rewrite Hcirc. mark_simpl.
    assert (Hlab : exists lab,
      (if truthy did
       then enable_defect_label (dict_get_default (restore_defaults di) "member" (VStr ""))
              (mkMark s' (pos m) (scale m) (rotation m) true false None None
                 (Some iid) (Some did) (Some (VDict (restore_defaults di))) None)
       else Ok (mkMark s' (pos m) (scale m) (rotation m) true false None None
                 (Some iid) (Some did) (Some (VDict (restore_defaults di))) None))
      = Ok (mkMark s' (pos m) (scale m) (rotation m) true false None None
                 (Some iid) (Some did) (Some (VDict (restore_defaults di))) lab)).
    { destruct (truthy did); [|eexists; reflexivity].
      cbn [negb orb] in Hmem.
      destruct (dict_get_default (restore_defaults di) "member" (VStr ""));
        try discriminate.
      eexists. reflexivity. }
    destruct Hlab as [lab Hlab]. 
    match goal with |- exists m', bind ?c _ = _ /\ _ =>
      replace c with (Ok (mkMark s' (pos m) (scale m) (rotation m) true false None None
                 (Some iid) (Some did) (Some (VDict (restore_defaults di))) lab))
    end.
    2:{ rewrite <- Hlab. destruct (truthy did); reflexivity. }
    mark_simpl.
    destruct (_attached_line m) as [l|]; mark_simpl.
    + destruct (line_record_points l) as [P1 P2].
      replace (truthy (line_record l)) with true by reflexivity.
      rewrite P1, P2. mark_simpl.
      unfold _update_attached_line_geometry. mark_simpl.
      rewrite Hcirc. eexists. split; [reflexivity|].
      cbn. repeat split; reflexivity.
    + cbn [truthy]. eexists. split; [reflexivity|]. cbn. repeat split; reflexivity.
  - mark_simpl. rewrite Hcirc. mark_simpl.
    apply andb_true_iff in OK. destruct OK as [Hdid Hline].
    destruct (_attached_line m) as [l|]; [discriminate|]. mark_simpl. cbn [truthy].
    destruct (truthy did).
    + cbn [negb orb] in Hdid. destruct did; try discriminate.
      cbn [enable_defect_label bind]. eexists. split; [reflexivity|].
      cbn. repeat split; reflexivity.
    + cbn [bind]. eexists. split; [reflexivity|]. cbn. repeat split; reflexivity.
Qed.

Lemma MARK_CLASSES_class_name (s : Shape) :
  MARK_CLASSES (class_name s) = Some (class_of s).
Proof. destruct s; reflexivity. Qed.

Lemma _restore_item_to_dict (m : Mark) (e : Editor) :
  mark_ok m = true ->
  exists m', _restore_item (VDict (to_dict m)) e = Ok (addItem (IMark m') e) /\
             restored_from m m'.
Proof.
  intro OK. destruct (restore_mark_to_dict m OK) as (m' & E & R).
  exists m'. split; [|exact R].
  unfold _restore_item, py_getitem.
  rewrite (to_dict_base_key m "type") by reflexivity.
  destruct (base_lookups m) as (Ht & _). rewrite Ht. cbn [bind MARK_CLASSES_get].
  rewrite MARK_CLASSES_class_name. rewrite E. reflexivity.
Qed.

Lemma marks_of_addItem_mark (m : Mark) (e : Editor) :
  marks_of (scene (addItem (IMark m) e)) = m :: marks_of (scene e).
Proof. reflexivity. Qed.

Lemma restore_items_to_dict (ms : list Mark) : forall e : Editor,
  forallb mark_ok ms = true ->
  exists e' ms',
    for_each _restore_item (map (fun m => VDict (to_dict m)) ms) e = Ok e' /\
    Forall2 restored_from ms ms' /\
    marks_of (scene e') = rev ms' ++ marks_of (scene e) /\
    memo_records (scene e') = memo_records (scene e) /\
    bg_path e' = bg_path e.
Proof.
  induction ms as [|m ms IH]; intros e OK; simpl in *.
  - exists e, []. repeat split; auto.
  - apply andb_true_iff in OK. destruct OK as [Om Oms].
    destruct (_restore_item_to_dict m e Om) as (m' & E & R).
    rewrite E. cbn [bind].
    destruct (IH (addItem (IMark m') e) Oms) as (e' & ms' & E' & F & Hm & Hmemo & Hbg).
    exists e', (m' :: ms'). split; [exact E'|]. split; [constructor; assumption|].
    split; [|split].
    + rewrite Hm. rewrite marks_of_addItem_mark. simpl. rewrite <- app_assoc. reflexivity.
    + rewrite Hmemo. reflexivity.
    + rewrite Hbg. reflexivity.
Qed.

Lemma map_result_points (pts : list QPointF) :
  map_result point_of_args (map point_list pts) = Ok pts.
Proof.
  induction pts as [|p pts IH]; simpl; [reflexivity|].
  rewrite IH. cbn. rewrite point_eta. reflexivity.
Qed.

Lemma restore_memos (sc : list SceneObject) : forall e : Editor,
  scene_ok sc = true ->
  exists e',
    for_each restore_memo (memo_records sc) e = Ok e' /\
    marks_of (scene e') = marks_of (scene e) /\
    memo_records (scene e') = rev (memo_records sc) ++ memo_records (scene e) /\
    bg_path e' = bg_path e.
Proof.
  induction sc as [|x sc IH]; intros e OK; simpl in *.
  - exists e. auto.
  - apply andb_true_iff in OK. destruct OK as [Ox Osc].
    destruct (item x) as [m|l sel|pts sel] eqn:Ex; simpl.
    + apply IH; assumption.
    + cbn. rewrite !point_eta.
      destruct (IH (addItem (IMemoLine (mkLine (p1 l) (p2 l)) false) e) Osc)
        as (e' & E' & Hm & Hmemo & Hbg).
      exists e'. split; [exact E'|]. split; [rewrite Hm; reflexivity|]. split.
      * rewrite Hmemo. simpl. rewrite <- app_assoc. reflexivity.
      * rewrite Hbg. reflexivity.
    + destruct pts as [|p0 pts]; [discriminate|].
      cbn. rewrite point_eta. rewrite map_result_points. cbn [bind].
      destruct (IH (addItem (IMemoFreePath (p0 :: pts) false) e) Osc)
        as (e' & E' & Hm & Hmemo & Hbg).
      exists e'. split; [exact E'|]. split; [rewrite Hm; reflexivity|]. split.
      * rewrite Hmemo. simpl. rewrite <- app_assoc. reflexivity.
      * rewrite Hbg. reflexivity.
Qed.

Lemma scene_ok_marks (sc : list SceneObject) :
  scene_ok sc = true -> forallb mark_ok (marks_of sc) = true.
Proof.
  induction sc as [|x sc IH]; simpl; intro H; [reflexivity|].
  apply andb_true_iff in H. destruct H as [Hx Hsc].
  destruct (item x); simpl in *; auto. rewrite Hx. auto.
Qed.

Lemma restore_defaults_complete (di : PyDict) :
  has_all_fields di = true -> restore_defaults di = di.
Proof.
  unfold has_all_fields, restore_defaults, dict_setdefault. simpl.
  destruct (dict_get di "member"); [|discriminate].
  destruct (dict_get di "location"); [|discriminate].
  destruct (dict_get di "defect_type"); [|discriminate].
  destruct (dict_get di "size"); [|discriminate].
  destruct (dict_get di "progress"); [|discriminate].
  destruct (dict_get di "remark"); [|discriminate].
  reflexivity.
Qed.

Lemma restored_defect_info_same (m : Mark) (v : PyVal) :
  defect_info m = Some v ->
  (is_circle (shape m) = true -> exists di, v = VDict di /\ has_all_fields di = true) ->
  restored_defect_info m = v.
Proof.
  intros Hv Hc. unfold restored_defect_info. rewrite Hv. cbn [attr_or].
  destruct (is_circle (shape m)); [|reflexivity].
  destruct (Hc eq_refl) as (di & -> & Hall).
  assert (T : truthy (VDict di) = true).
  { destruct di; [discriminate Hall | reflexivity]. }
  unfold py_or. rewrite T. rewrite restore_defaults_complete by exact Hall. reflexivity.
Qed.

Lemma restored_from_same (m m' : Mark) :
  restored_from m m' -> keeps_its_data m -> same_mark_data m m'.
Proof.
  intros (_ & Hp & Hs & Hr & Hi & _ & Hd & _) (Hid & v & Hv & Hc).
  unfold same_mark_data. repeat split; try assumption.
  - rewrite Hi. destruct (internal_id m); [reflexivity | congruence].
  - rewrite Hd. rewrite (restored_defect_info_same m v Hv Hc). congruence.
Qed.

(** C2, as the code has it.  When the background image loads again and
    the marks are as the editor builds them, restoring the snapshot of a
    scene succeeds and yields, for each mark, a mark of the same class at
    the same position, scale and rotation, with the same internal id
    ([None] when the mark had none) and with the recorded [defect_info]
    completed as [_restore_item] does ([{}] when the mark had none, the six
    default fields filled in for a circle); a mark that has an internal id
    and a (for a circle, complete) [defect_info] gets exactly the same
    data back.  The memo strokes come back with the same end points and
    point lists.  The stacking order is reversed. *)
Theorem snapshot_round_trip :
  forall (e : Editor) (bp : string),
    bg_path e = Some bp ->
    pixmap_isNull bp = false ->
    scene_ok (scene e) = true ->
    exists e' ms',
      _restore_snapshot (_make_snapshot e) e = Ok e' /\
      marks_of (scene e') = rev ms' /\
      Forall2 (fun m m' => restored_from m m' /\
                           (keeps_its_data m -> same_mark_data m m'))
              (marks_of (scene e)) ms' /\
      memo_records (scene e') = rev (memo_records (scene e)).
Proof.
  intros e bp Hbg Hpix OK.
  unfold _restore_snapshot, _make_snapshot, get_defects.
  rewrite Hbg.
  unfold dict_get_default. dict_simpl. cbn [dict_get String.eqb Ascii.eqb Bool.eqb].
  cbn [py_iter bind].
  unfold open_png_from_path. rewrite Hpix.
  set (e0 := with_bg_path (Some bp)
               (with_handle (mkHandle false (_anchor_handle_pos (handle e)) None)
                  (with_scene [] e))).
  destruct (restore_items_to_dict (marks_of (scene e)) e0 (scene_ok_marks _ OK))
    as (e1 & ms' & E1 & F & Hm1 & Hmemo1 & _).
  rewrite E1. cbn [bind].
  destruct (restore_memos (scene e) e1 OK) as (e2 & E2 & Hm2 & Hmemo2 & _).
  rewrite E2. cbn [bind].
  eexists. exists ms'. split; [reflexivity|].
  cbn [scene with_next_defect_index].
  split; [|split].
  - rewrite Hm2, Hm1. unfold e0. cbn. apply app_nil_r.
  - clear - F. induction F as [|m m' ms ms' R F IH]; constructor; [|exact IH].
    split; [exact R | apply restored_from_same; exact R].
  - rewrite Hmemo2, Hmemo1. unfold e0. cbn. apply app_nil_r.
Qed.







End SnapshotProofs.

(** ** Renumbering the circles *)

Lemma insert_by_key_perm {A} (key : A -> Z) (x : A) (l : list A) :
  Permutation (insert_by_key key x l) (x :: l).
Proof.
  induction l as [|y l IH]; simpl; [reflexivity|].
  destruct (key y <? key x)%Z.
  - rewrite IH. apply perm_swap.
  - reflexivity.
Qed.

Lemma sort_by_key_perm {A} (key : A -> Z) (l : list A) :
  Permutation (sort_by_key key l) l.
Proof.
  induction l as [|x l IH]; simpl; [reflexivity|].
  rewrite insert_by_key_perm. constructor. exact IH.
Qed.

Lemma insert_by_key_sorted {A} (key : A -> Z) (x : A) (l : list A) :
  StronglySorted (fun a b => (key a <= key b)%Z) l ->
  StronglySorted (fun a b => (key a <= key b)%Z) (insert_by_key key x l).
Proof.
  induction l as [|y l IH]; intro S; simpl.
  - constructor; constructor.
  - inversion S as [|? ? Sl Fy]; subst.
    destruct (Z.ltb_spec (key y) (key x)) as [L|L].
    + constructor; [apply IH; exact Sl|].
      apply Forall_forall. intros z Hz.
      apply (Permutation_in _ (insert_by_key_perm key x l)) in Hz.
      destruct Hz as [<-|Hz]; [lia|].
      rewrite Forall_forall in Fy. apply Fy; exact Hz.
    + constructor; [exact S|]. constructor; [exact L|].
      rewrite Forall_forall in *. intros z Hz. specialize (Fy z Hz). lia.
Qed.

Lemma sort_by_key_sorted {A} (key : A -> Z) (l : list A) :
  StronglySorted (fun a b => (key a <= key b)%Z) (sort_by_key key l).
Proof.
  induction l as [|x l IH]; simpl; [constructor|].
  apply insert_by_key_sorted. exact IH.
Qed.

Lemma assigned_ge (l : list (nat * Z)) : forall idx o i,
  assigned idx l o = Some i -> (idx <= i < idx + Z.of_nat (length l))%Z.
Proof.
  induction l as [|[o' k] l IH]; intros idx o i H; simpl in *; [discriminate|].
  destruct (Nat.eqb o' o).
  - inversion H; subst. lia.
  - apply IH in H. lia.
Qed.

Lemma assigned_in (l : list (nat * Z)) : forall idx o,
  In o (map fst l) -> exists i, assigned idx l o = Some i.
Proof.
  induction l as [|[o' k] l IH]; intros idx o H; simpl in *; [contradiction|].
  destruct (Nat.eqb_spec o' o); [eauto|].
  destruct H as [H|H]; [contradiction|]. apply IH; exact H.
Qed.

Lemma assigned_notin (l : list (nat * Z)) : forall idx o,
  ~ In o (map fst l) -> assigned idx l o = None.
Proof.
  induction l as [|[o' k] l IH]; intros idx o H; simpl in *; [reflexivity|].
  destruct (Nat.eqb_spec o' o); [exfalso; apply H; left; assumption|].
  apply IH. intro. apply H. right. assumption.
Qed.

Lemma assigned_self (l : list (nat * Z)) : forall idx,
  NoDup (map fst l) ->
  map (fun c => assigned idx l (fst c)) l
  = map (fun k => Some (idx + Z.of_nat k)%Z) (seq 0 (length l)).
Proof.
  induction l as [|[o k] l IH]; intros idx ND; simpl; [reflexivity|].
  inversion ND as [|? ? Hn ND']; subst.
  rewrite Nat.eqb_refl. f_equal; [f_equal; lia|].
  rewrite <- seq_shift, map_map.
  rewrite <- (map_ext (fun k => Some (idx + 1 + Z.of_nat k)%Z)) by (intro; f_equal; lia).
  rewrite <- (IH (idx + 1)%Z ND').
  apply map_ext_in. intros [o' k'] Hin. simpl.
  destruct (Nat.eqb_spec o o'); [|reflexivity].
  subst o'. exfalso. apply Hn. apply in_map_iff. exists (o, k'). auto.
Qed.

Lemma update_obj_map (o : nat) (f : Item -> Item) (sc : list SceneObject) :
  update_obj o f sc = map (fun x => if Nat.eqb (oid x) o then mkObj (oid x) (f (item x)) else x) sc.
Proof. reflexivity. Qed.

Lemma renumber_loop_spec (l : list (nat * Z)) : forall idx sc,
  NoDup (map fst l) ->
  renumber_loop idx l sc
  = map (fun x => match assigned idx l (oid x) with
                  | Some i => mkObj (oid x) (renumber_one i (item x))
                  | None => x
                  end) sc.
Proof.
  induction l as [|[o k] l IH]; intros idx sc ND; simpl.
  - symmetry. apply map_id.
  - inversion ND as [|? ? Hn ND']; subst.
    rewrite (IH _ _ ND'). unfold update_obj. rewrite map_map.
    apply map_ext. intro x.
    destruct (Nat.eqb_spec (oid x) o) as [E|E]; simpl.
    + rewrite E. rewrite Nat.eqb_refl.
      rewrite (assigned_notin l (idx + 1)%Z o Hn). reflexivity.
    + destruct (Nat.eqb_spec o (oid x)); [congruence|]. reflexivity.
Qed.

Lemma collect_circles_spec (sc : list SceneObject) :
  circles_numbered sc -> collect_circles sc = Ok (circle_entries sc).
Proof.
  induction sc as [|x sc IH]; intro H; simpl; [reflexivity|].
  assert (H' : circles_numbered sc).
  { intros y m Hy. apply H. right. exact Hy. }
  specialize (IH H').
  destruct (item x) as [m|l s|pts s] eqn:Ex; simpl; try exact IH.
  destruct (is_circle (shape m)) eqn:C; [|exact IH].
  destruct (H x m (or_introl eq_refl) Ex C) as [n Hn].
  rewrite Hn, IH. reflexivity.
Qed.

Lemma circle_entries_oids (sc : list SceneObject) (o : nat) :
  In o (map fst (circle_entries sc)) -> In o (map oid sc).
Proof.
  induction sc as [|x sc IH]; simpl; [auto|].
  rewrite map_app, in_app_iff. intros [H|H].
  - destruct (int_circle (item x)); simpl in H; [|contradiction].
    destruct H as [H|[]]. left. exact H.
  - right. apply IH. exact H.
Qed.

Lemma circle_entries_NoDup (sc : list SceneObject) :
  NoDup (map oid sc) -> NoDup (map fst (circle_entries sc)).
Proof.
  induction sc as [|x sc IH]; simpl; intro ND; [constructor|].
  inversion ND as [|? ? Hn ND']; subst.
  rewrite map_app. destruct (int_circle (item x)); simpl.
  - constructor; [|apply IH; exact ND'].
    intro H. apply Hn. apply circle_entries_oids. exact H.
  - apply IH; exact ND'.
Qed.

Lemma renumber_one_int (i : Z) (it : Item) (n : Z) (m : Mark) :
  it = IMark m -> is_circle (shape m) = true -> display_id m = Some (VInt n) ->
  int_circle (renumber_one i it) = Some i /\
  exists m', renumber_one i it = IMark m' /\ is_circle (shape m') = true /\
             display_id m' = Some (VInt i).
Proof.
  intros -> C D. unfold renumber_one. rewrite D.
  destruct (py_eq (VInt n) (VInt i)) eqn:E.
  - assert (n = i).
    { simpl in E. apply Qeq_bool_iff in E. unfold Qeq in E. simpl in E. lia. }
    subst n. split.
    + simpl. rewrite C, D. reflexivity.
    + exists m. auto.
  - split.
    + simpl. rewrite C. reflexivity.
    + eexists. split; [reflexivity|]. split; [exact C | reflexivity].
Qed.

Lemma int_circle_numbered (x : SceneObject) (sc : list SceneObject) :
  circles_numbered sc -> In x sc ->
  match int_circle (item x) with
  | Some n => exists m, item x = IMark m /\ is_circle (shape m) = true /\
                        display_id m = Some (VInt n)
  | None => forall m, item x = IMark m -> is_circle (shape m) = false
  end.
Proof.
  intros H Hx. destruct (item x) as [m|l s|pts s] eqn:Ex; simpl; try discriminate.
  destruct (is_circle (shape m)) eqn:C.
  - destruct (H x m Hx Ex C) as [n Hn]. rewrite Hn. simpl.
    exists m. auto.
  - intros m' E. inversion E; subst. exact C.
Qed.

Lemma NoDup_oid_eq (sc : list SceneObject) (x y : SceneObject) :
  NoDup (map oid sc) -> In x sc -> In y sc -> oid x = oid y -> x = y.
Proof.
  induction sc as [|z sc IH]; [contradiction|].
  simpl. intros ND Hx Hy E. inversion ND as [|? ? Hn ND']; subst.
  destruct Hx as [->|Hx], Hy as [->|Hy]; auto.
  - exfalso. apply Hn. rewrite E. apply in_map. exact Hy.
  - exfalso. apply Hn. rewrite <- E. apply in_map. exact Hx.
Qed.

Lemma in_circle_entries (sc : list SceneObject) (o : nat) (n : Z) :
  In (o, n) (circle_entries sc) <->
  exists x, In x sc /\ oid x = o /\ int_circle (item x) = Some n.
Proof.
  unfold circle_entries. rewrite in_flat_map. split.
  - intros (x & Hx & Hin). exists x. split; [exact Hx|].
    destruct (int_circle (item x)); [|contradiction].
    destruct Hin as [Hin|[]]. inversion Hin; subst. auto.
  - intros (x & Hx & <- & Ei). exists x. split; [exact Hx|]. rewrite Ei. left. reflexivity.
Qed.

Lemma circle_ids_renumbered (sorted : list (nat * Z)) (sc0 sc : list SceneObject) :
  circles_numbered sc ->
  NoDup (map oid sc) ->
  Permutation sorted (circle_entries sc) ->
  incl sc0 sc ->
  circle_ids (map (renumbered sorted) sc0)
  = map (fun c => match assigned 1 sorted (fst c) with
                  | Some i => Some (VInt i)
                  | None => None
                  end) (circle_entries sc0).
Proof.
  intros Hnum ND Hperm. induction sc0 as [|x sc0 IH]; intro Hincl; simpl; [reflexivity|].
  assert (Hx : In x sc) by (apply Hincl; left; reflexivity).
  assert (Hincl' : incl sc0 sc) by (intros y Hy; apply Hincl; right; exact Hy).
  rewrite map_app. rewrite <- (IH Hincl'). f_equal.
  pose proof (int_circle_numbered x sc Hnum Hx) as Hic.
  unfold renumbered.
  destruct (int_circle (item x)) as [n|] eqn:Ei.
  - destruct Hic as (m & Em & C & D).
    assert (Hin : In (oid x) (map fst sorted)).
    { apply (Permutation_in _ (Permutation_map fst (Permutation_sym Hperm))).
      apply in_map_iff. exists (oid x, n). split; [reflexivity|].
      apply in_circle_entries. exists x. auto. }
    destruct (assigned_in sorted 1 (oid x) Hin) as [i Hi]. simpl. rewrite Hi.
    destruct (renumber_one_int i (item x) n m Em C D) as (_ & m' & Em' & C' & D').
    simpl. rewrite Em', C', D'. reflexivity.
  - assert (Hnin : ~ In (oid x) (map fst sorted)).
    { intro Hin.
      apply (Permutation_in _ (Permutation_map fst Hperm)) in Hin.
      apply in_map_iff in Hin. destruct Hin as ([o k] & Eo & Hin). simpl in Eo. subst o.
      apply in_circle_entries in Hin. destruct Hin as (y & Hy & Eo & Ey).
      assert (y = x) by (apply (NoDup_oid_eq sc); assumption).
      subst y. congruence. }
    rewrite (assigned_notin sorted 1 (oid x) Hnin). simpl.
    destruct (item x) as [m|l s|pts s]; simpl in *; try reflexivity.
    destruct (is_circle (shape m)) eqn:C; [|reflexivity].
    specialize (Hic m eq_refl). congruence.
Qed.

Lemma circle_ids_length (sc : list SceneObject) :
  circles_numbered sc -> length (circle_ids sc) = length (circle_entries sc).
Proof.
  induction sc as [|x sc IH]; intro H; simpl; [reflexivity|].
  assert (H' : circles_numbered sc) by (intros y m Hy; apply H; right; exact Hy).
  rewrite !length_app, (IH H'). f_equal.
  pose proof (int_circle_numbered x (x :: sc) H (or_introl eq_refl)) as Hic.
  destruct (int_circle (item x)) as [n|] eqn:Ei.
  - destruct Hic as (m & Em & C & D). rewrite Em, C. reflexivity.
  - destruct (item x) as [m|l s|pts s]; try reflexivity.
    rewrite (Hic m eq_refl). reflexivity.
Qed.

Lemma lookup_obj_map (g : SceneObject -> SceneObject) (o : nat) (sc : list SceneObject) (it : Item) :
  (forall x, oid (g x) = oid x) ->
  lookup_obj o sc = Some it ->
  exists x, In x sc /\ oid x = o /\ item x = it /\
            lookup_obj o (map g sc) = Some (item (g x)).
Proof.
  intro Hg. induction sc as [|y sc IH]; simpl; [discriminate|].
  rewrite Hg. destruct (Nat.eqb_spec (oid y) o) as [E|E].
  - intro H. inversion H; subst. exists y. auto.
  - intro H. destruct (IH H) as (x & Hx & Ho & Hi & Hl). exists x. auto.
Qed.

Lemma assigned_monotone (l : list (nat * Z)) :
  StronglySorted (fun a b => (snd a <= snd b)%Z) l ->
  NoDup (map fst l) ->
  forall idx a b na nb,
    In (a, na) l -> In (b, nb) l -> (na < nb)%Z ->
    exists ia ib, assigned idx l a = Some ia /\ assigned idx l b = Some ib /\ (ia < ib)%Z.
Proof.
  induction l as [|[o k] l IH]; intros S ND idx a b na nb Ha Hb Hlt; [contradiction|].
  inversion S as [|? ? Sl Fk]; subst. inversion ND as [|? ? Hn ND']; subst.
  rewrite Forall_forall in Fk. simpl.
  assert (Hfst : forall c n, In (c, n) l -> c <> o).
  { intros c n Hc E. subst c. apply Hn. apply in_map_iff. exists (o, n). auto. }
  destruct Ha as [Ea|Ha], Hb as [Eb|Hb].
  - inversion Ea; inversion Eb; subst. lia.
  - inversion Ea; subst. rewrite Nat.eqb_refl.
    destruct (Nat.eqb_spec a b) as [E|E]; [exfalso; apply (Hfst b nb Hb); auto|].
    destruct (assigned_in l (idx + 1)%Z b) as [ib Hib].
    { apply in_map_iff. exists (b, nb). auto. }
    exists idx, ib. repeat split; auto. apply assigned_ge in Hib. lia.
  - inversion Eb; subst. specialize (Fk (a, na) Ha). simpl in Fk. lia.
  - destruct (Nat.eqb_spec o a) as [E|_]; [exfalso; apply (Hfst a na Ha); auto|].
    destruct (Nat.eqb_spec o b) as [E|_]; [exfalso; apply (Hfst b nb Hb); auto|].
    apply (IH Sl ND' (idx + 1)%Z a b na nb Ha Hb Hlt).
Qed.

Lemma circle_id_of_entries (sc : list SceneObject) (o : nat) (n : Z) :
  circle_id_of o sc = Some n -> In (o, n) (circle_entries sc).
Proof.
  unfold circle_id_of. destruct (lookup_obj o sc) as [it|] eqn:El; [|discriminate].
  intro Hi. destruct (lookup_obj_map (fun x => x) o sc it (fun _ => eq_refl) El)
    as (x & Hx & Ho & Hit & _).
  apply in_circle_entries. exists x. subst it. auto.
Qed.

Lemma renumbered_oid (sorted : list (nat * Z)) (x : SceneObject) :
  oid (renumbered sorted x) = oid x.
Proof. unfold renumbered. destruct (assigned 1 sorted (oid x)); reflexivity. Qed.

Lemma circle_id_of_renumbered (sorted : list (nat * Z)) (sc : list SceneObject)
      (o : nat) (n i : Z) :
  circles_numbered sc ->
  circle_id_of o sc = Some n ->
  assigned 1 sorted o = Some i ->
  circle_id_of o (map (renumbered sorted) sc) = Some i.
Proof.
  intros Hnum Hc Ha. unfold circle_id_of in *.
  destruct (lookup_obj o sc) as [it|] eqn:El; [|discriminate].
  destruct (lookup_obj_map (renumbered sorted) o sc it (renumbered_oid sorted) El)
    as (x & Hx & Ho & Hit & Hl).
  rewrite Hl. unfold renumbered. rewrite Ho, Ha. simpl.
  pose proof (int_circle_numbered x sc Hnum Hx) as Hic.
  rewrite Hit, Hc in Hic. destruct Hic as (m & Em & C & D).
  rewrite Hit in *.
  apply (renumber_one_int i it n m Em C D).
Qed.

Lemma renumber_scene_spec (sc : list SceneObject) :
  circles_numbered sc ->
  NoDup (map oid sc) ->
  exists sc',
    renumber_scene sc = Ok sc' /\
    Permutation (circle_ids sc')
                (map (fun k => Some (VInt (Z.of_nat k))) (seq 1 (length (circle_ids sc)))) /\
    (forall a b na nb,
        circle_id_of a sc = Some na -> circle_id_of b sc = Some nb -> (na < nb)%Z ->
        exists ia ib, circle_id_of a sc' = Some ia /\ circle_id_of b sc' = Some ib /\
                      (ia < ib)%Z).
Proof.
  intros Hnum ND.
  set (sorted := sort_by_key snd (circle_entries sc)).
  assert (Hperm : Permutation sorted (circle_entries sc)) by apply sort_by_key_perm.
  assert (NDs : NoDup (map fst sorted)).
  { apply (Permutation_NoDup (Permutation_map fst (Permutation_sym Hperm))).
    apply circle_entries_NoDup. exact ND. }
  exists (map (renumbered sorted) sc). split; [|split].
  - unfold renumber_scene. rewrite (collect_circles_spec sc Hnum). cbn [bind].
    fold sorted. rewrite (renumber_loop_spec sorted 1 sc NDs). reflexivity.
  - rewrite (circle_ids_renumbered sorted sc sc Hnum ND Hperm (incl_refl sc)).
    rewrite (circle_ids_length sc Hnum).
    rewrite <- (Permutation_length Hperm).
    eapply Permutation_trans.
    + apply Permutation_map. apply Permutation_sym. exact Hperm.
    + rewrite <- (map_map (fun c => assigned 1 sorted (fst c))
                          (fun a => match a with Some i => Some (VInt i) | None => None end)).
      rewrite (assigned_self sorted 1 NDs). rewrite map_map.
      rewrite <- seq_shift, map_map.
      apply Permutation_refl'. apply map_ext. intro k. f_equal. f_equal. lia.
  - intros a b na nb Ha Hb Hlt.
    assert (Ia : In (a, na) sorted).
    { apply (Permutation_in _ (Permutation_sym Hperm)). apply circle_id_of_entries. exact Ha. }
    assert (Ib : In (b, nb) sorted).
    { apply (Permutation_in _ (Permutation_sym Hperm)). apply circle_id_of_entries. exact Hb. }
    destruct (assigned_monotone sorted (sort_by_key_sorted snd _) NDs 1 a b na nb Ia Ib Hlt)
      as (ia & ib & Aa & Ab & L).
    exists ia, ib. split; [|split; [|exact L]].
    + apply (circle_id_of_renumbered sorted sc a na ia Hnum Ha Aa).
    + apply (circle_id_of_renumbered sorted sc b nb ib Hnum Hb Ab).
Qed.

(* ================================================================== *)
(** * What every reachable scene satisfies, and renumbering on it *)
(* ================================================================== *)

Section InvariantProofs.
Context {TK : Toolkit}.

Lemma circles_numbered_items (sc : list SceneObject) :
  circles_numbered sc <-> (forall x, In x sc -> numbered_item (item x)).
Proof.
  unfold circles_numbered, numbered_item. split; intros H x; eauto.
Qed.

Lemma inv_same (e e' : Editor) :
  scene e' = scene e -> next_oid e' = next_oid e -> scene_inv e -> scene_inv e'.
Proof. unfold scene_inv. intros -> ->. auto. Qed.

Lemma inv_map (g : SceneObject -> SceneObject) (e e' : Editor) :
  scene e' = map g (scene e) -> next_oid e' = next_oid e ->
  (forall x, oid (g x) = oid x) ->
  (forall x, In x (scene e) -> numbered_item (item x) -> numbered_item (item (g x))) ->
  scene_inv e -> scene_inv e'.
Proof.
  intros Hs Hn Hg Hnum (ND & Hb & Hc). unfold scene_inv. rewrite Hs, Hn.
  split; [|split].
  - rewrite map_map. rewrite (map_ext _ oid Hg). exact ND.
  - intros y Hy. apply in_map_iff in Hy. destruct Hy as (x & <- & Hx).
    rewrite Hg. apply Hb. exact Hx.
  - apply circles_numbered_items. intros y Hy.
    apply in_map_iff in Hy. destruct Hy as (x & <- & Hx).
    apply Hnum; [exact Hx|]. apply (proj1 (circles_numbered_items _) Hc). exact Hx.
Qed.

Lemma inv_filter (p : SceneObject -> bool) (e e' : Editor) :
  scene e' = filter p (scene e) -> next_oid e' = next_oid e ->
  scene_inv e -> scene_inv e'.
Proof.
  intros Hs Hn (ND & Hb & Hc). unfold scene_inv. rewrite Hs, Hn.
  split; [|split].
  - clear - ND. induction (scene e) as [|x sc IH]; simpl; [constructor|].
    simpl in ND. inversion ND as [|? ? Hx ND']; subst.
    destruct (p x); simpl; [|apply IH; exact ND'].
    constructor; [|apply IH; exact ND'].
    intro H. apply Hx. apply in_map_iff in H. destruct H as (y & Ey & Hy).
    apply filter_In in Hy. apply in_map_iff. exists y. tauto.
  - intros x Hx. apply filter_In in Hx. apply Hb. tauto.
  - intros x m Hx. apply filter_In in Hx. apply Hc. tauto.
Qed.

Lemma inv_cons (it : Item) (e e' : Editor) :
  scene e' = mkObj (next_oid e) it :: scene e -> next_oid e' = S (next_oid e) ->
  numbered_item it ->
  scene_inv e -> scene_inv e'.
Proof.
  intros Hs Hn Hit (ND & Hb & Hc). unfold scene_inv. rewrite Hs, Hn.
  split; [|split].
  - simpl. constructor; [|exact ND].
    intro H. apply in_map_iff in H. destruct H as (y & Ey & Hy).
    specialize (Hb y Hy). lia.
  - intros x [<-|Hx]; simpl; [lia|]. specialize (Hb x Hx). lia.
  - intros x m [<-|Hx]; simpl.
    + intros E. apply Hit. exact E.
    + apply Hc. exact Hx.
Qed.


(** *** The handlers that leave the scene alone *)

Lemma _begin_edit_scene (e : Editor) :
  scene (_begin_edit e) = scene e /\ next_oid (_begin_edit e) = next_oid e.
Proof. unfold _begin_edit. destruct (_undo_block (hist e)); auto. Qed.

Lemma _end_edit_scene (e : Editor) :
  scene (_end_edit e) = scene e /\ next_oid (_end_edit e) = next_oid e.
Proof.
  unfold _end_edit. destruct (_undo_block (hist e)); auto.
  destruct (_editing (hist e)) as [[|]|]; auto.
  destruct (differs_from_top _ _); auto.
Qed.

Lemma inv_begin_edit (e : Editor) : scene_inv e -> scene_inv (_begin_edit e).
Proof. apply inv_same; apply _begin_edit_scene. Qed.

Lemma inv_end_edit (e : Editor) : scene_inv e -> scene_inv (_end_edit e).
Proof. apply inv_same; apply _end_edit_scene. Qed.

Lemma inv_mark_dirty (e : Editor) : scene_inv e -> scene_inv (mark_dirty e).
Proof. apply inv_same; reflexivity. Qed.

Lemma inv_stop_press_timer (e : Editor) : scene_inv e -> scene_inv (stop_press_timer e).
Proof. apply inv_same; reflexivity. Qed.

Lemma inv_reset_mouse_drag (e : Editor) : scene_inv e -> scene_inv (_reset_mouse_drag e).
Proof. apply inv_same; reflexivity. Qed.

Lemma inv_with_drag (d : Drag) (e : Editor) : scene_inv e -> scene_inv (with_drag d e).
Proof. apply inv_same; reflexivity. Qed.

Lemma inv_with_handle (h : AnchorHandle) (e : Editor) :
  scene_inv e -> scene_inv (with_handle h e).
Proof. apply inv_same; reflexivity. Qed.

Lemma inv_with_edit_end_timer (b : bool) (e : Editor) :
  scene_inv e -> scene_inv (with_edit_end_timer b e).
Proof. apply inv_same; reflexivity. Qed.

Lemma inv_with_next_defect_index (n : Z) (e : Editor) :
  scene_inv e -> scene_inv (with_next_defect_index n e).
Proof. apply inv_same; reflexivity. Qed.

Lemma inv_with_current_tool (t : string) (e : Editor) :
  scene_inv e -> scene_inv (with_current_tool t e).
Proof. apply inv_same; reflexivity. Qed.

(** *** The handlers that change it *)

Lemma numbered_set_item_selected (b : bool) (it : Item) :
  numbered_item it -> numbered_item (set_item_selected b it).
Proof.
  unfold numbered_item. destruct it as [m|l s|pts s]; simpl; intros H m' E; try discriminate.
  inversion E; subst. simpl. apply H. reflexivity.
Qed.

Lemma inv_update_obj (o : nat) (f : Item -> Item) (e : Editor) :
  (forall x, In x (scene e) -> numbered_item (item x) -> numbered_item (f (item x))) ->
  scene_inv e -> scene_inv (with_scene (update_obj o f (scene e)) e).
Proof.
  intro Hf.
  apply (inv_map (fun x => if Nat.eqb (oid x) o then mkObj (oid x) (f (item x)) else x));
    try reflexivity.
  - intro x. destruct (Nat.eqb (oid x) o); reflexivity.
  - intros x Hx Hn. destruct (Nat.eqb (oid x) o); simpl; auto.
Qed.

Lemma inv_clearSelection (e : Editor) : scene_inv e -> scene_inv (clearSelection e).
Proof.
  apply (inv_map (fun x => mkObj (oid x) (set_item_selected false (item x))));
    try reflexivity.
  intros x _. apply numbered_set_item_selected.
Qed.

Lemma inv_select_objects (sel : list nat) (e : Editor) :
  scene_inv e -> scene_inv (select_objects sel e).
Proof.
  apply (inv_map (fun x => mkObj (oid x)
                             (set_item_selected (existsb (Nat.eqb (oid x)) sel) (item x))));
    try reflexivity.
  intros x _. apply numbered_set_item_selected.
Qed.

Lemma inv_removeItem (o : nat) (e : Editor) : scene_inv e -> scene_inv (removeItem o e).
Proof. apply (inv_filter (fun x => negb (Nat.eqb (oid x) o))); reflexivity. Qed.

Lemma inv_addItem (it : Item) (e : Editor) :
  numbered_item it -> scene_inv e -> scene_inv (addItem it e).
Proof. intro H. apply (inv_cons it); [reflexivity | reflexivity | exact H]. Qed.

Lemma lookup_obj_In (o : nat) (sc : list SceneObject) (it : Item) :
  lookup_obj o sc = Some it -> exists x, In x sc /\ oid x = o /\ item x = it.
Proof.
  intro H. destruct (lookup_obj_map (fun x => x) o sc it (fun _ => eq_refl) H)
    as (x & Hx & Ho & Hi & _). eauto.
Qed.

Lemma inv_update_mark (o : nat) (f : Mark -> Result Mark) (e e' : Editor) :
  (forall m m', f m = Ok m' -> shape m' = shape m /\ display_id m' = display_id m) ->
  update_mark o f e = Ok e' ->
  scene_inv e -> scene_inv e'.
Proof.
  intros Hf E Inv. unfold update_mark in E.
  destruct (lookup_obj o (scene e)) as [[m|l s|pts s]|] eqn:El;
    try (inversion E; subst; exact Inv).
  destruct (f m) as [m'|x] eqn:Ef; cbn [bind] in E; [|discriminate].
  inversion E; subst. apply inv_update_obj; [|exact Inv].
  intros x Hx _ m0 E0 C. inversion E0; subst m0.
  destruct (Hf m m' Ef) as [Hs Hd]. rewrite Hs in C. rewrite Hd.
  destruct (lookup_obj_In o (scene e) (IMark m) El) as (y & Hy & _ & Hi).
  destruct Inv as (_ & _ & Hc). apply (Hc y m Hy Hi C).
Qed.

Lemma _update_attached_line_geometry_keeps (m m' : Mark) :
  _update_attached_line_geometry m = Ok m' ->
  shape m' = shape m /\ display_id m' = display_id m.
Proof.
  unfold _update_attached_line_geometry. intro E.
  destruct (_line_anchor_scene_pos m); [|inversion E; auto].
  destruct (_attached_line m); [|inversion E; auto].
  destruct (is_circle (shape m)); inversion E; auto.
Qed.

Lemma inv_init_defect (o : nat) (e : Editor) :
  scene_inv e -> scene_inv (_init_defect_for_item o e).
Proof.
  intro Inv. unfold _init_defect_for_item.
  destruct (lookup_obj o (scene e)) as [[m|l s|pts s]|] eqn:El; try exact Inv.
  cbv zeta. cbn [shape set_internal_id].
  destruct (is_circle (shape m)) eqn:C.
  - apply inv_with_next_defect_index.
    refine (inv_update_obj o _ (with_uuid_draws (S (uuid_draws e)) e) _ Inv).
    intros x _ _ m0 E0 _. inversion E0; subst. simpl. eauto.
  - refine (inv_update_obj o _ (with_uuid_draws (S (uuid_draws e)) e) _ Inv).
    intros x _ _ m0 E0 C0. inversion E0; subst. simpl in C0. congruence.
Qed.

Lemma update_obj_fresh (o : nat) (f : Item -> Item) (sc : list SceneObject) :
  (forall x, In x sc -> (oid x < o)%nat) -> update_obj o f sc = sc.
Proof.
  intro H. unfold update_obj. rewrite <- (map_id sc) at 2.
  apply map_ext_in. intros x Hx. specialize (H x Hx).
  destruct (Nat.eqb_spec (oid x) o); [lia | reflexivity].
Qed.

Lemma inv_add_and_init (it : Mark) (e : Editor) :
  scene_inv e ->
  scene_inv (_init_defect_for_item (next_oid e) (addItem (IMark it) e)).
Proof.
  intros Inv. pose proof Inv as (ND & Hb & Hc).
  unfold _init_defect_for_item.
  assert (El : lookup_obj (next_oid e) (scene (addItem (IMark it) e)) = Some (IMark it)).
  { simpl. rewrite Nat.eqb_refl. reflexivity. }
  rewrite El. cbv zeta. cbn [shape set_internal_id].
  assert (Eu : forall f, update_obj (next_oid e) f (scene (addItem (IMark it) e))
                         = mkObj (next_oid e) (f (IMark it)) :: scene e).
  { intro f. simpl. rewrite Nat.eqb_refl. f_equal.
    apply (update_obj_fresh (next_oid e) f (scene e) Hb). }
  destruct (is_circle (shape it)) eqn:C.
  - apply inv_with_next_defect_index.
    eapply (inv_cons _ e); [| | | exact Inv].
    + cbn [scene with_scene]. rewrite Eu. reflexivity.
    + reflexivity.
    + intros m0 E0 _. inversion E0; subst. simpl. eauto.
  - eapply (inv_cons _ e); [| | | exact Inv].
    + cbn [scene with_scene]. rewrite Eu. reflexivity.
    + reflexivity.
    + intros m0 E0 C0. inversion E0; subst. simpl in C0. congruence.
Qed.


Lemma numbered_memo_line (l : QLineF) (b : bool) : numbered_item (IMemoLine l b).
Proof. intros m E. discriminate. Qed.

Lemma numbered_memo_free (pts : list QPointF) (b : bool) :
  numbered_item (IMemoFreePath pts b).
Proof. intros m E. discriminate. Qed.

Lemma inv_double_click (ev : MouseEvent) (e : Editor) :
  scene_inv e -> scene_inv (fst (_on_mouse_double_click ev e)).
Proof.
  intro Inv. unfold _on_mouse_double_click.
  assert (I0 : scene_inv (stop_press_timer e)) by (apply inv_stop_press_timer; exact Inv).
  destruct (negb (MouseButton_eqb (button ev) LeftButton)); [exact I0|].
  destruct (_ || _ || _); [exact I0|].
  destruct (negb (_can_create_at (hits ev))); [exact I0|].
  destruct (item_for_tool _ _) as [it|]; [|exact I0].
  cbn [fst]. apply inv_mark_dirty. apply inv_end_edit.
  set (e1 := _begin_edit (stop_press_timer e)).
  assert (I1 : scene_inv e1) by (apply inv_begin_edit; exact I0).
  refine (inv_update_obj (next_oid e1) _ (_init_defect_for_item (next_oid e1) (addItem (IMark it) e1)) _ _).
  - intros x _. apply numbered_set_item_selected.
  - apply inv_add_and_init. exact I1.
Qed.

Lemma inv_press (ev : MouseEvent) (e : Editor) :
  scene_inv e -> scene_inv (fst (_on_mouse_press ev e)).
Proof.
  intro Inv. unfold _on_mouse_press.
  destruct (bg_path e); [|exact Inv].
  destruct (negb (MouseButton_eqb (button ev) LeftButton)); [exact Inv|].
  match goal with |- scene_inv (fst (match ?c with _ => _ end)) => destruct c as [t|] end.
  { cbn [fst]. apply inv_with_drag. apply inv_begin_edit. exact Inv. }
  assert (Rest : forall e0, scene_inv e0 ->
    scene_inv (fst
      (let hit := _find_shape_at (hits ev) in
       let e1 := if EditMode_eqb (_edit_mode e0) AREA_SELECT then e0 else clearSelection e0 in
       match hit, _edit_mode e1 with
       | Some h, SELECT =>
           let e2 := _begin_edit e1 in
           (with_drag (with_drag_item (Some h) (with_drag_mode MOVE (drag e2))) e2, false)
       | None, SELECT =>
           if String.eqb (current_tool e1) "memo_line" then
             let e2 := stop_press_timer e1 in
             let e3 := _begin_edit e2 in
             let o := next_oid e3 in
             let e4 := addItem (IMemoLine (mkLine (scene_pos ev) (scene_pos ev)) false) e3 in
             (with_drag (mkDrag CREATE (Some o) false (Some (scene_pos ev))
                           (_pressing (drag e4)) (_pending_press_pos (drag e4))
                           (_press_timer (drag e4))) e4, true)
           else if String.eqb (current_tool e1) "memo_free" then
             let e2 := stop_press_timer e1 in
             let e3 := _begin_edit e2 in
             let o := next_oid e3 in
             let e4 := addItem (IMemoFreePath [scene_pos ev] false) e3 in
             (with_drag (mkDrag CREATE (Some o) false (Some (scene_pos ev))
                           (_pressing (drag e4)) (_pending_press_pos (drag e4))
                           (_press_timer (drag e4))) e4, true)
           else
             (with_drag (with_press_timer true
                           (with_pending_press_pos (Some (scene_pos ev))
                              (with_pressing true (drag e1)))) e1, false)
       | _, _ => (e1, false)
       end))).
  { intros e0 I0. cbv zeta.
    set (e1 := if EditMode_eqb (_edit_mode e0) AREA_SELECT then e0 else clearSelection e0).
    assert (I1 : scene_inv e1).
    { unfold e1. destruct (EditMode_eqb _ _); [exact I0 | apply inv_clearSelection; exact I0]. }
    destruct (_find_shape_at (hits ev)) as [h|]; destruct (_edit_mode e1); cbn [fst];
      try exact I1.
    - apply inv_with_drag. apply inv_begin_edit. exact I1.
    - destruct (String.eqb (current_tool e1) "memo_line"); cbn [fst].
      + apply inv_with_drag. apply inv_addItem; [apply numbered_memo_line|].
        apply inv_begin_edit. apply inv_stop_press_timer. exact I1.
      + destruct (String.eqb (current_tool e1) "memo_free"); cbn [fst].
        * apply inv_with_drag. apply inv_addItem; [apply numbered_memo_free|].
          apply inv_begin_edit. apply inv_stop_press_timer. exact I1.
        * apply inv_with_drag. exact I1. }
  destruct (hits ev) as [|[k par] hs] eqn:Eh.
  - apply (Rest e Inv).
  - destruct k as [o|o|].
    + apply (Rest e Inv).
    + cbn [fst]. destruct (EditMode_eqb (_edit_mode e) AREA_SELECT); [exact Inv|].
      destruct (negb (ctrl_or_shift ev)).
      * refine (inv_update_obj o _ (clearSelection e) _ (inv_clearSelection e Inv)).
        intros x _. apply numbered_set_item_selected.
      * apply inv_update_obj; [|exact Inv].
        intros x _. apply numbered_set_item_selected.
    + apply (Rest e Inv).
Qed.

Lemma inv_begin_drag_create (e : Editor) :
  scene_inv e -> scene_inv (_begin_drag_create e).
Proof.
  intro Inv. unfold _begin_drag_create. cbv zeta.
  set (e0 := with_drag (with_press_timer false (drag e)) e).
  assert (I0 : scene_inv e0) by (apply inv_with_drag; exact Inv).
  destruct (negb (String.eqb (current_tool e0) "circle")); [exact I0|].
  destruct (_drag_mode (drag e0)); try exact I0.
  destruct (negb (EditMode_eqb (_edit_mode e0) SELECT)); [exact I0|].
  destruct (_pressing (drag e0)); [|exact I0].
  destruct (_pending_press_pos (drag e0)) as [p|]; [|exact I0].
  destruct (QPointF_isNull p); [exact I0|].
  apply inv_with_drag. apply inv_addItem.
  - intros m E _. inversion E; subst. simpl. eauto.
  - apply inv_with_drag. apply inv_begin_edit. exact I0.
Qed.

Lemma move_step_keeps (p : QPointF) (m m' : Mark) :
  move_step p m = Ok m' -> shape m' = shape m /\ display_id m' = display_id m.
Proof.
  unfold move_step. intro E. apply _update_attached_line_geometry_keeps in E. exact E.
Qed.

Lemma move_anchor_step_keeps (p : QPointF) (m m' : Mark) :
  move_anchor_step p m = Ok m' -> shape m' = shape m /\ display_id m' = display_id m.
Proof.
  unfold move_anchor_step. intro E. apply _update_attached_line_geometry_keeps in E. exact E.
Qed.

Lemma inv_move (ev : MouseEvent) (e e' : Editor) :
  _on_mouse_move ev e = Ok e' -> scene_inv e -> scene_inv e'.
Proof.
  unfold _on_mouse_move. intros E Inv.
  destruct (_drag_mode (drag e)); destruct (_drag_item (drag e)) as [o|];
    try (inversion E; subst; exact Inv).
  - destruct (lookup_obj o (scene e)) as [[m|l s|pts s]|] eqn:El.
    + destruct (is_circle (shape m) && _drag_line (drag e) && left_down ev);
        [|inversion E; subst; exact Inv].
      apply (inv_update_mark _ _ _ _) with (2 := E); [|exact Inv].
      intros m0 m0' E0. bind_ok E0. apply move_step_keeps in H.
      simpl in H. destruct H as [Hs Hd].
      destruct (display_id a) eqn:Da; inversion E0; subst; simpl; split; congruence.
    + destruct (_press_pos (drag e)); [|discriminate].
      inversion E; subst. apply inv_update_obj; [|exact Inv].
      intros x _ _. apply numbered_memo_line.
    + inversion E; subst. apply inv_update_obj; [|exact Inv].
      intros x _ _. apply numbered_memo_free.
    + inversion E; subst. exact Inv.
  - apply (inv_update_mark _ _ _ _) with (2 := E); [|exact Inv].
    intros m0 m0'. apply move_step_keeps.
  - bind_ok E. inversion E; subst. apply inv_with_handle.
    apply (inv_update_mark _ _ _ _) with (2 := H); [|exact Inv].
    intros m0 m0'. apply move_anchor_step_keeps.
Qed.

Lemma inv_release (ev : MouseEvent) (e e' : Editor) :
  _on_mouse_release ev e = Ok e' -> scene_inv e -> scene_inv e'.
Proof.
  unfold _on_mouse_release. intros E Inv.
  destruct (negb (MouseButton_eqb (button ev) LeftButton)); [inversion E; subst; exact Inv|].
  destruct (undersized_drag_memo e) as [o|].
  { inversion E; subst. apply inv_reset_mouse_drag. apply inv_end_edit.
    apply inv_removeItem. exact Inv. }
  assert (Hmv : forall e1,
    (e0 <- match _drag_mode (drag e), _drag_item (drag e), drag_object e with
           | MOVE, Some o, Some (IMark m) =>
               match _attached_line m with
               | Some _ => update_mark o _update_attached_line_geometry e
               | None => Ok e
               end
           | _, _, _ => Ok e
           end ;;
     Ok (mark_dirty
           (with_drag (with_drag_item None (with_drag_mode NONE (drag e0)))
              (with_edit_end_timer true e0)))) = Ok e1 -> scene_inv e1).
  { intros e1 E1. bind_ok E1. inversion E1; subst.
    apply inv_mark_dirty. apply inv_with_drag. apply inv_with_edit_end_timer.
    destruct (_drag_mode (drag e)); try (inversion H; subst; exact Inv).
    destruct (_drag_item (drag e)) as [o|]; try (inversion H; subst; exact Inv).
    destruct (drag_object e) as [[m|l s|pts s]|]; try (inversion H; subst; exact Inv).
    destruct (_attached_line m); try (inversion H; subst; exact Inv).
    apply (inv_update_mark _ _ _ _) with (2 := H); [|exact Inv].
    intros m0 m0'. apply _update_attached_line_geometry_keeps. }
  assert (I0 : scene_inv (stop_press_timer e)) by (apply inv_stop_press_timer; exact Inv).
  destruct (_drag_mode (drag e)) eqn:Em; try (apply Hmv; exact E).
  - cbv zeta in E. inversion E; subst. exact I0.
  - cbv zeta in E.
    destruct (_drag_item (drag (stop_press_timer e))) as [o|];
      [|inversion E; subst; exact I0].
    destruct (drag_object (stop_press_timer e)) as [[m|l s|pts s]|];
      try (inversion E; subst; exact I0);
      try (inversion E; subst; apply inv_mark_dirty; apply inv_reset_mouse_drag;
           apply inv_end_edit; exact I0).
    destruct (_press_pos (drag (stop_press_timer e))) as [pp|]; [|discriminate].
    destruct (negb (is_circle (shape m))); [discriminate|].
    destruct (match shape m with NoteText _ => false | _ => _ end).
    + bind_ok E. inversion E; subst. apply inv_reset_mouse_drag. apply inv_removeItem.
      apply (inv_update_mark _ _ _ _) with (2 := H); [|exact I0].
      intros m0 m0' E0. inversion E0; subst. auto.
    + bind_ok E. inversion E; subst. apply inv_reset_mouse_drag. apply inv_mark_dirty.
      apply inv_end_edit. apply inv_init_defect.
      apply (inv_update_mark _ _ _ _) with (2 := H); [|exact I0].
      intros m0 m0' E0. unfold confirm_attach in E0.
      apply _update_attached_line_geometry_keeps in E0. exact E0.
Qed.

Lemma inv_fold_removeItem (items : list SceneObject) : forall e : Editor,
  scene_inv e -> scene_inv (fold_left (fun e x => removeItem (oid x) e) items e).
Proof.
  induction items as [|x items IH]; intros e Inv; simpl; [exact Inv|].
  apply IH. apply inv_removeItem. exact Inv.
Qed.

Lemma inv_renumber (e e' : Editor) :
  _renumber_circle_ids e = Ok e' -> scene_inv e -> scene_inv e'.
Proof.
  unfold _renumber_circle_ids. intros E Inv. bind_ok E. inversion E; subst.
  pose proof Inv as (ND & Hb & Hc).
  unfold renumber_scene in H. rewrite (collect_circles_spec _ Hc) in H. cbn [bind] in H.
  assert (NDs : NoDup (map fst (sort_by_key snd (circle_entries (scene e))))).
  { apply (Permutation_NoDup
             (Permutation_map fst (Permutation_sym (sort_by_key_perm snd _)))).
    apply circle_entries_NoDup. exact ND. }
  rewrite (renumber_loop_spec _ 1 _ NDs) in H. inversion H; subst.
  apply (inv_map (renumbered (sort_by_key snd (circle_entries (scene e)))) e);
    try reflexivity; [apply renumbered_oid | | exact Inv].
  intros x Hx Hn. unfold renumbered.
  destruct (assigned 1 _ (oid x)) as [i|]; [|exact Hn].
  simpl. intros m E0 C. unfold renumber_one in E0.
  destruct (item x) as [m1|l s|pts s] eqn:Ex; try discriminate.
  destruct (display_id m1) as [d|] eqn:D.
  - destruct (py_eq d (VInt i)).
    + inversion E0; subst. apply (Hn m eq_refl C).
    + inversion E0; subst. simpl. eauto.
  - inversion E0; subst. apply (Hn m eq_refl C).
Qed.

Lemma inv_delete (e e' : Editor) :
  delete_selected_items e = Ok e' -> scene_inv e -> scene_inv e'.
Proof.
  unfold delete_selected_items. intros E Inv.
  destruct (selectedItems e) as [|x items]; [inversion E; subst; exact Inv|].
  bind_ok E. inversion E; subst.
  apply inv_mark_dirty. apply inv_end_edit. apply inv_clearSelection.
  apply inv_with_next_defect_index.
  apply (inv_renumber _ _ H). apply inv_fold_removeItem. apply inv_begin_edit. exact Inv.
Qed.

Lemma inv_step (a : UserAction) (e e' : Editor) :
  step a e = Ok e' -> scene_inv e -> scene_inv e'.
Proof.
  destruct a; simpl; intros E Inv; try (inversion E; subst).
  - apply inv_with_current_tool. exact Inv.
  - apply inv_double_click. exact Inv.
  - apply inv_press. exact Inv.
  - destruct (_press_timer (drag e)); [apply inv_begin_drag_create|]; exact Inv.
  - apply (inv_move _ _ _ E Inv).
  - apply (inv_release _ _ _ E Inv).
  - apply inv_select_objects. exact Inv.
  - apply (inv_delete _ _ E Inv).
Qed.

Lemma inv_opened (radius : Q) (path : string) (e : Editor) :
  FaultEditorDialog_init radius path VNone = Ok e -> scene_inv e.
Proof.
  unfold FaultEditorDialog_init. cbn [truthy bind]. intro E. inversion E; subst.
  assert (I0 : scene_inv (FaultEditorWidget_init radius)).
  { split; [constructor|]. split; [intros x []|intros x m []]. }
  unfold open_png_from_path.
  destruct (pixmap_isNull path); [exact I0|].
  split; [constructor|]. split; [intros x []|intros x m []].
Qed.

Lemma reachable_scene_inv (e : Editor) : reachable e -> scene_inv e.
Proof.
  intros (radius & path & actions & E). bind_ok E.
  apply inv_opened in H. unfold run in E.
  apply (for_each_invariant scene_inv step) with (2 := E); [|exact H].
  intros a0 s s' Es Is. apply (inv_step a0 s s' Es Is).
Qed.

(** C3.  In every editor state reached from a freshly opened dialog by
    user actions (circle creations and deletions among them),
    [_renumber_circle_ids] returns; afterwards the display ids of the
    circles are exactly 1, ..., N, each once, N being the number of
    circles; and a circle whose id was smaller before has the smaller id
    after. *)
Theorem renumbering_is_dense_and_ordered :
  forall e : Editor,
    reachable e ->
    exists e',
      _renumber_circle_ids e = Ok e' /\
      Permutation (circle_ids (scene e'))
                  (map (fun k => Some (VInt (Z.of_nat k)))
                       (seq 1 (length (circle_ids (scene e))))) /\
      (forall a b na nb,
          circle_id_of a (scene e) = Some na ->
          circle_id_of b (scene e) = Some nb ->
          (na < nb)%Z ->
          exists ia ib,
            circle_id_of a (scene e') = Some ia /\
            circle_id_of b (scene e') = Some ib /\
            (ia < ib)%Z).
Proof.
  intros e R. destruct (reachable_scene_inv e R) as (ND & _ & Hc).
  destruct (renumber_scene_spec (scene e) Hc ND) as (sc' & E & P & O).
  exists (with_scene sc' e). split; [|split].
  - unfold _renumber_circle_ids. rewrite E. reflexivity.
  - exact P.
  - exact O.
Qed.

End InvariantProofs.

(* ================================================================== *)
(** * The guards of mark creation *)
(* ================================================================== *)

Section CreationGuardProofs.
Context {TK : Toolkit}.

Lemma over_a_mark_found (hs : list GItem) :
  over_a_mark hs -> _find_shape_at hs <> None.
Proof.
  intros (g & Hin & Hg). induction hs as [|h r IH]; [destruct Hin|].
  simpl. destruct (to_dict_owner h) eqn:E; [discriminate|].
  destruct Hin as [->|Hin]; [congruence | apply IH; exact Hin].
Qed.

Lemma _begin_edit_drag (e : Editor) : drag (_begin_edit e) = drag e.
Proof. unfold _begin_edit. destruct (_undo_block (hist e)); reflexivity. Qed.

Lemma update_obj_oids (o : nat) (f : Item -> Item) (sc : list SceneObject) :
  map oid (update_obj o f sc) = map oid sc.
Proof.
  unfold update_obj. rewrite map_map. apply map_ext. intro x.
  destruct (Nat.eqb (oid x) o); reflexivity.
Qed.

Lemma clearSelection_oids (e : Editor) :
  map oid (scene (clearSelection e)) = map oid (scene e).
Proof. unfold clearSelection. simpl. rewrite map_map. reflexivity. Qed.

Lemma press_over_mark_arms_nothing (ev : MouseEvent) (e : Editor) :
  over_a_mark (hits ev) ->
  let e' := fst (_on_mouse_press ev e) in
  _pressing (drag e') = _pressing (drag e) /\
  _pending_press_pos (drag e') = _pending_press_pos (drag e) /\
  _press_timer (drag e') = _press_timer (drag e) /\
  map oid (scene e') = map oid (scene e).
Proof.
  intro Hov. apply over_a_mark_found in Hov. unfold _on_mouse_press.
  destruct (bg_path e); [|simpl; auto].
  destruct (negb (MouseButton_eqb (button ev) LeftButton)); [simpl; auto|].
  match goal with |- context [match ?c with Some t => _ | None => _ end] =>
    match c with context [anchor_of] => destruct c as [t|] end end.
  { simpl. rewrite _begin_edit_drag, (proj1 (_begin_edit_scene _)). auto. }
  assert (Rest : forall e1, e1 = (if EditMode_eqb (_edit_mode e) AREA_SELECT then e else clearSelection e) ->
     drag e1 = drag e /\ map oid (scene e1) = map oid (scene e)).
  { intros e1 ->. destruct (EditMode_eqb _ _); [auto|].
    split; [reflexivity | apply clearSelection_oids]. }
  destruct (_find_shape_at (hits ev)) as [h|] eqn:Eh; [clear Hov | congruence].
  destruct (hits ev) as [|[k par] hs] eqn:Ehits; [discriminate|].
  destruct k as [o|o|].
  all: try (cbv zeta; rewrite Eh).
  - destruct (Rest _ eq_refl) as [Hd Hs].
    destruct (_edit_mode (if EditMode_eqb (_edit_mode e) AREA_SELECT then e else clearSelection e));
      simpl; rewrite ?_begin_edit_drag, ?(proj1 (_begin_edit_scene _)), ?Hd, ?Hs; auto.
  - simpl. destruct (EditMode_eqb (_edit_mode e) AREA_SELECT); [auto|].
    destruct (negb (ctrl_or_shift ev)); simpl;
      rewrite ?update_obj_oids, ?map_map; auto.
  - destruct (Rest _ eq_refl) as [Hd Hs].
    destruct (_edit_mode (if EditMode_eqb (_edit_mode e) AREA_SELECT then e else clearSelection e));
      simpl; rewrite ?_begin_edit_drag, ?(proj1 (_begin_edit_scene _)), ?Hd, ?Hs; auto.
Qed.

Lemma lookup_update_head (o : nat) (f : Item -> Item) (it : Item) (sc : list SceneObject) :
  lookup_obj o (update_obj o f (mkObj o it :: sc)) = Some (f it).
Proof. simpl. rewrite Nat.eqb_refl. simpl. rewrite Nat.eqb_refl. reflexivity. Qed.

Lemma update_obj_head (o : nat) (f : Item -> Item) (it : Item) (sc : list SceneObject) :
  update_obj o f (mkObj o it :: sc) = mkObj o (f it) :: update_obj o f sc.
Proof. simpl. rewrite Nat.eqb_refl. reflexivity. Qed.

Lemma update_obj_length (o : nat) (f : Item -> Item) (sc : list SceneObject) :
  length (update_obj o f sc) = length sc.
Proof. unfold update_obj. apply length_map. Qed.

Lemma item_for_tool_pos (tool : string) (p : QPointF) (m : Mark) :
  item_for_tool tool p = Some m -> pos m = p.
Proof.
  unfold item_for_tool. intro E.
  repeat match type of E with
         | (if ?c then _ else _) = _ => destruct c
         end; inversion E; reflexivity.
Qed.

Lemma basic_shape_item (e : Editor) (p : QPointF) :
  _is_basic_shape e = true -> exists m, item_for_tool (current_tool e) p = Some m.
Proof.
  unfold _is_basic_shape, item_for_tool. simpl. intro H.
  repeat match goal with
         | |- context [if ?c then _ else _] => destruct c; [eauto|]
         end.
  simpl in H. discriminate.
Qed.

(** C5.  What the creation guards look at.  (1) A double click whose
    topmost item is a mark, or has a mark up its parent chain, adds
    nothing.  (2) A press anywhere over a mark, at whatever depth, arms no
    drag creation and adds nothing.  (3) A double click whose topmost item
    is not of a mark adds a mark at the pointer, whatever lies below. *)
Theorem double_click_guard_checks_topmost_item (e : Editor) (ev : MouseEvent) :
  (forall hit rest,
      hits ev = hit :: rest -> to_dict_owner hit <> None ->
      scene (fst (_on_mouse_double_click ev e)) = scene e /\
      snd (_on_mouse_double_click ev e) = false) /\
  (over_a_mark (hits ev) ->
   let e' := fst (_on_mouse_press ev e) in
   _pressing (drag e') = _pressing (drag e) /\
   _pending_press_pos (drag e') = _pending_press_pos (drag e) /\
   _press_timer (drag e') = _press_timer (drag e) /\
   map oid (scene e') = map oid (scene e)) /\
  (forall hit rest,
      hits ev = hit :: rest -> to_dict_owner hit = None ->
      button ev = LeftButton -> bg_path e <> None ->
      _is_basic_shape e = true -> _edit_mode e = SELECT ->
      exists m sc,
        snd (_on_mouse_double_click ev e) = true /\
        scene (fst (_on_mouse_double_click ev e)) = mkObj (next_oid e) (IMark m) :: sc /\
        pos m = scene_pos ev /\
        map oid sc = map oid (scene e)).
Proof.
  split; [|split].
  - intros hit rest Eh Ho. unfold _on_mouse_double_click, _can_create_at. rewrite Eh.
    destruct (negb (MouseButton_eqb (button ev) LeftButton)); [auto|].
    destruct (_ || _ || _); [auto|].
    destruct (to_dict_owner hit); [auto | congruence].
  - apply press_over_mark_arms_nothing.
  - intros hit rest Eh Ho Hb Hbg Ht Hm.
    destruct (basic_shape_item e (scene_pos ev) Ht) as [it Eit].
    unfold _on_mouse_double_click, _can_create_at. rewrite Eh, Ho, Hb.
    assert (Et : _is_basic_shape (stop_press_timer e) = true) by exact Ht.
    assert (Ec : current_tool (stop_press_timer e) = current_tool e) by reflexivity.
    assert (Ebg : bg_path (stop_press_timer e) = bg_path e) by reflexivity.
    assert (Emd : _edit_mode (stop_press_timer e) = SELECT) by exact Hm.
    rewrite Et, Ec, Ebg, Emd, Eit.
    destruct (bg_path e) as [bg|]; [|congruence].
    cbn [MouseButton_eqb negb orb EditMode_eqb fst snd]. cbv zeta.
    set (e1 := _begin_edit (stop_press_timer e)).
    assert (En : next_oid e1 = next_oid e).
    { unfold e1, _begin_edit. destruct (_undo_block _); reflexivity. }
    assert (Es : scene e1 = scene e).
    { unfold e1. rewrite (proj1 (_begin_edit_scene _)). reflexivity. }
    set (o := next_oid e1).
    assert (Ei : exists m1, pos m1 = scene_pos ev /\
              scene (_init_defect_for_item o (addItem (IMark it) e1))
              = mkObj o (IMark m1) :: update_obj o (fun _ => IMark m1) (scene e1)).
    { unfold _init_defect_for_item. unfold addItem at 1. cbn [scene with_next_oid with_scene].
      fold o. cbn [lookup_obj oid item]. rewrite Nat.eqb_refl. cbv zeta.
      apply item_for_tool_pos in Eit.
      destruct (is_circle (shape (set_internal_id _ it))); eexists; split.
      2, 4: (unfold addItem; cbn [scene with_next_oid with_scene with_uuid_draws
                                   with_next_defect_index]; fold o;
             rewrite update_obj_head; reflexivity).
      all: simpl; exact Eit. }
    destruct Ei as (m1 & Hp & Hs).
    exists (set_selected true m1), (update_obj o (set_item_selected true)
                                      (update_obj o (fun _ => IMark m1) (scene e1))).
    split; [reflexivity|]. split; [|split].
    + unfold mark_dirty, dialog_mark_dirty. cbn [scene with_dirtyChanged with_dirty].
      rewrite (proj1 (_end_edit_scene _)). cbn [scene with_scene]. rewrite Hs, update_obj_head.
      unfold o. rewrite En. reflexivity.
    + exact Hp.
    + rewrite !update_obj_oids, Es. reflexivity.
Qed.

End CreationGuardProofs.


(* ================================================================== *)
(** * Undersized creation gestures *)
(* ================================================================== *)

Section UndersizedGestureProofs.
Context {TK : Toolkit}.

Lemma lookup_removeItem (o : nat) (e : Editor) :
  lookup_obj o (scene (removeItem o e)) = None.
Proof.
  unfold removeItem. cbn [scene with_scene].
  induction (scene e) as [|x r IH]; [reflexivity|].
  simpl. destruct (Nat.eqb (oid x) o) eqn:E; simpl; [exact IH|].
  rewrite E. exact IH.
Qed.

Lemma release_undersized_memo (ev : MouseEvent) (e : Editor) (o : nat) :
  button ev = LeftButton ->
  undersized_drag_memo e = Some o ->
  exists e', _on_mouse_release ev e = Ok e' /\ memo_discarded o e e'.
Proof.
  intros Hb Hu. unfold _on_mouse_release. rewrite Hb, Hu. cbn [MouseButton_eqb negb].
  eexists. split; [reflexivity|]. unfold memo_discarded.
  split.
  { unfold _reset_mouse_drag. cbn [scene with_drag].
    rewrite (proj1 (_end_edit_scene _)). apply lookup_removeItem. }
  split; [reflexivity|]. split; [reflexivity|]. split; [reflexivity|].
  split; [reflexivity|].
  intros Hk He. cbn [hist _dirty _reset_mouse_drag with_drag].
  unfold _end_edit.
  assert (Eh : hist (removeItem o e) = hist e) by reflexivity.
  rewrite Eh, Hk, He. cbv zeta.
  destruct (differs_from_top _ _); repeat split; reflexivity.
Qed.

(** C6, as the code has it.  On the release of the left button, with the object
    [o] being dragged: a memo line shorter than 8, and a free stroke whose
    bounding box is under 6 in width and in height, are removed from the
    scene and the drag state is reset, the history and the dirty flag
    being left to [_end_edit] (see [memo_discarded]: when the snapshot of
    the scene without the stroke equals the top of the undo stack, both
    stacks and the flag stay as they are; when it differs, it is pushed and
    the dialog is flagged dirty); a circle being created whose
    press-to-release distance is under max(width, height) + 10 is removed,
    the drag state is reset and the history is untouched. *)
Theorem undersized_gesture_is_discarded (e : Editor) (ev : MouseEvent) (o : nat) :
  button ev = LeftButton ->
  _drag_item (drag e) = Some o ->
  (forall l s,
      lookup_obj o (scene e) = Some (IMemoLine l s) ->
      QLineF_length l < 8 ->
      exists e', _on_mouse_release ev e = Ok e' /\ memo_discarded o e e') /\
  (forall pts s,
      lookup_obj o (scene e) = Some (IMemoFreePath pts s) ->
      rw (points_boundingRect pts) < 6 -> rh (points_boundingRect pts) < 6 ->
      exists e', _on_mouse_release ev e = Ok e' /\ memo_discarded o e e') /\
  (forall m pp,
      lookup_obj o (scene e) = Some (IMark m) ->
      is_circle (shape m) = true ->
      _drag_mode (drag e) = CREATE ->
      _press_pos (drag e) = Some pp ->
      QLineF_length (mkLine pp (scene_pos ev))
      < Qmax (rw (boundingRect m)) (rh (boundingRect m)) + 10 ->
      exists e', _on_mouse_release ev e = Ok e' /\
                 lookup_obj o (scene e') = None /\
                 _drag_mode (drag e') = NONE /\ _drag_item (drag e') = None /\
                 hist e' = hist e).
Proof.
  intros Hb Hd. split; [|split].
  - intros l s El Hl. apply release_undersized_memo; [exact Hb|].
    unfold undersized_drag_memo, drag_object. rewrite Hd, El.
    unfold undersized_memo, MIN_MEMO_LINE_LEN.
    rewrite (proj2 (Qltb_lt _ _) Hl). reflexivity.
  - intros pts s El Hw Hh. apply release_undersized_memo; [exact Hb|].
    unfold undersized_drag_memo, drag_object. rewrite Hd, El.
    unfold undersized_memo, MIN_MEMO_PATH_SIZE. cbv zeta.
    rewrite (proj2 (Qltb_lt _ _) Hw), (proj2 (Qltb_lt _ _) Hh). reflexivity.
  - intros m pp El Hc Hm Hp Hlen.
    unfold _on_mouse_release. rewrite Hb. cbn [MouseButton_eqb negb].
    unfold undersized_drag_memo, drag_object. rewrite Hd, El.
    cbn [undersized_memo]. rewrite Hm. cbv zeta.
    assert (E1 : _drag_item (drag (stop_press_timer e)) = Some o) by exact Hd.
    assert (E2 : scene (stop_press_timer e) = scene e) by reflexivity.
    assert (E3 : _press_pos (drag (stop_press_timer e)) = Some pp) by exact Hp.
    rewrite E1, E2, El, E3, Hc. cbn [negb].
    assert (Hs : match shape m with
                 | NoteText _ => false
                 | _ => Qltb (QLineF_length (mkLine pp (scene_pos ev)))
                             (_min_line_length_for_item m)
                 end = true).
    { unfold _min_line_length_for_item. cbv zeta.
      rewrite (proj2 (Qltb_lt _ _) Hlen). destruct (shape m); try reflexivity.
      discriminate. }
    rewrite Hs. unfold update_mark. rewrite E2, El. cbn [bind].
    eexists. split; [reflexivity|].
    split; [apply lookup_removeItem|]. repeat split.
Qed.

End UndersizedGestureProofs.

(* ================================================================== *)
(** * Loading a project file *)
(* ================================================================== *)

Section LoaderProofs.
Context {TK : Toolkit}.

Lemma dict_or_empty_mapping (dm : PyDict) : Models.dict_or_empty (VDict dm) = Ok dm.
Proof. unfold Models.dict_or_empty, py_or. destruct dm; reflexivity. Qed.

Lemma normalize_default_inspection (dm : PyDict) :
  Models.normalize_subpart_inspections (Models.default_inspection dm)
  = Ok (Models.default_inspection dm).
Proof.
  unfold Models.normalize_subpart_inspections, Models.default_inspection.
  cbn [for_each Models.normalize_entry dict_get String.eqb Ascii.eqb Bool.eqb].
  rewrite dict_or_empty_mapping. reflexivity.
Qed.

Lemma legacy_subpart_spec (pd dm : PyDict) (n : nat) :
  dict_get_default pd "defects" (VDict []) = VDict dm ->
  exists sp,
    Models.legacy_subpart pd n = Ok (sp, S n) /\
    Models.sp_name sp = dict_get_default pd "name" (VStr "") /\
    Models.sp_image_path sp = dict_get_default pd "image_path" (VStr "") /\
    Models.inspections sp = Models.default_inspection dm.
Proof.
  intro Hd. unfold Models.legacy_subpart, Models.bindM, Models.lift, Models.ret, Models.new_id.
  rewrite Hd, dict_or_empty_mapping.
  fold (Models.default_inspection dm). rewrite normalize_default_inspection.
  eexists. split; [reflexivity|]. repeat split.
Qed.

Lemma subpart_from_dict_spec (sd dm : PyDict) (n : nat) :
  dict_get sd "defects" = Some (VDict dm) ->
  dict_get sd "inspections" = None ->
  exists sp,
    Models.subpart_from_dict (VDict sd) n = Ok (sp, S n) /\
    Models.sp_name sp = dict_get_default sd "name" (VStr "") /\
    Models.sp_image_path sp = dict_get_default sd "image_path" (VStr "") /\
    Models.inspections sp = Models.default_inspection dm.
Proof.
  intros Hd Hi.
  unfold Models.subpart_from_dict, Models.bindM, Models.lift, Models.ret, Models.new_id.
  unfold dict_get_default. rewrite Hi, Hd.
  change (Models.dict_or_empty (VDict [])) with (Ok (@nil (string * PyVal))).
  cbv beta iota. rewrite dict_or_empty_mapping.
  fold (Models.default_inspection dm). rewrite normalize_default_inspection.
  eexists. split; [reflexivity|]. repeat split.
Qed.

Lemma mapM_Forall2 {A B : Type} (f : A -> Models.M B) (l : list A) :
  forall (n n' : nat) (bs : list B),
    Models.mapM f l n = Ok (bs, n') ->
    Forall2 (fun a b => exists k k', f a k = Ok (b, k')) l bs.
Proof.
  induction l as [|a l IH]; intros n n' bs E; simpl in E.
  - inversion E. constructor.
  - unfold Models.bindM, Models.ret in E.
    destruct (f a n) as [[b n1]|] eqn:Ea; [|discriminate].
    destruct (Models.mapM f l n1) as [[bs1 n2]|] eqn:El; [|discriminate].
    inversion E; subst. constructor; [eauto | eapply IH; eauto].
Qed.

Lemma mapM_total {A B : Type} (f : A -> Models.M B) (l : list A) :
  (forall a, In a l -> forall k, exists b k', f a k = Ok (b, k')) ->
  forall n, exists bs n', Models.mapM f l n = Ok (bs, n').
Proof.
  induction l as [|a l IH]; intros H n; simpl.
  - eexists. eexists. reflexivity.
  - unfold Models.bindM, Models.ret.
    destruct (H a (or_introl eq_refl) n) as (b & n1 & ->).
    destruct (IH (fun x Hx => H x (or_intror Hx)) n1) as (bs & n2 & ->).
    eexists. eexists. reflexivity.
Qed.

(** C9.  What [Project.from_dict] makes of the older formats.  (1) A
    part without a [subparts] key, whose [defects] is a mapping (or is
    absent, which counts as the empty one), loads as a part with exactly
    one sub-part, which has the part's [image_path] and the inspections
    [{"DEFAULT": {"defects": defects}}].  (2) A sub-part with a [defects]
    mapping and no [inspections] key loads with the inspections
    [{"DEFAULT": {"defects": defects}}].  (3, 4) The sub-parts of a loaded
    part and the parts of a loaded project are the results of these two
    loaders on the entries of the file, in order; and the project loads
    whenever its [building] and each of its parts do. *)
Theorem legacy_formats_migrate_to_DEFAULT :
  (forall (pd dm : PyDict) (n : nat),
      dict_get pd "subparts" = None ->
      dict_get_default pd "defects" (VDict []) = VDict dm ->
      exists sp part,
        Models.part_from_dict (VDict pd) n = Ok (part, S (S n)) /\
        Models.subparts part = [sp] /\
        Models.sp_image_path sp = dict_get_default pd "image_path" (VStr "") /\
        Models.inspections sp = [("DEFAULT", VDict [("defects", VDict dm)])]) /\
  (forall (sd dm : PyDict) (n : nat),
      dict_get sd "defects" = Some (VDict dm) ->
      dict_get sd "inspections" = None ->
      exists sp,
        Models.subpart_from_dict (VDict sd) n = Ok (sp, S n) /\
        Models.sp_image_path sp = dict_get_default sd "image_path" (VStr "") /\
        Models.inspections sp = [("DEFAULT", VDict [("defects", VDict dm)])]) /\
  (forall (pd : PyDict) (sps : list PyVal) (part : Models.Part) (n n' : nat),
      dict_get pd "subparts" = Some (VList sps) ->
      Models.part_from_dict (VDict pd) n = Ok (part, n') ->
      Forall2 (fun s sp => exists k k', Models.subpart_from_dict s k = Ok (sp, k'))
              sps (Models.subparts part)) /\
  (forall (dd : PyDict) (ps : list PyVal) (n : nat),
      dict_get dd "parts" = Some (VList ps) ->
      (forall (proj : Models.Project) (n' : nat),
          Models.from_dict (VDict dd) n = Ok (proj, n') ->
          Forall2 (fun p part => exists k k', Models.part_from_dict p k = Ok (part, k'))
                  ps (Models.parts proj)) /\
      (is_ok (Models.building_from_dict dd) = true ->
       (forall p, In p ps -> forall k, exists part k',
             Models.part_from_dict p k = Ok (part, k')) ->
       exists proj n', Models.from_dict (VDict dd) n = Ok (proj, n'))).
Proof.
  split; [|split; [|split]].
  - intros pd dm n Hs Hd.
    destruct (legacy_subpart_spec pd dm n Hd) as (sp & E & _ & Hi & Hn).
    unfold Models.part_from_dict, Models.bindM, Models.ret, Models.new_id.
    rewrite Hs, E. eexists. eexists. split; [reflexivity|].
    split; [reflexivity|]. split; [exact Hi | exact Hn].
  - intros sd dm n Hd Hi.
    destruct (subpart_from_dict_spec sd dm n Hd Hi) as (sp & E & _ & Hp & Hn).
    exists sp. auto.
  - intros pd sps part n n' Hs E.
    unfold Models.part_from_dict, Models.bindM, Models.ret, Models.new_id, Models.lift in E.
    rewrite Hs in E. cbn [py_iter] in E.
    destruct (Models.mapM Models.subpart_from_dict sps n) as [[l n1]|] eqn:El; [|discriminate].
    inversion E; subst. simpl. apply (mapM_Forall2 _ _ _ _ _ El).
  - intros dd ps n Hp.
    assert (Ep : py_iter (py_or (dict_get_default dd "parts" (VList [])) (VList [])) = Ok ps).
    { unfold dict_get_default. rewrite Hp. unfold py_or. destruct ps; reflexivity. }
    split.
    + intros proj n' E.
      unfold Models.from_dict, Models.bindM, Models.ret, Models.new_id, Models.lift in E.
      rewrite Ep in E.
      destruct (Models.building_from_dict dd) as [b|]; [|discriminate].
      destruct (Models.mapM Models.part_from_dict ps n) as [[l n1]|] eqn:El; [|discriminate].
      inversion E; subst. simpl. apply (mapM_Forall2 _ _ _ _ _ El).
    + intros Hb Hall.
      unfold Models.from_dict, Models.bindM, Models.ret, Models.new_id, Models.lift.
      rewrite Ep.
      destruct (Models.building_from_dict dd) as [b|]; [|discriminate].
      destruct (mapM_total Models.part_from_dict ps Hall n) as (l & n1 & ->).
      eexists. eexists. reflexivity.
Qed.

End LoaderProofs.

Section ConcreteSnapshots.
#[local] Existing Instance Reference.toolkit.

Lemma snapshot_round_trip_witness :
  exists e' ms',
    _restore_snapshot (_make_snapshot editor_with_circle) editor_with_circle = Ok e' /\
    marks_of (scene e') = rev ms' /\
    Forall2 (fun m m' => restored_from m m' /\ (keeps_its_data m -> same_mark_data m m'))
            (marks_of (scene editor_with_circle)) ms' /\
    memo_records (scene e') = rev (memo_records (scene editor_with_circle)).
Proof.
  apply (snapshot_round_trip editor_with_circle "plan.png"); reflexivity.
Defined.

(** C2, as stated, fails.  The square placed by a double click has an
    internal id and no [defect_info]; restoring the snapshot of that scene
    yields a square whose [defect_info] is [{}] (and whose [display_id] is
    [None]), so the snapshot of the restored scene is not equal to the one
    it was restored from. *)
Lemma restored_square_gains_defect_info :
  exists m e' m',
    marks_of (scene editor_with_square) = [m] /\
    shape m = SquareMark 36 /\
    defect_info m = None /\
    _restore_snapshot (_make_snapshot editor_with_square) editor_with_square = Ok e' /\
    marks_of (scene e') = [m'] /\
    internal_id m' = internal_id m /\
    defect_info m' = Some (VDict []) /\
    py_eq (_make_snapshot e') (_make_snapshot editor_with_square) = false.
Proof.
  eexists. eexists. eexists.
  split; [vm_compute; reflexivity|].
  split; [reflexivity|]. split; [reflexivity|].
  split; [vm_compute; reflexivity|].
  split; [reflexivity|]. split; [reflexivity|]. split; [reflexivity|].
  vm_compute. reflexivity.
Qed.

Lemma end_edit_pushes_iff_snapshot_differs_witness :
  (_undo_stack (hist (_end_edit editor_memo_pressed))
   = _undo_stack (hist editor_memo_pressed) ++ [_make_snapshot editor_memo_pressed] /\
   _redo_stack (hist (_end_edit editor_memo_pressed)) = []) /\
  (_undo_stack (hist (_end_edit (_begin_edit editor_opened)))
   = _undo_stack (hist (_begin_edit editor_opened))) /\
  _end_edit editor_opened = editor_opened.
Proof.
  destruct (end_edit_pushes_iff_snapshot_differs editor_memo_pressed) as [H1 _].
  destruct (H1 eq_refl eq_refl) as [Hpush _].
  destruct (end_edit_pushes_iff_snapshot_differs (_begin_edit editor_opened)) as [H2 _].
  destruct (H2 eq_refl eq_refl) as [_ Hsame].
  destruct (end_edit_pushes_iff_snapshot_differs editor_opened) as [_ H3].
  split; [|split].
  - apply Hpush. intros top Ht. vm_compute in Ht. inversion Ht; subst top.
    vm_compute. reflexivity.
  - eapply Hsame; [vm_compute; reflexivity | vm_compute; reflexivity].
  - apply H3. right. vm_compute. discriminate.
Defined.

Lemma undo_redo_always_mark_dirty_witness :
  exists e', undo editor_with_circle = Ok e' /\ _dirty e' = true /\
             dirtyChanged e' = S (dirtyChanged editor_with_circle) /\
             scene e' = scene editor_with_circle_undone.
Proof.
  destruct (undo_redo_always_mark_dirty editor_with_circle editor_with_circle_undone)
    as [H _].
  apply H.
  - vm_compute. lia.
  - vm_compute. reflexivity.
Defined.



Lemma renumbering_is_dense_and_ordered_witness :
  reachable editor_two_circles /\
  exists e',
    _renumber_circle_ids editor_two_circles = Ok e' /\
    Permutation (circle_ids (scene e'))
                (map (fun k => Some (VInt (Z.of_nat k)))
                     (seq 1 (length (circle_ids (scene editor_two_circles))))) /\
    (forall a b na nb,
        circle_id_of a (scene editor_two_circles) = Some na ->
        circle_id_of b (scene editor_two_circles) = Some nb ->
        (na < nb)%Z ->
        exists ia ib,
          circle_id_of a (scene e') = Some ia /\
          circle_id_of b (scene e') = Some ib /\
          (ia < ib)%Z).
Proof.
  assert (R : reachable editor_two_circles).
  { exists 10, "plan.png", two_circles_actions. vm_compute. reflexivity. }
  split; [exact R | apply (renumbering_is_dense_and_ordered _ R)].
Defined.

Lemma double_click_guard_checks_topmost_item_witness :
  (scene (fst (_on_mouse_double_click click_on_circle_number editor_with_circle))
   = scene editor_with_circle /\
   snd (_on_mouse_double_click click_on_circle_number editor_with_circle) = false) /\
  _press_timer (drag (fst (_on_mouse_press click_on_circle_number editor_with_circle)))
  = _press_timer (drag editor_with_circle) /\
  exists m sc,
    snd (_on_mouse_double_click click_on_covered_circle editor_covered_circle) = true /\
    scene (fst (_on_mouse_double_click click_on_covered_circle editor_covered_circle))
    = mkObj (next_oid editor_covered_circle) (IMark m) :: sc /\
    pos m = scene_pos click_on_covered_circle /\
    map oid sc = map oid (scene editor_covered_circle).
Proof.
  destruct (double_click_guard_checks_topmost_item editor_with_circle click_on_circle_number)
    as (H1 & H2 & _).
  destruct (double_click_guard_checks_topmost_item editor_covered_circle
              click_on_covered_circle) as (_ & _ & H3).
  split; [|split].
  - apply (H1 _ _ eq_refl). simpl. discriminate.
  - apply H2. exists (GI (HMark 0) None). split; [simpl; auto | simpl; discriminate].
  - apply (H3 _ _ eq_refl eq_refl eq_refl); [vm_compute; discriminate | reflexivity | reflexivity].
Defined.

(** C5, as stated, fails for a mark that lies under another item.  In a
    scene reached by placing a circle at (100, 100) and drawing a memo line
    across it, the pointer at (100, 100) lies over the circle; the double
    click there with the square tool adds a square at (100, 100). *)
Lemma double_click_on_covered_circle_adds_square :
  reachable editor_covered_circle /\
  over_a_mark (hits click_on_covered_circle) /\
  _find_shape_at (hits click_on_covered_circle) = Some 0%nat /\
  _can_create_at (hits click_on_covered_circle) = true /\
  (exists c, lookup_obj 0 (scene editor_covered_circle) = Some (IMark c) /\
             shape c = CircleMark 18 /\ pos c = mkPoint 100 100) /\
  length (scene editor_covered_circle) = 2%nat /\
  exists m,
    lookup_obj 2 (scene (fst (_on_mouse_double_click click_on_covered_circle
                                editor_covered_circle)))
    = Some (IMark m) /\
    shape m = SquareMark 36 /\ pos m = mkPoint 100 100 /\
    length (scene (fst (_on_mouse_double_click click_on_covered_circle
                          editor_covered_circle))) = 3%nat.
Proof.
  split.
  { exists 10, "plan.png", covered_circle_actions. vm_compute. reflexivity. }
  split.
  { exists (GI (HMark 0) None). split; [simpl; auto | simpl; discriminate]. }
  split; [reflexivity|]. split; [reflexivity|].
  split.
  { eexists. split; [vm_compute; reflexivity|]. split; reflexivity. }
  split; [vm_compute; reflexivity|].
  eexists. split; [vm_compute; reflexivity|].
  split; [reflexivity|]. split; [reflexivity|]. vm_compute. reflexivity.
Qed.

Lemma undersized_gesture_is_discarded_witness :
  (exists e', _on_mouse_release (left_at (mkPoint 20 20) []) editor_memo_pressed = Ok e' /\
              memo_discarded 0 editor_memo_pressed e') /\
  (exists e', _on_mouse_release (left_at (mkPoint 22 23) []) editor_free_pressed = Ok e' /\
              memo_discarded 0 editor_free_pressed e') /\
  (exists e', _on_mouse_release (left_at (mkPoint 205 200) []) editor_circle_dragged = Ok e' /\
              lookup_obj 0 (scene e') = None /\
              _drag_mode (drag e') = NONE /\ _drag_item (drag e') = None /\
              hist e' = hist editor_circle_dragged).
Proof.
  assert (D1 : _drag_item (drag editor_memo_pressed) = Some 0%nat)
    by (vm_compute; reflexivity).
  assert (D2 : _drag_item (drag editor_free_pressed) = Some 0%nat)
    by (vm_compute; reflexivity).
  assert (D3 : _drag_item (drag editor_circle_dragged) = Some 0%nat)
    by (vm_compute; reflexivity).
  destruct (undersized_gesture_is_discarded editor_memo_pressed
              (left_at (mkPoint 20 20) []) 0 eq_refl D1) as (H1 & _ & _).
  destruct (undersized_gesture_is_discarded editor_free_pressed
              (left_at (mkPoint 22 23) []) 0 eq_refl D2) as (_ & H2 & _).
  destruct (undersized_gesture_is_discarded editor_circle_dragged
              (left_at (mkPoint 205 200) []) 0 eq_refl D3) as (_ & _ & H3).
  split; [|split].
  - apply (H1 (mkLine (mkPoint 20 20) (mkPoint 20 20)) false);
      [vm_compute; reflexivity | vm_compute; reflexivity].
  - apply (H2 [mkPoint 20 20; mkPoint 22 23] false);
      [vm_compute; reflexivity | vm_compute; reflexivity | vm_compute; reflexivity].
  - destruct (lookup_obj 0 (scene editor_circle_dragged)) as [[m| |]|] eqn:Em;
      try (vm_compute in Em; discriminate).
    apply (H3 m (mkPoint 200 200) eq_refl).
    + (vm_compute in Em; inversion Em; reflexivity).
    + (vm_compute; reflexivity).
    + (vm_compute; reflexivity).
    + (vm_compute in Em; inversion Em; vm_compute; reflexivity).
Defined.

(** In a dialog opened without saved defects the top of the undo stack
    is the snapshot of the scene, and a memo line pressed and released at
    the same point leaves the scene, the undo stack and the dirty flag as
    they were. *)
Lemma undersized_memo_in_fresh_dialog :
  exists e',
    _on_mouse_release (left_at (mkPoint 20 20) []) editor_memo_pressed = Ok e' /\
    scene e' = scene editor_opened /\
    _undo_stack (hist e') = _undo_stack (hist editor_opened) /\
    _redo_stack (hist e') = [] /\
    _dirty e' = false.
Proof.
  eexists. split; [vm_compute; reflexivity|].
  split; [vm_compute; reflexivity|]. split; [vm_compute; reflexivity|].
  split; reflexivity.
Qed.

(** C6 fails for the undo stack in a dialog opened on saved defects.
    There [_load_defects] has put [get_defects()] on the undo stack as the
    baseline, a dict with no [__version__] and no [memos], where
    [__init__] and [save_if_dirty] put [_make_snapshot()]; a memo line
    pressed and released at the same point is removed from the scene, and
    [_end_edit] then pushes the snapshot of the (unchanged) scene and
    flags the dialog dirty. *)
Lemma undersized_memo_pushes_snapshot :
  undersized_drag_memo editor_reopened_memo_pressed = Some 0%nat /\
  scene editor_reopened = [] /\
  _undo_stack (hist editor_reopened_memo_pressed) = [VDict [("items", VList [])]] /\
  _dirty editor_reopened_memo_pressed = false /\
  exists e',
    _on_mouse_release (left_at (mkPoint 20 20) []) editor_reopened_memo_pressed = Ok e' /\
    scene e' = [] /\
    _undo_stack (hist e')
    = [VDict [("items", VList [])];
       VDict [("items", VList []); ("__version__", VInt 1); ("memos", VList [])]] /\
    _dirty e' = true.
Proof.
  split; [vm_compute; reflexivity|]. split; [vm_compute; reflexivity|].
  split; [vm_compute; reflexivity|]. split; [vm_compute; reflexivity|].
  eexists. split; [vm_compute; reflexivity|].
  split; [reflexivity|]. split; reflexivity.
Qed.

Lemma legacy_formats_migrate_to_DEFAULT_witness :
  (exists sp part,
      Models.part_from_dict (VDict oldest_part) 0%nat = Ok (part, 2%nat) /\
      Models.subparts part = [sp] /\
      Models.sp_image_path sp = VStr "1f.png" /\
      Models.inspections sp = [("DEFAULT", VDict [("defects", VDict saved_defects)])]) /\
  (exists sp,
      Models.subpart_from_dict (VDict old_subpart) 0%nat = Ok (sp, 1%nat) /\
      Models.sp_image_path sp = VStr "2f_a.png" /\
      Models.inspections sp = [("DEFAULT", VDict [("defects", VDict saved_defects)])]) /\
  (exists proj n',
      Models.from_dict (VDict old_project) 0%nat = Ok (proj, n') /\
      Forall2 (fun p part => exists k k', Models.part_from_dict p k = Ok (part, k'))
              [VDict oldest_part; VDict part_with_old_subpart] (Models.parts proj) /\
      forall part,
        nth_error (Models.parts proj) 1 = Some part ->
        Forall2 (fun s sp => exists k k', Models.subpart_from_dict s k = Ok (sp, k'))
                [VDict old_subpart] (Models.subparts part)).
Proof.
  destruct legacy_formats_migrate_to_DEFAULT as (H1 & H2 & H3 & H4).
  split; [|split].
  - apply (H1 oldest_part saved_defects 0%nat); reflexivity.
  - apply (H2 old_subpart saved_defects 0%nat); reflexivity.
  - destruct (H4 old_project [VDict oldest_part; VDict part_with_old_subpart] 0%nat eq_refl)
      as [H4a H4b].
    destruct H4b as (proj & n' & E).
    + reflexivity.
    + intros p [<-|[<-|[]]] k.
      * destruct (H1 oldest_part saved_defects k eq_refl eq_refl) as (sp & part & E & _).
        eauto.
      * destruct (H2 old_subpart saved_defects k eq_refl eq_refl) as (sp & E & _).
        unfold Models.part_from_dict, Models.bindM, Models.lift, Models.ret, Models.new_id.
        cbn [dict_get part_with_old_subpart String.eqb Ascii.eqb Bool.eqb py_iter Models.mapM].
        unfold Models.bindM, Models.ret. rewrite E. eauto.
    + exists proj, n'. split; [exact E|]. split; [exact (H4a proj n' E)|].
      intros part Hp.
      pose proof (H4a proj n' E) as F.
      destruct (Models.parts proj) as [|part0 [|part1 rest]];
        try discriminate.
      simpl in Hp. inversion Hp; subst part1.
      inversion F as [|p0 q0 ps0 parts0 _ F1]; subst.
      inversion F1 as [|p1 q1 ps1 parts1 (k & k' & E1) _]; subst.
      apply (H3 part_with_old_subpart [VDict old_subpart] part k k' eq_refl E1).
Defined.

End ConcreteSnapshots.
(* ================================================================== *)
(** * The inspection helpers of models.py *)
(* ================================================================== *)

Lemma dict_set_same (d : PyDict) (k : string) (v : PyVal) :
  dict_get d k = Some v -> dict_set d k v = d.
Proof.
  induction d as [|[k' v'] d IH]; simpl; [discriminate|].
  destruct (String.eqb k' k) eqn:E.
  - intro H. inversion H; subst. apply String.eqb_eq in E. subst. reflexivity.
  - intro H. rewrite (IH H). reflexivity.
Qed.

Lemma dict_set_keys (d : PyDict) (k : string) (v : PyVal) :
  dict_get d k <> None -> map fst (dict_set d k v) = map fst d.
Proof.
  induction d as [|[k' v'] d IH]; simpl; [congruence|].
  destruct (String.eqb k' k) eqn:E.
  - intros _. apply String.eqb_eq in E. subst. reflexivity.
  - intro H. simpl. rewrite (IH H). reflexivity.
Qed.

Lemma dict_set_new (d : PyDict) (k : string) (v : PyVal) :
  dict_get d k = None -> dict_set d k v = d ++ [(k, v)].
Proof.
  induction d as [|[k' v'] d IH]; simpl; [reflexivity|].
  destruct (String.eqb k' k); [discriminate|].
  intro H. rewrite (IH H). reflexivity.
Qed.

Lemma dict_get_In (d : PyDict) (k : string) (v : PyVal) :
  dict_get d k = Some v -> In (k, v) d.
Proof.
  induction d as [|[k' v'] d IH]; simpl; [discriminate|].
  destruct (String.eqb k' k) eqn:E.
  - intro H. inversion H; subst. apply String.eqb_eq in E. subst. auto.
  - auto.
Qed.

Lemma dict_get_None_notin (d : PyDict) (k : string) :
  dict_get d k = None <-> ~ In k (map fst d).
Proof.
  induction d as [|[k' v'] d IH]; simpl; [tauto|].
  destruct (String.eqb_spec k' k).
  - split; [discriminate | intro H; exfalso; apply H; auto].
  - rewrite IH. split; [intros H [H1|H1]; [congruence | auto] | auto].
Qed.

Lemma NoDup_dict_get (d : PyDict) (k : string) (v : PyVal) :
  NoDup (map fst d) -> In (k, v) d -> dict_get d k = Some v.
Proof.
  induction d as [|[k' v'] d IH]; simpl; [tauto|].
  intros ND [H|H].
  - inversion H; subst. rewrite String.eqb_refl. reflexivity.
  - inversion ND as [|? ? Hn ND']; subst.
    destruct (String.eqb_spec k' k).
    + subst. exfalso. apply Hn. apply (in_map fst) in H. exact H.
    + apply IH; assumption.
Qed.

Lemma dict_get_set_other (d : PyDict) (k k' : string) (v : PyVal) :
  k <> k' -> dict_get (dict_set d k v) k' = dict_get d k'.
Proof. intro N. apply dict_get_set_ne. apply String.eqb_neq. exact N. Qed.

Section InspectionProofs.

Lemma shaped_wrap (d : PyDict) : Helpers.has_defects_dict (VDict [("defects", VDict d)]).
Proof. exists [("defects", VDict d)], d. split; reflexivity. Qed.

Lemma normalize_entry_value (k : string) (v : PyVal) (s s' : PyDict) :
  Models.normalize_entry (k, v) s = Ok s' ->
  exists w, s' = dict_set s k w /\ Helpers.has_defects_dict w.
Proof.
  unfold Models.normalize_entry. intro E.
  destruct v as [|b|z|q|str|l|vd]; try discriminate.
  - inversion E; subst. eexists. split; [reflexivity | apply shaped_wrap].
  - destruct (index 0 "defects" str); [discriminate|].
    bind_ok E. inversion E; subst. eexists. split; [reflexivity | apply shaped_wrap].
  - destruct (existsb _ l); [discriminate|].
    bind_ok E. inversion E; subst. eexists. split; [reflexivity | apply shaped_wrap].
  - destruct (dict_get vd "defects") as [dv|] eqn:Ed.
    + bind_ok E. inversion E; subst. eexists. split; [reflexivity|].
      exists (dict_set vd "defects" (VDict a)), a. split; [reflexivity|].
      apply dict_get_set_eq.
    + inversion E; subst. eexists. split; [reflexivity | apply shaped_wrap].
Qed.

Lemma normalize_loop (l : list (string * PyVal)) : forall s s' : PyDict,
  for_each Models.normalize_entry l s = Ok s' ->
  (forall k, In k (map fst l) -> dict_get s k <> None) ->
  map fst s' = map fst s /\
  (forall k, In k (map fst l) -> Helpers.shaped_at s' k) /\
  (forall k, ~ In k (map fst l) -> dict_get s' k = dict_get s k).
Proof.
  induction l as [|[k v] l IH]; intros s s' E Hin; simpl in E.
  - inversion E; subst. split; [reflexivity|]. split; [intros k []|reflexivity].
  - bind_ok E. destruct (normalize_entry_value _ _ _ _ H) as (w & -> & Hw).
    assert (Hk : dict_get s k <> None) by (apply Hin; simpl; auto).
    destruct (IH _ _ E) as (K1 & K2 & K3).
    { intros k' Hk'. destruct (String.eqb_spec k k').
      - subst. rewrite dict_get_set_eq. discriminate.
      - rewrite dict_get_set_other by congruence. apply Hin. simpl. auto. }
    split; [rewrite K1; apply dict_set_keys; exact Hk|]. split.
    + intros k' [Ek|Hk']; [|apply K2; exact Hk'].
      simpl in Ek. subst k'.
      destruct (in_dec string_dec k (map fst l)) as [Hl|Hl]; [apply K2; exact Hl|].
      exists w. split; [|exact Hw]. rewrite (K3 _ Hl). apply dict_get_set_eq.
    + intros k' Hn. simpl in Hn.
      rewrite K3 by tauto. apply dict_get_set_other. intro. subst. tauto.
Qed.

Lemma in_keys_get (d : PyDict) (k : string) :
  In k (map fst d) -> dict_get d k <> None.
Proof. intros H E. apply dict_get_None_notin in E. contradiction. Qed.

Lemma normal_fixed (insp : PyDict) : forall s : PyDict,
  Forall (fun kv => Helpers.has_defects_dict (snd kv) /\ dict_get s (fst kv) = Some (snd kv))
         insp ->
  for_each Models.normalize_entry insp s = Ok s.
Proof.
  induction insp as [|[k v] l IH]; intros s F; simpl; [reflexivity|].
  inversion F as [|? ? [(vd & dm & Ev & Ed) Hg] F']; subst. simpl in *. subst v.
  rewrite Ed. rewrite dict_or_empty_mapping. cbn [bind].
  rewrite (dict_set_same vd "defects" (VDict dm) Ed).
  rewrite (dict_set_same s k (VDict vd) Hg). apply IH. exact F'.
Qed.

(** X1.  For inspections with distinct keys, none of whose lists holds a
    pair with a key that is not a [str], [normalize_subpart_inspections]
    keeps the keys and their order, and when it returns every record is a
    dict with a [defects] dict; inspections that already have this form
    are returned unchanged, so normalizing twice is normalizing once. *)
Theorem normalize_subpart_inspections_normal_form (insp : PyDict) :
  NoDup (map fst insp) ->
  str_keyed (VDict insp) ->
  (forall insp',
      Models.normalize_subpart_inspections insp = Ok insp' ->
      map fst insp' = map fst insp /\ Helpers.normal insp' /\
      Models.normalize_subpart_inspections insp' = Ok insp') /\
  (Helpers.normal insp -> Models.normalize_subpart_inspections insp = Ok insp).
Proof.
  intros ND _.
  assert (Fix : forall i, Helpers.normal i -> Models.normalize_subpart_inspections i = Ok i).
  { intros i [NDi Fi]. apply normal_fixed. rewrite Forall_forall in *.
    intros [k v] Hkv. split; [apply (Fi _ Hkv)|]. simpl.
    apply NoDup_dict_get; assumption. }
  split; [|apply Fix].
  intros insp' E. unfold Models.normalize_subpart_inspections in E.
  destruct (normalize_loop insp insp insp' E (in_keys_get insp)) as (K1 & K2 & _).
  assert (N : Helpers.normal insp').
  { split; [rewrite K1; exact ND|]. apply Forall_forall. intros [k v] Hkv. simpl.
    destruct (K2 k) as (w & Hw & Sw).
    { rewrite <- K1. apply (in_map fst) in Hkv. exact Hkv. }
    assert (Hv : dict_get insp' k = Some v)
      by (apply NoDup_dict_get; [rewrite K1; exact ND | exact Hkv]).
    congruence. }
  split; [exact K1|]. split; [exact N | apply Fix; exact N].
Qed.


Lemma normalize_normal (i : PyDict) :
  Helpers.normal i -> Models.normalize_subpart_inspections i = Ok i.
Proof.
  intros [NDi Fi]. apply normal_fixed. rewrite Forall_forall in *.
  intros [k v] Hkv. split; [apply (Fi _ Hkv)|]. simpl.
  apply NoDup_dict_get; assumption.
Qed.

Lemma normal_app (insp : PyDict) (k : string) (v : PyVal) :
  Helpers.normal insp -> dict_get insp k = None -> Helpers.has_defects_dict v ->
  Helpers.normal (insp ++ [(k, v)]).
Proof.
  intros [ND F] Hk Hv. split.
  - rewrite map_app. simpl. apply NoDup_app.
    + exact ND.
    + constructor; [intros []|constructor].
    + intros x Hx [<-|[]]. apply dict_get_None_notin in Hk. contradiction.
  - apply Forall_app. split; [exact F|]. constructor; [exact Hv|constructor].
Qed.

Lemma normal_get (insp : PyDict) (k : string) (v : PyVal) :
  Helpers.normal insp -> dict_get insp k = Some v -> Helpers.has_defects_dict v.
Proof.
  intros [_ F] H. apply dict_get_In in H. rewrite Forall_forall in F.
  apply (F _ H).
Qed.

Lemma normal_set (insp : PyDict) (k : string) (v : PyVal) :
  Helpers.normal insp -> dict_get insp k <> None -> Helpers.has_defects_dict v ->
  Helpers.normal (dict_set insp k v).
Proof.
  intros [ND F] Hk Hv. split; [rewrite dict_set_keys; assumption|].
  clear ND. induction insp as [|[k' v'] d IH]; simpl in *; [congruence|].
  inversion F; subst. destruct (String.eqb k' k).
  - constructor; assumption.
  - constructor; [assumption | apply IH; assumption].
Qed.

Lemma ensure_inspection_normal (key : string) (insp : PyDict) :
  Helpers.normal insp ->
  Helpers.ensure_inspection key insp
  = Ok (match dict_get insp key with
        | Some _ => insp
        | None => insp ++ [(key, VDict [("defects", VDict [])])]
        end).
Proof.
  intro N. unfold Helpers.ensure_inspection.
  destruct (dict_get insp key) eqn:E.
  - apply normalize_normal. exact N.
  - rewrite (dict_set_new _ _ _ E). apply normalize_normal.
    apply normal_app; [exact N | exact E | apply shaped_wrap].
Qed.

Lemma dict_get_app_new (d : PyDict) (k k' : string) (v : PyVal) :
  dict_get (d ++ [(k, v)]) k'
  = match dict_get d k' with
    | Some x => Some x
    | None => if String.eqb k k' then Some v else None
    end.
Proof.
  induction d as [|[k0 v0] d IH]; simpl; [reflexivity|].
  destruct (String.eqb k0 k'); [reflexivity | exact IH].
Qed.

(** X2.  Reading the defects of an inspection: for a key that exists the
    defects are returned and the inspections stay as they are; for a key
    that does not exist an empty inspection is appended under it and the
    empty dict is returned. *)
Theorem get_defects_creates_missing_inspection (key : string) (insp : PyDict) :
  Helpers.normal insp ->
  (forall vd dm,
      dict_get insp key = Some (VDict vd) -> dict_get vd "defects" = Some (VDict dm) ->
      Helpers.get_defects key insp = Ok (VDict dm, insp)) /\
  (dict_get insp key = None ->
   Helpers.get_defects key insp
   = Ok (VDict [], insp ++ [(key, VDict [("defects", VDict [])])])).
Proof.
  intro N. unfold Helpers.get_defects. rewrite (ensure_inspection_normal key insp N).
  split.
  - intros vd dm E Ed. rewrite E. cbn [bind]. unfold Helpers.inspection_at. rewrite E.
    cbn [bind py_getitem]. rewrite Ed. reflexivity.
  - intro E. rewrite E. cbn [bind]. unfold Helpers.inspection_at.
    rewrite dict_get_app_new, E, String.eqb_refl. reflexivity.
Qed.

(** X3.  [set_defects] followed by [get_defects] under the same key
    returns the dict that was stored ([{}] for [None] or an empty value),
    leaves the inspections as [set_defects] left them, and no other
    inspection is changed by the store. *)
Theorem set_defects_then_get_defects (key : string) (defects : PyVal) (dm insp : PyDict) :
  Helpers.normal insp ->
  Models.dict_or_empty defects = Ok dm ->
  exists insp',
    Helpers.set_defects key defects insp = Ok insp' /\
    Helpers.normal insp' /\
    Helpers.get_defects key insp' = Ok (VDict dm, insp') /\
    (forall k, k <> key -> dict_get insp' k = dict_get insp k) /\
    (dict_get insp key <> None -> map fst insp' = map fst insp).
Proof.
  intros N Hd. unfold Helpers.set_defects.
  rewrite (ensure_inspection_normal key insp N). cbn [bind]. rewrite Hd. cbn [bind].
  set (i1 := match dict_get insp key with
             | Some _ => insp
             | None => insp ++ [(key, VDict [("defects", VDict [])])]
             end).
  assert (N1 : Helpers.normal i1).
  { unfold i1. destruct (dict_get insp key) eqn:E; [exact N|].
    apply normal_app; [exact N | exact E | apply shaped_wrap]. }
  assert (G1 : exists vd, dict_get i1 key = Some (VDict vd)).
  { unfold i1. destruct (dict_get insp key) as [v|] eqn:E.
    - destruct (normal_get _ _ _ N E) as (vd & dm0 & -> & _). eauto.
    - rewrite dict_get_app_new, E, String.eqb_refl. eauto. }
  destruct G1 as (vd & G1). unfold Helpers.inspection_at. rewrite G1. cbn [bind].
  set (newv := VDict (dict_set vd "defects" (VDict dm))).
  assert (Hn : Helpers.has_defects_dict newv).
  { exists (dict_set vd "defects" (VDict dm)), dm. split; [reflexivity|].
    apply dict_get_set_eq. }
  assert (N2 : Helpers.normal (dict_set i1 key newv)).
  { apply normal_set; [exact N1 | congruence | exact Hn]. }
  eexists. split; [reflexivity|]. split; [exact N2|]. split; [|split].
  - unfold Helpers.get_defects. rewrite (ensure_inspection_normal _ _ N2).
    rewrite dict_get_set_eq. cbn [bind]. unfold Helpers.inspection_at.
    rewrite dict_get_set_eq. cbn [bind]. unfold newv. cbn [py_getitem].
    rewrite dict_get_set_eq. reflexivity.
  - intros k Hk. rewrite dict_get_set_other by congruence.
    unfold i1. destruct (dict_get insp key) eqn:E; [reflexivity|].
    rewrite dict_get_app_new. destruct (dict_get insp k); [reflexivity|].
    destruct (String.eqb_spec key k); [congruence | reflexivity].
  - intro Hk. rewrite dict_set_keys by congruence.
    unfold i1. destruct (dict_get insp key); [reflexivity | congruence].
Qed.

(** X4.  [copy_inspection] raises [ValueError] when the destination key
    exists, which is always the case when source and destination are the
    same key; otherwise the record of the source is appended under the
    destination key, the source and every other inspection staying as
    they are (a source that does not exist is first created empty). *)
Theorem copy_inspection_appends_or_raises (src dst : string) (insp : PyDict) :
  Helpers.normal insp ->
  (dict_get insp dst <> None \/ src = dst ->
   Helpers.copy_inspection src dst insp = Raise ValueError) /\
  (forall v,
      src <> dst -> dict_get insp dst = None -> dict_get insp src = Some v ->
      Helpers.copy_inspection src dst insp = Ok (insp ++ [(dst, v)])) /\
  (src <> dst -> dict_get insp dst = None -> dict_get insp src = None ->
   Helpers.copy_inspection src dst insp
   = Ok (insp ++ [(src, VDict [("defects", VDict [])]);
                  (dst, VDict [("defects", VDict [])])])).
Proof.
  intro N. unfold Helpers.copy_inspection.
  rewrite (ensure_inspection_normal src insp N). cbn [bind].
  split; [|split].
  - intros [Hd | ->].
    + destruct (dict_get insp src) eqn:Es.
      * destruct (dict_get insp dst); [reflexivity | congruence].
      * rewrite dict_get_app_new. destruct (dict_get insp dst); [reflexivity | congruence].
    + destruct (dict_get insp dst) eqn:Es; [rewrite Es; reflexivity|].
      rewrite dict_get_app_new, Es, String.eqb_refl. reflexivity.
  - intros v Hne Hd Hs. rewrite Hs, Hd. unfold Helpers.inspection_at. rewrite Hs. cbn [bind].
    rewrite (dict_set_new _ _ _ Hd). apply normalize_normal.
    apply normal_app; [exact N | exact Hd | apply (normal_get _ _ _ N Hs)].
  - intros Hne Hd Hs. rewrite Hs.
    assert (Hd' : dict_get (insp ++ [(src, VDict [("defects", VDict [])])]) dst = None).
    { rewrite dict_get_app_new, Hd. destruct (String.eqb_spec src dst); [congruence|reflexivity]. }
    rewrite Hd'. unfold Helpers.inspection_at.
    rewrite dict_get_app_new, Hs, String.eqb_refl. cbn [bind].
    rewrite (dict_set_new _ _ _ Hd'). rewrite <- app_assoc. simpl.
    replace (insp ++ [(src, VDict [("defects", VDict [])]); (dst, VDict [("defects", VDict [])])])
      with ((insp ++ [(src, VDict [("defects", VDict [])])]) ++ [(dst, VDict [("defects", VDict [])])])
      by (rewrite <- app_assoc; reflexivity).
    apply normalize_normal. apply normal_app; [|exact Hd' | apply shaped_wrap].
    apply normal_app; [exact N | exact Hs | apply shaped_wrap].
Qed.

End InspectionProofs.

(* ================================================================== *)
(** * Writing a project and loading it again *)
(* ================================================================== *)

Section RoundTripProofs.
Context {TK : Toolkit}.

Lemma subpart_from_asdict (sp : Models.SubPart) (n : nat) :
  Helpers.normal (Models.inspections sp) ->
  Models.subpart_from_dict (Helpers.SubPart_asdict sp) n = Ok (sp, S n).
Proof.
  intro N. destruct sp as [i nm img insp]. simpl in N.
  unfold Helpers.SubPart_asdict, Models.subpart_from_dict, Models.bindM, Models.lift,
    Models.ret, Models.new_id.
  cbn [Models.sp_id Models.sp_name Models.sp_image_path Models.inspections].
  cbn [dict_get_default dict_get String.eqb Ascii.eqb Bool.eqb].
  rewrite dict_or_empty_mapping. cbv beta iota.
  rewrite (normalize_normal insp N). reflexivity.
Qed.

Lemma mapM_asdict {A : Type} (f : PyVal -> Models.M A) (g : A -> PyVal) (k : nat)
      (l : list A) :
  (forall a, In a l -> forall n, f (g a) n = Ok (a, (k + n)%nat)) ->
  forall n, Models.mapM f (map g l) n = Ok (l, (k * length l + n)%nat).
Proof.
  induction l as [|a l IH]; intros H n; simpl.
  - rewrite Nat.mul_0_r. reflexivity.
  - unfold Models.bindM, Models.ret. rewrite (H a (or_introl eq_refl)).
    rewrite (IH (fun x Hx => H x (or_intror Hx))).
    f_equal. f_equal. lia.
Qed.

Lemma part_from_asdict (p : Models.Part) (n : nat) :
  (forall sp, In sp (Models.subparts p) -> Helpers.normal (Models.inspections sp)) ->
  Models.part_from_dict (Helpers.Part_asdict p) n
  = Ok (p, S (length (Models.subparts p) + n)).
Proof.
  intro N. destruct p as [i nm sps]. simpl in N.
  unfold Helpers.Part_asdict, Models.part_from_dict, Models.bindM, Models.lift,
    Models.ret, Models.new_id.
  cbn [Models.part_id Models.part_name Models.subparts].
  cbn [dict_get_default dict_get String.eqb Ascii.eqb Bool.eqb py_iter].
  rewrite (mapM_asdict Models.subpart_from_dict Helpers.SubPart_asdict 1 sps).
  - rewrite Nat.mul_1_l. reflexivity.
  - intros sp Hsp k. rewrite (subpart_from_asdict sp k (N sp Hsp)). reflexivity.
Qed.


Lemma mapM_asdict_ex {A : Type} (f : PyVal -> Models.M A) (g : A -> PyVal) (l : list A) :
  (forall a, In a l -> forall n, exists n', f (g a) n = Ok (a, n')) ->
  forall n, exists n', Models.mapM f (map g l) n = Ok (l, n').
Proof.
  induction l as [|a l IH]; intros H n; simpl.
  - eexists. reflexivity.
  - unfold Models.bindM, Models.ret.
    destruct (H a (or_introl eq_refl) n) as (n1 & ->).
    destruct (IH (fun x Hx => H x (or_intror Hx)) n1) as (n2 & ->).
    eexists. reflexivity.
Qed.

Lemma roundtrip_helper (proj : Models.Project) (n : nat) :
  (forall part sp, In part (Models.parts proj) -> In sp (Models.subparts part) ->
                   Helpers.normal (Models.inspections sp)) ->
  exists n', Models.from_dict (Helpers.to_dict proj) n = Ok (proj, n').
Proof.
  intro N. destruct proj as [i b ps]. simpl in N. destruct b as [bn ba bl bm bp].
  unfold Helpers.to_dict, Models.from_dict, Models.bindM, Models.lift, Models.ret,
    Models.new_id, Models.building_from_dict, Helpers.BuildingInfo_asdict.
  cbn [Models.project_id Models.building Models.parts Models.b_name Models.b_address
       Models.b_location Models.b_memo Models.b_photos].
  cbn [dict_get_default dict_get String.eqb Ascii.eqb Bool.eqb py_or truthy
       Models.py_get bind].
  assert (Ep : forall l, py_iter (py_or (VList l) (VList [])) = Ok l)
    by (intros [|x l]; reflexivity).
  rewrite !Ep. cbn [bind].
  destruct (mapM_asdict_ex Models.part_from_dict Helpers.Part_asdict ps) with (n := n)
    as (n1 & ->).
  - intros p Hp k. rewrite (part_from_asdict p k (fun sp Hsp => N p sp Hp Hsp)). eauto.
  - eexists. reflexivity.
Qed.

(** X5.  Loading what [to_dict] wrote gives the project back: for a
    project whose sub-parts have their inspections in normal form,
    [Project.from_dict(project.to_dict())] returns a project equal to the
    original, ids included. *)
Theorem from_dict_to_dict_round_trip (proj : Models.Project) (n : nat) :
  (forall part sp, In part (Models.parts proj) -> In sp (Models.subparts part) ->
                   Helpers.normal (Models.inspections sp)) ->
  exists n', Models.from_dict (Helpers.to_dict proj) n = Ok (proj, n').
Proof. apply roundtrip_helper. Qed.

End RoundTripProofs.

(* ================================================================== *)
(** * What the loader produces *)
(* ================================================================== *)

Section LoadedProofs.
Context {TK : Toolkit}.

Lemma unique_keys_list (l : list PyVal) (x : PyVal) :
  unique_keys (VList l) -> In x l -> unique_keys x.
Proof.
  induction l as [|y l IH]; simpl; [tauto|].
  intros [Hy Hl] [<-|Hx]; [exact Hy | apply IH; assumption].
Qed.

Lemma unique_keys_dict (d : PyDict) (k : string) (v : PyVal) :
  unique_keys (VDict d) -> dict_get d k = Some v -> unique_keys v.
Proof.
  intros [_ H]. induction d as [|[k' v'] d IH]; simpl; [discriminate|].
  destruct H as [Hv Hd]. destruct (String.eqb k' k).
  - intro E. inversion E; subst. exact Hv.
  - apply IH. exact Hd.
Qed.

Lemma unique_keys_iter (v : PyVal) (l : list PyVal) (x : PyVal) :
  unique_keys v -> py_iter v = Ok l -> In x l -> unique_keys x.
Proof.
  intros U E Hx. destruct v; try discriminate; simpl in E; inversion E; subst.
  - apply in_map_iff in Hx. destruct Hx as (c & <- & _). exact I.
  - apply (unique_keys_list _ _ U Hx).
  - apply in_map_iff in Hx. destruct Hx as (kv & <- & _). exact I.
Qed.

Lemma dict_set_NoDup (d : PyDict) (k : string) (v : PyVal) :
  NoDup (map fst d) -> NoDup (map fst (dict_set d k v)).
Proof.
  intro ND. destruct (dict_get d k) eqn:E.
  - rewrite dict_set_keys by congruence. exact ND.
  - rewrite (dict_set_new _ _ _ E), map_app. simpl. apply NoDup_app.
    + exact ND.
    + constructor; [intros []|constructor].
    + intros x Hx [<-|[]]. apply dict_get_None_notin in E. contradiction.
Qed.

Lemma py_dict_NoDup (v : PyVal) (d : PyDict) :
  unique_keys v -> Models.py_dict v = Ok d -> NoDup (map fst d).
Proof.
  intros U E. destruct v; try discriminate; simpl in E.
  - destruct (String.eqb s ""); inversion E. constructor.
  - refine (for_each_invariant (fun s => NoDup (map fst s)) _ _ l [] d E _).
    + intros kv s s' Ekv ND.
      destruct (Models.dict_pair kv) as [[ky x]|]; [|discriminate].
      cbn [bind fst snd] in Ekv. inversion Ekv; subst. apply dict_set_NoDup. exact ND.
    + constructor.
  - inversion E; subst. apply U.
Qed.

Lemma dict_or_empty_NoDup (v : PyVal) (d : PyDict) :
  unique_keys v -> Models.dict_or_empty v = Ok d -> NoDup (map fst d).
Proof.
  unfold Models.dict_or_empty, py_or. intros U E.
  destruct (truthy v); [apply (py_dict_NoDup v d U E)|].
  inversion E. constructor.
Qed.

Lemma unique_keys_default (d : PyDict) (k : string) (dflt : PyVal) :
  unique_keys (VDict d) -> unique_keys dflt -> unique_keys (dict_get_default d k dflt).
Proof.
  intros U Ud. unfold dict_get_default. destruct (dict_get d k) eqn:E; [|exact Ud].
  apply (unique_keys_dict _ _ _ U E).
Qed.

Lemma normalize_gives_normal (insp insp' : PyDict) :
  NoDup (map fst insp) ->
  Models.normalize_subpart_inspections insp = Ok insp' ->
  map fst insp' = map fst insp /\ Helpers.normal insp'.
Proof.
  intros ND E. unfold Models.normalize_subpart_inspections in E.
  destruct (normalize_loop insp insp insp' E (in_keys_get insp)) as (K1 & K2 & _).
  split; [exact K1|]. split; [rewrite K1; exact ND|].
  apply Forall_forall. intros [k v] Hkv. simpl.
  destruct (K2 k) as (w & Hw & Sw).
  { rewrite <- K1. apply (in_map fst) in Hkv. exact Hkv. }
  assert (Hv : dict_get insp' k = Some v)
    by (apply NoDup_dict_get; [rewrite K1; exact ND | exact Hkv]).
  congruence.
Qed.

Lemma Forall2_In_r {A B : Type} (R : A -> B -> Prop) (l : list A) (l' : list B) (y : B) :
  Forall2 R l l' -> In y l' -> exists x, In x l /\ R x y.
Proof.
  induction 1 as [|a b l l' Hab F IH]; intros Hy; [destruct Hy|].
  destruct Hy as [<-|Hy].
  - exists a. simpl. auto.
  - destruct (IH Hy) as (x & Hx & Hr). exists x. simpl. auto.
Qed.

Lemma subpart_loaded_normal (s : PyVal) (sp : Models.SubPart) (n n' : nat) :
  unique_keys s ->
  Models.subpart_from_dict s n = Ok (sp, n') ->
  Helpers.normal (Models.inspections sp).
Proof.
  intros U E. destruct s as [| | | | | |sd]; try discriminate.
  unfold Models.subpart_from_dict, Models.bindM, Models.lift, Models.ret, Models.new_id in E.
  destruct (Models.dict_or_empty (dict_get_default sd "inspections" (VDict []))) as [i0|] eqn:E0;
    [|discriminate].
  assert (U0 : unique_keys (VDict [])) by (simpl; split; [constructor | exact I]).
  assert (ND0 : NoDup (map fst i0)).
  { apply (dict_or_empty_NoDup _ _ (unique_keys_default sd "inspections" _ U U0) E0). }
  assert (ND1 : forall a, NoDup (map fst [("DEFAULT", VDict [("defects", VDict a)])])).
  { intro a. simpl. constructor; [intros [] | constructor]. }
  destruct (dict_get_default sd "defects" VNone); destruct i0 as [|kv i0];
    cbv beta iota in E;
    repeat match type of E with
           | context [Models.dict_or_empty ?v] =>
               destruct (Models.dict_or_empty v); [|discriminate]
           | context [Models.normalize_subpart_inspections ?i] =>
               destruct (Models.normalize_subpart_inspections i) eqn:En; [|discriminate]
           end;
    inversion E; subst; simpl;
    (eapply normalize_gives_normal; [|exact En]); first [exact ND0 | apply ND1].
Qed.

Lemma part_loaded_normal (p : PyVal) (part : Models.Part) (n n' : nat) :
  unique_keys p ->
  Models.part_from_dict p n = Ok (part, n') ->
  forall sp, In sp (Models.subparts part) -> Helpers.normal (Models.inspections sp).
Proof.
  intros U E. destruct p as [| | | | | |pd]; try discriminate.
  unfold Models.part_from_dict, Models.bindM, Models.lift, Models.ret, Models.new_id in E.
  destruct (dict_get pd "subparts") as [v|] eqn:Es.
  - destruct (py_iter v) as [l|] eqn:El; [|discriminate].
    destruct (Models.mapM Models.subpart_from_dict l n) as [[sps k]|] eqn:Em; [|discriminate].
    inversion E; subst. simpl. intros sp Hsp.
    pose proof (mapM_Forall2 _ _ _ _ _ Em) as F.
    assert (Ul : forall x, In x l -> unique_keys x).
    { intros x Hx. apply (unique_keys_iter v l x); [|exact El | exact Hx].
      apply (unique_keys_dict _ _ _ U Es). }
    destruct (Forall2_In_r _ _ _ _ F Hsp) as (x & Hx & k1 & k2 & Ex).
    apply (subpart_loaded_normal x sp k1 k2); [apply Ul; exact Hx | exact Ex].
  - unfold Models.legacy_subpart, Models.bindM, Models.lift, Models.ret, Models.new_id in E.
    destruct (Models.dict_or_empty (dict_get_default pd "defects" (VDict []))) as [ld|];
      [|discriminate].
    destruct (Models.normalize_subpart_inspections _) as [i2|] eqn:En; [|discriminate].
    inversion E; subst. simpl. intros sp [<-|[]]. simpl.
    eapply normalize_gives_normal; [|exact En].
    simpl. constructor; [intros [] | constructor].
Qed.

(** X6.  What [Project.from_dict] loads is in normal form.  For a project
    file whose objects have distinct keys and whose lists hold no pair
    with a key that is not a [str], whenever [Project.from_dict] returns,
    in every sub-part of the loaded project each inspection is a dict
    with a [defects] dict.  So a loaded project is written by [to_dict]
    and loaded again without change. *)
Theorem loaded_project_is_normal (d : PyVal) (proj : Models.Project) (n n' : nat) :
  unique_keys d ->
  str_keyed d ->
  Models.from_dict d n = Ok (proj, n') ->
  (forall part sp, In part (Models.parts proj) -> In sp (Models.subparts part) ->
                   Helpers.normal (Models.inspections sp)) /\
  (forall k : nat, exists k', Models.from_dict (Helpers.to_dict proj) k = Ok (proj, k')).
Proof.
  intros U _ E.
  assert (N : forall part sp, In part (Models.parts proj) -> In sp (Models.subparts part) ->
                              Helpers.normal (Models.inspections sp)).
  { destruct d as [| | | | | |dd]; try discriminate.
    unfold Models.from_dict, Models.bindM, Models.lift, Models.ret, Models.new_id in E.
    destruct (Models.building_from_dict dd) as [b|]; [|discriminate].
    destruct (py_iter _) as [ps|] eqn:Ep; [|discriminate].
    destruct (Models.mapM Models.part_from_dict ps n) as [[parts k]|] eqn:Em; [|discriminate].
    inversion E; subst. simpl.
    pose proof (mapM_Forall2 _ _ _ _ _ Em) as F.
    assert (Ul : forall x, In x ps -> unique_keys x).
    { intros x Hx. refine (unique_keys_iter _ ps x _ Ep Hx).
      unfold py_or. destruct (truthy _); [|exact I].
      apply unique_keys_default; [exact U | exact I]. }
    intros part sp Hp Hsp.
    destruct (Forall2_In_r _ _ _ _ F Hp) as (x & Hx & k1 & k2 & Ex).
    apply (part_loaded_normal x part k1 k2); [apply Ul; exact Hx | exact Ex | exact Hsp]. }
  split; [exact N|].
  intro k. apply roundtrip_helper. exact N.
Qed.

End LoadedProofs.

(* ================================================================== *)
(** * Opening, undo, redo and saving *)
(* ================================================================== *)

Section HistoryMoreProofs.
Context {TK : Toolkit}.

Lemma _load_defects_hist (d : PyVal) (e e' : Editor) :
  _load_defects d e = Ok e' ->
  _undo_stack (hist e') = [VDict (get_defects e')] /\ _redo_stack (hist e') = [] /\
  _undo_block (hist e') = _undo_block (hist e) /\ _editing (hist e') = _editing (hist e).
Proof.
  unfold _load_defects. intro E.
  destruct d; try discriminate. destruct (bg_path e) as [bp|]; [|discriminate].
  bind_ok E. bind_ok E. inversion E; subst. cbn.
  assert (K : hist a0 = hist e).
  { refine (for_each_invariant (fun s => hist s = hist e) _restore_item _ _ _ _ H0 _).
    - intros i s s' Ei Hs. destruct (_restore_item_keeps i s s' Ei) as (L & _). congruence.
    - destruct (open_png_from_path_keeps (VStr bp) (with_scene [] e)) as (L & _).
      rewrite L. reflexivity. }
  rewrite K. auto.
Qed.

Lemma undo_short (e : Editor) :
  (length (_undo_stack (hist e)) < 2)%nat -> undo e = Ok e.
Proof.
  intro H. unfold undo. apply Nat.ltb_lt in H. rewrite H. reflexivity.
Qed.

Lemma redo_empty (e : Editor) : _redo_stack (hist e) = [] -> redo e = Ok e.
Proof. intro H. unfold redo. rewrite H. reflexivity. Qed.

Lemma dialog_opens_clean_facts (radius : Q) (image_path : string) (defects : PyVal)
      (e : Editor) :
  FaultEditorDialog_init radius image_path defects = Ok e ->
  _dirty e = false /\ _undo_block (hist e) = false.
Proof.
  unfold FaultEditorDialog_init. intro E.
  assert (L : _undo_block (hist (open_png_from_path (VStr image_path)
                                   (FaultEditorWidget_init radius))) = false).
  { destruct (open_png_from_path_keeps (VStr image_path) (FaultEditorWidget_init radius))
      as (L & _). rewrite L. reflexivity. }
  revert E L.
  generalize (open_png_from_path (VStr image_path) (FaultEditorWidget_init radius)).
  intros e0 E L.
  destruct (truthy defects).
  - bind_ok E. inversion E; subst.
    destruct (_load_defects_hist _ _ _ H) as (Hu & Hr & Hb & _).
    cbn. rewrite Hb. cbn. auto.
  - cbn [bind] in E. inversion E; subst. cbn. auto.
Qed.

(** X7.  A dialog that has just been opened, with or without saved
    defects, is not dirty, holds exactly one snapshot (the baseline) on
    its undo stack and none on its redo stack; undo and redo leave it as it
    is. *)
Theorem dialog_opens_clean (radius : Q) (image_path : string) (defects : PyVal)
        (e : Editor) :
  FaultEditorDialog_init radius image_path defects = Ok e ->
  _dirty e = false /\
  length (_undo_stack (hist e)) = 1%nat /\
  _redo_stack (hist e) = [] /\
  _undo_block (hist e) = false /\
  undo e = Ok e /\ redo e = Ok e.
Proof.
  unfold FaultEditorDialog_init. intro E.
  assert (H : length (_undo_stack (hist e)) = 1%nat /\ _redo_stack (hist e) = [] /\
              _undo_block (hist e) = false /\ _dirty e = false).
  { assert (L : _undo_block (hist (open_png_from_path (VStr image_path)
                                     (FaultEditorWidget_init radius))) = false).
    { destruct (open_png_from_path_keeps (VStr image_path) (FaultEditorWidget_init radius))
        as (L & _). rewrite L. reflexivity. }
    revert E L.
    generalize (open_png_from_path (VStr image_path) (FaultEditorWidget_init radius)).
    intros e0 E L.
    destruct (truthy defects).
    - bind_ok E. inversion E; subst.
      destruct (_load_defects_hist _ _ _ H) as (Hu & Hr & Hb & _).
      cbn. rewrite Hu, Hr, Hb. cbn. auto.
    - cbn [bind] in E. inversion E; subst. cbn. auto. }
  destruct H as (Hu & Hr & Hb & Hd).
  repeat split; try assumption.
  - apply undo_short. lia.
  - apply redo_empty. exact Hr.
Qed.


Lemma removelast_last {A : Type} (l : list A) (d : A) :
  l <> [] -> removelast l ++ [last l d] = l.
Proof. intro H. symmetry. apply app_removelast_last. exact H. Qed.

Lemma removelast_app_one {A : Type} (l : list A) (x : A) : removelast (l ++ [x]) = l.
Proof. apply removelast_last_app || (rewrite removelast_app by discriminate; simpl; apply app_nil_r). Qed.

Lemma last_app_one {A : Type} (l : list A) (x d : A) : last (l ++ [x]) d = x.
Proof. apply last_last. Qed.

Lemma undo_stacks (e e1 : Editor) :
  (2 <= length (_undo_stack (hist e)))%nat ->
  undo e = Ok e1 ->
  _undo_stack (hist e1) = removelast (_undo_stack (hist e)) /\
  _redo_stack (hist e1) = _redo_stack (hist e) ++ [last (_undo_stack (hist e)) VNone] /\
  _undo_block (hist e1) = false.
Proof.
  intros Hl E. unfold undo in E.
  assert (Hlt : Nat.ltb (length (_undo_stack (hist e))) 2 = false)
    by (apply Nat.ltb_ge; exact Hl).
  rewrite Hlt in E. cbv zeta in E. bind_ok E. inversion E; subst.
  destruct (_restore_snapshot_keeps _ _ _ H) as (K & _).
  cbn. rewrite K. cbn. auto.
Qed.

Lemma redo_stacks (e e1 : Editor) :
  _redo_stack (hist e) <> [] ->
  redo e = Ok e1 ->
  _undo_stack (hist e1) = _undo_stack (hist e) ++ [last (_redo_stack (hist e)) VNone] /\
  _redo_stack (hist e1) = removelast (_redo_stack (hist e)) /\
  _undo_block (hist e1) = false.
Proof.
  intros Hn E. unfold redo in E.
  destruct (_redo_stack (hist e)) as [|x r] eqn:Er; [congruence|].
  cbv zeta in E. bind_ok E. inversion E; subst.
  destruct (_restore_snapshot_keeps _ _ _ H) as (K & _).
  cbn. rewrite K. cbn. rewrite Er. auto.
Qed.

(** X8.  The two stacks under undo and redo.  An undo that has something
    to undo moves the top of the undo stack to the redo stack and leaves
    the undo stack non-empty; with fewer than two entries it does
    nothing.  A redo moves the top of the redo stack back; with an empty
    redo stack it does nothing.  A redo right after an undo, and an undo
    right after a redo, put both stacks back as they were. *)
Theorem undo_and_redo_move_one_snapshot (e e1 e2 : Editor) :
  ((length (_undo_stack (hist e)) < 2)%nat -> undo e = Ok e) /\
  (_redo_stack (hist e) = [] -> redo e = Ok e) /\
  ((2 <= length (_undo_stack (hist e)))%nat -> undo e = Ok e1 ->
   _undo_stack (hist e1) = removelast (_undo_stack (hist e)) /\
   _redo_stack (hist e1) = _redo_stack (hist e) ++ [last (_undo_stack (hist e)) VNone] /\
   _undo_stack (hist e1) <> [] /\
   (redo e1 = Ok e2 ->
    _undo_stack (hist e2) = _undo_stack (hist e) /\
    _redo_stack (hist e2) = _redo_stack (hist e))) /\
  (_redo_stack (hist e) <> [] -> redo e = Ok e1 ->
   _undo_stack (hist e1) = _undo_stack (hist e) ++ [last (_redo_stack (hist e)) VNone] /\
   _redo_stack (hist e1) = removelast (_redo_stack (hist e)) /\
   (undo e1 = Ok e2 -> _undo_stack (hist e) <> [] ->
    _undo_stack (hist e2) = _undo_stack (hist e) /\
    _redo_stack (hist e2) = _redo_stack (hist e))).
Proof.
  split; [apply undo_short|]. split; [apply redo_empty|]. split.
  - intros Hl E. destruct (undo_stacks e e1 Hl E) as (Hu & Hr & _).
    assert (Hne : _undo_stack (hist e) <> []).
    { intro H0. rewrite H0 in Hl. simpl in Hl. lia. }
    split; [exact Hu|]. split; [exact Hr|]. split.
    + rewrite Hu. destruct (_undo_stack (hist e)) as [|a [|b l]]; simpl in *; try lia.
      discriminate.
    + intro E2.
      assert (Hr1 : _redo_stack (hist e1) <> []).
      { rewrite Hr. intro H0. apply app_eq_nil in H0. destruct H0. discriminate. }
      destruct (redo_stacks e1 e2 Hr1 E2) as (Hu2 & Hr2 & _).
      rewrite Hu2, Hr2, Hu, Hr. rewrite last_app_one, removelast_app_one.
      split; [apply removelast_last; exact Hne | reflexivity].
  - intros Hn E. destruct (redo_stacks e e1 Hn E) as (Hu & Hr & _).
    split; [exact Hu|]. split; [exact Hr|].
    intros E2 Hne.
    assert (Hl : (2 <= length (_undo_stack (hist e1)))%nat).
    { rewrite Hu, length_app. simpl.
      destruct (_undo_stack (hist e)); [congruence | simpl; lia]. }
    destruct (undo_stacks e1 e2 Hl E2) as (Hu2 & Hr2 & _).
    rewrite Hu2, Hr2, Hu, Hr. rewrite last_app_one, removelast_app_one.
    split; [reflexivity | apply removelast_last; exact Hn].
Qed.

(** X9.  The baseline and the first edit session.  In a dialog opened
    without saved defects, an edit session that changes nothing records
    nothing.  In a dialog opened with saved defects the baseline is the
    [get_defects()] dict, which has no [__version__] and no [memos], so the
    first edit session records a snapshot and flags the dialog dirty even
    when nothing has changed. *)
Theorem first_edit_session_after_opening (radius : Q) (image_path : string)
        (defects : PyVal) (e : Editor) :
  FaultEditorDialog_init radius image_path defects = Ok e ->
  (truthy defects = false ->
   _undo_stack (hist (_end_edit (_begin_edit e))) = _undo_stack (hist e) /\
   _dirty (_end_edit (_begin_edit e)) = false) /\
  (truthy defects = true ->
   _undo_stack (hist e) = [VDict (get_defects e)] /\
   _undo_stack (hist (_end_edit (_begin_edit e)))
   = [VDict (get_defects e); _make_snapshot e] /\
   _dirty (_end_edit (_begin_edit e)) = true).
Proof.
  intro E. destruct (dialog_opens_clean_facts _ _ _ _ E) as (Hd & Hb).
  unfold FaultEditorDialog_init in E. split; intro Ht; rewrite Ht in E.
  - cbn [bind] in E. inversion E; subst. clear E Hd Hb.
    unfold open_png_from_path. destruct (pixmap_isNull image_path); split; reflexivity.
  - bind_ok E. inversion E; subst. clear E.
    destruct (_load_defects_hist _ _ _ H) as (Hu & Hr & _).
    cbn [hist with_dirty] in Hb |- *.
    assert (Hg : get_defects (with_dirty false a) = get_defects a) by reflexivity.
    assert (Hs : _make_snapshot (with_dirty false a) = _make_snapshot a) by reflexivity.
    rewrite Hg, Hs. split; [exact Hu|].
    unfold _end_edit, _begin_edit. cbn [hist with_dirty]. rewrite Hb.
    cbn [hist with_hist with_editing _undo_block _editing _undo_stack]. rewrite Hb.
    cbv zeta.
    assert (Hm : _make_snapshot (with_hist (with_editing (Some true) (hist a)) (with_dirty false a))
                 = _make_snapshot a) by reflexivity.
    rewrite Hm. rewrite Hu.
    assert (Hdiff : differs_from_top [VDict (get_defects a)] (_make_snapshot a) = true)
      by reflexivity.
    rewrite Hdiff. split; reflexivity.
Qed.


(** X10.  Saving cuts the history.  When the dialog is not dirty,
    [save_if_dirty] emits nothing and changes nothing.  When it is dirty,
    the defects of the scene are emitted, the scene stays as it is, the
    dialog is clean, the undo stack holds the snapshot of the saved scene
    and nothing else, so that undo and redo do nothing and a second save
    emits nothing. *)
Theorem save_cuts_the_history (e : Editor) :
  (_dirty e = false -> save_if_dirty e = (e, None)) /\
  (_dirty e = true ->
   let e' := fst (save_if_dirty e) in
   snd (save_if_dirty e) = Some (get_defects e) /\
   scene e' = scene e /\
   _dirty e' = false /\
   _undo_stack (hist e') = [_make_snapshot e] /\
   _redo_stack (hist e') = [] /\
   undo e' = Ok e' /\ redo e' = Ok e' /\
   save_if_dirty e' = (e', None)).
Proof.
  unfold save_if_dirty. split; intro Hd; rewrite Hd; cbn [negb fst snd].
  - reflexivity.
  - cbv zeta. repeat split.
Qed.

End HistoryMoreProofs.

(* ================================================================== *)
(** * The next defect index *)
(* ================================================================== *)

Section NumberProofs.
Context {TK : Toolkit}.

Lemma calc_fold (sc : list SceneObject) (z : Z) :
  fold_left
    (fun max_n o =>
       match item o with
       | IMark m =>
           match display_id m with
           | Some did =>
               match py_as_int did with
               | Some n => Z.max max_n n
               | None =>
                   match did with
                   | VStr s =>
                       match py_int (last_dash_field s) with
                       | Some n => Z.max max_n n
                       | None => max_n
                       end
                   | _ => max_n
                   end
               end
           | None => max_n
           end
       | _ => max_n
       end) sc z
  = fold_left calc_step sc z.
Proof.
  revert z. induction sc as [|x sc IH]; intro z; simpl; [reflexivity|].
  rewrite <- IH. f_equal. unfold calc_step, id_number.
  destruct (item x) as [m| |]; try reflexivity.
  destruct (display_id m) as [did|]; try reflexivity.
  destruct (py_as_int did); try reflexivity.
  destruct did; reflexivity.
Qed.

Lemma calc_step_ge (sc : list SceneObject) : forall z, (z <= fold_left calc_step sc z)%Z.
Proof.
  induction sc as [|x sc IH]; intro z; simpl; [lia|].
  specialize (IH (calc_step z x)).
  assert (z <= calc_step z x)%Z.
  { unfold calc_step. destruct (item x) as [m| |]; try lia.
    destruct (display_id m) as [did|]; try lia.
    destruct (id_number did); lia. }
  lia.
Qed.

Lemma calc_step_bound (sc : list SceneObject) : forall z n,
  number_in_use sc n -> (n <= fold_left calc_step sc z)%Z.
Proof.
  induction sc as [|x sc IH]; intros z n (y & m & did & Hin & Hi & Hd & Hn);
    [destruct Hin|].
  simpl. destruct Hin as [<-|Hin].
  - pose proof (calc_step_ge sc (calc_step z x)).
    assert (n <= calc_step z x)%Z.
    { unfold calc_step. rewrite Hi, Hd, Hn. lia. }
    lia.
  - apply IH. exists y, m, did. auto.
Qed.

Lemma calc_step_attained (sc : list SceneObject) : forall z,
  fold_left calc_step sc z = z \/ number_in_use sc (fold_left calc_step sc z).
Proof.
  induction sc as [|x sc IH]; intro z; simpl; [auto|].
  destruct (IH (calc_step z x)) as [E|(y & m & did & Hin & Hi & Hd & Hn)].
  - rewrite E. unfold calc_step.
    destruct (item x) as [m| |] eqn:Ei; auto.
    destruct (display_id m) as [did|] eqn:Ed; auto.
    destruct (id_number did) as [n|] eqn:En; auto.
    destruct (Z.max_spec z n) as [[_ ->]|[_ ->]]; auto.
    right. exists x, m, did. simpl. auto.
  - right. exists y, m, did. simpl. auto.
Qed.

Lemma calc_above (e : Editor) (n : Z) :
  number_in_use (scene e) n -> (n < _calc_next_defect_index e)%Z.
Proof.
  intro H. unfold _calc_next_defect_index. cbv zeta. rewrite calc_fold.
  pose proof (calc_step_bound (scene e) 0 n H). lia.
Qed.

(** X11.  [_calc_next_defect_index] is one more than the largest number in
    use (an [int] display id, or the [int] after the last dash of a text
    id), and 1 when no number is in use: it is above every number in use,
    and its predecessor is in use or is 0. *)
Theorem next_defect_index_is_above_all_numbers (e : Editor) :
  (forall n, number_in_use (scene e) n -> (n < _calc_next_defect_index e)%Z) /\
  (1 <= _calc_next_defect_index e)%Z /\
  (_calc_next_defect_index e = 1%Z \/
   number_in_use (scene e) (_calc_next_defect_index e - 1)).
Proof.
  unfold _calc_next_defect_index. cbv zeta. rewrite calc_fold.
  split; [|split].
  - intros n H. pose proof (calc_step_bound (scene e) 0 n H). lia.
  - pose proof (calc_step_ge (scene e) 0). lia.
  - destruct (calc_step_attained (scene e) 0) as [E|H].
    + left. rewrite E. reflexivity.
    + right. replace (fold_left calc_step (scene e) 0 + 1 - 1)%Z
        with (fold_left calc_step (scene e) 0%Z) by lia. exact H.
Qed.


Lemma below_next_recalc (e : Editor) :
  numbers_below_next (with_next_defect_index (_calc_next_defect_index e) e).
Proof. intros n H. apply (calc_above e n H). Qed.

Lemma number_in_use_map (g : SceneObject -> SceneObject) (sc : list SceneObject) (n : Z) :
  (forall x m, item (g x) = IMark m ->
               exists m0, item x = IMark m0 /\ display_id m0 = display_id m) ->
  number_in_use (map g sc) n -> number_in_use sc n.
Proof.
  intros Hg (y & m & did & Hin & Hi & Hd & Hn).
  apply in_map_iff in Hin. destruct Hin as (x & <- & Hx).
  destruct (Hg x m Hi) as (m0 & Hi0 & Hd0).
  exists x, m0, did. repeat split; try assumption. congruence.
Qed.

Lemma number_in_use_clearSelection (e : Editor) (n : Z) :
  number_in_use (scene (clearSelection e)) n -> number_in_use (scene e) n.
Proof.
  unfold clearSelection. cbn [scene with_scene]. apply number_in_use_map.
  intros x m. simpl. destruct (item x) as [m0| |]; simpl; try discriminate.
  intro E. inversion E; subst. exists m0. auto.
Qed.

Lemma below_next_restore (snapshot : PyVal) (e e' : Editor) :
  _restore_snapshot snapshot e = Ok e' -> numbers_below_next e'.
Proof.
  unfold _restore_snapshot. intro E. destruct snapshot; try discriminate.
  destruct (bg_path e); [|discriminate].
  bind_ok E. bind_ok E. bind_ok E. bind_ok E. inversion E; subst.
  apply below_next_recalc.
Qed.

Lemma below_next_load (d : PyVal) (e e' : Editor) :
  _load_defects d e = Ok e' -> numbers_below_next e'.
Proof.
  unfold _load_defects. intro E. destruct d; try discriminate.
  destruct (bg_path e); [|discriminate].
  bind_ok E. bind_ok E. inversion E; subst.
  intros n Hn. apply (calc_above a0 n). exact Hn.
Qed.

Lemma below_next_delete (e e' : Editor) :
  selectedItems e <> [] ->
  delete_selected_items e = Ok e' -> numbers_below_next e'.
Proof.
  unfold delete_selected_items. intros Hs E.
  destruct (selectedItems e) as [|x items]; [congruence|].
  bind_ok E. inversion E; subst. clear E.
  intros n Hn.
  unfold mark_dirty, dialog_mark_dirty in *.
  cbn [scene _next_defect_index with_dirty with_dirtyChanged] in *.
  rewrite (proj1 (_end_edit_scene _)) in Hn.
  assert (Hx : _next_defect_index (_end_edit (clearSelection
                  (with_next_defect_index (_calc_next_defect_index a) a)))
               = _calc_next_defect_index a).
  { unfold _end_edit. destruct (_undo_block _); [reflexivity|].
    destruct (_editing _) as [[|]|]; try reflexivity.
    cbv zeta. destruct (differs_from_top _ _); reflexivity. }
  rewrite Hx. apply calc_above.
  apply number_in_use_clearSelection in Hn. exact Hn.
Qed.

Lemma below_next_opened (radius : Q) (image_path : string) (defects : PyVal) (e : Editor) :
  FaultEditorDialog_init radius image_path defects = Ok e -> numbers_below_next e.
Proof.
  unfold FaultEditorDialog_init. intro E. destruct (truthy defects).
  - bind_ok E. inversion E; subst. intros n Hn.
    apply (below_next_load _ _ _ H n). exact Hn.
  - cbn [bind] in E. inversion E; subst.
    intros n (x & m & did & Hin & _). exfalso. revert Hin.
    cbn [scene with_dirty with_hist]. unfold open_png_from_path.
    destruct (pixmap_isNull image_path); intros [].
Qed.

Lemma number_in_use_update (o : nat) (f : Item -> Item) (sc : list SceneObject) (n : Z) :
  number_in_use (update_obj o f sc) n ->
  number_in_use sc n \/
  exists x m did, In x sc /\ oid x = o /\ f (item x) = IMark m /\
                  display_id m = Some did /\ id_number did = Some n.
Proof.
  intros (y & m & did & Hin & Hi & Hd & Hn).
  unfold update_obj in Hin. apply in_map_iff in Hin. destruct Hin as (x & <- & Hx).
  destruct (Nat.eqb (oid x) o) eqn:E.
  - right. apply Nat.eqb_eq in E. exists x, m, did. simpl in Hi. auto.
  - left. exists x, m, did. auto.
Qed.

Lemma number_in_use_selected (o : nat) (b : bool) (sc : list SceneObject) (n : Z) :
  number_in_use (update_obj o (set_item_selected b) sc) n -> number_in_use sc n.
Proof.
  unfold update_obj. apply number_in_use_map.
  intros x m. destruct (Nat.eqb (oid x) o); simpl.
  - destruct (item x) as [m0| |]; simpl; try discriminate.
    intro E. inversion E; subst. exists m0. auto.
  - intro E. exists m. auto.
Qed.

Lemma _end_edit_next_index (e : Editor) :
  _next_defect_index (_end_edit e) = _next_defect_index e.
Proof.
  unfold _end_edit. destruct (_undo_block _); [reflexivity|].
  destruct (_editing _) as [[|]|]; try reflexivity.
  cbv zeta. destruct (differs_from_top _ _); reflexivity.
Qed.

Lemma init_after_add (it : Mark) (e1 : Editor) :
  exists m1,
    scene (_init_defect_for_item (next_oid e1) (addItem (IMark it) e1))
    = update_obj (next_oid e1) (fun _ => IMark m1)
        (mkObj (next_oid e1) (IMark it) :: scene e1) /\
    _next_defect_index (_init_defect_for_item (next_oid e1) (addItem (IMark it) e1))
    = (if is_circle (shape it) then _next_defect_index e1 + 1 else _next_defect_index e1)%Z /\
    display_id m1 = (if is_circle (shape it) then Some (VInt (_next_defect_index e1))
                     else display_id it).
Proof.
  assert (L : lookup_obj (next_oid e1) (scene (addItem (IMark it) e1)) = Some (IMark it))
    by (simpl; rewrite Nat.eqb_refl; reflexivity).
  unfold _init_defect_for_item. rewrite L. cbv zeta.
  change (is_circle (shape (set_internal_id
            (Some (VStr (uuid4 (uuid_draws (addItem (IMark it) e1))))) it)))
    with (is_circle (shape it)).
  destruct (is_circle (shape it)); eexists; repeat split.
Qed.

(** X12.  Numbers are handed out fresh.  After a dialog is opened, after a
    snapshot is restored (undo, redo) and after a deletion, every number
    in use is below [_next_defect_index]; a double click keeps it so; and
    the circle a double click creates takes [_next_defect_index], a number
    that no mark of the scene has, and moves the index on by one. *)
Theorem numbers_are_handed_out_fresh (e : Editor) :
  (forall radius image_path defects,
      FaultEditorDialog_init radius image_path defects = Ok e -> numbers_below_next e) /\
  (forall snapshot e0, _restore_snapshot snapshot e0 = Ok e -> numbers_below_next e) /\
  (forall e0, selectedItems e0 <> [] -> delete_selected_items e0 = Ok e ->
              numbers_below_next e) /\
  (forall ev,
      numbers_below_next e ->
      let e' := fst (_on_mouse_double_click ev e) in
      numbers_below_next e' /\
      ~ number_in_use (scene e) (_next_defect_index e) /\
      (snd (_on_mouse_double_click ev e) = true -> current_tool e = "circle" ->
       _next_defect_index e' = (_next_defect_index e + 1)%Z /\
       exists m, lookup_obj (next_oid e) (scene e') = Some (IMark m) /\
                 display_id m = Some (VInt (_next_defect_index e)))).
Proof.
  split; [intros r p d; apply below_next_opened|].
  split; [intros s e0; apply below_next_restore|].
  split; [intros e0; apply below_next_delete|].
  intros ev B. cbv zeta.
  assert (Hfresh : ~ number_in_use (scene e) (_next_defect_index e)).
  { intro H. apply B in H. lia. }
  unfold _on_mouse_double_click.
  assert (B0 : numbers_below_next (stop_press_timer e)) by exact B.
  destruct (negb (MouseButton_eqb (button ev) LeftButton));
    [cbn [fst snd]; split; [exact B0|]; split; [exact Hfresh | discriminate]|].
  destruct (_ || _ || _);
    [cbn [fst snd]; split; [exact B0|]; split; [exact Hfresh | discriminate]|].
  destruct (negb (_can_create_at (hits ev)));
    [cbn [fst snd]; split; [exact B0|]; split; [exact Hfresh | discriminate]|].
  destruct (item_for_tool (current_tool (stop_press_timer e)) (scene_pos ev)) as [it|] eqn:Eit;
    [|cbn [fst snd]; split; [exact B0|]; split; [exact Hfresh | discriminate]].
  cbn [fst snd]. cbv zeta.
  set (e1 := _begin_edit (stop_press_timer e)).
  assert (Es : scene e1 = scene e) by (unfold e1; rewrite (proj1 (_begin_edit_scene _)); reflexivity).
  assert (En : next_oid e1 = next_oid e) by (unfold e1; rewrite (proj2 (_begin_edit_scene _)); reflexivity).
  assert (Ex : _next_defect_index e1 = _next_defect_index e).
  { unfold e1, _begin_edit. destruct (_undo_block _); reflexivity. }
  assert (Hit : display_id it = None /\
                (current_tool e = "circle" -> is_circle (shape it) = true)).
  { revert Eit. unfold item_for_tool. cbn [current_tool stop_press_timer with_drag].
    repeat match goal with
           | |- context [String.eqb ?a ?b] =>
               let E := fresh "E" in destruct (String.eqb a b) eqn:E
           end; intro H; inversion H; subst; split; try reflexivity;
      intro Hc; rewrite Hc in *; discriminate. }
  destruct Hit as (Hnone & Hcirc).
  destruct (init_after_add it e1) as (m1 & Hsc & Hnx & Hdid).
  unfold mark_dirty, dialog_mark_dirty, numbers_below_next.
  cbn [scene _next_defect_index with_dirty with_dirtyChanged].
  rewrite (proj1 (_end_edit_scene _)), _end_edit_next_index.
  cbn [scene _next_defect_index with_scene]. rewrite Hnx, Ex.
  split; [|split; [exact Hfresh|]].
  - intros n Hn. apply number_in_use_selected in Hn. rewrite Hsc in Hn.
    assert (Hle : (_next_defect_index e
                   <= if is_circle (shape it) then _next_defect_index e + 1
                      else _next_defect_index e)%Z)
      by (destruct (is_circle (shape it)); lia).
    apply number_in_use_update in Hn. destruct Hn as [Hn|Hn].
    + destruct Hn as (y & m & did & [<-|Hin] & Hi & Hd & Hnum).
      * simpl in Hi. inversion Hi; subst. rewrite Hnone in Hd. discriminate.
      * rewrite Es in Hin.
        assert (n < _next_defect_index e)%Z by (apply B; exists y, m, did; auto).
        lia.
    + destruct Hn as (y & m & did & _ & _ & Hi & Hd & Hnum).
      inversion Hi; subst. rewrite Hdid, Ex in Hd.
      destruct (is_circle (shape it)) eqn:Ec.
      * inversion Hd; subst. cbn in Hnum. inversion Hnum; subst. lia.
      * rewrite Hnone in Hd. discriminate.
  - intros _ Hc. rewrite (Hcirc Hc) in *. split; [reflexivity|].
    rewrite Hsc. rewrite !update_obj_head. cbn [lookup_obj oid item]. rewrite <- En, Nat.eqb_refl.
    eexists. split; [reflexivity|]. cbn. rewrite Hdid, Ex. reflexivity.
Qed.

End NumberProofs.

(* ================================================================== *)
(** * Deleting the selection *)
(* ================================================================== *)

Section DeleteProofs.
Context {TK : Toolkit}.

Lemma renumber_scene_map (sc : list SceneObject) :
  circles_numbered sc -> NoDup (map oid sc) ->
  renumber_scene sc = Ok (map (renumbered (sort_by_key snd (circle_entries sc))) sc).
Proof.
  intros Hc ND. unfold renumber_scene. rewrite (collect_circles_spec _ Hc). cbn [bind].
  rewrite renumber_loop_spec; [reflexivity|].
  apply (Permutation_NoDup
           (Permutation_map fst (Permutation_sym (sort_by_key_perm snd _)))).
  apply circle_entries_NoDup. exact ND.
Qed.

Lemma fold_removeItem_scene (items : list SceneObject) : forall e : Editor,
  scene (fold_left (fun e x => removeItem (oid x) e) items e)
  = filter (fun y => negb (existsb (Nat.eqb (oid y)) (map oid items))) (scene e).
Proof.
  induction items as [|x items IH]; intro e; simpl.
  - induction (scene e) as [|a l IHl]; simpl; [reflexivity | f_equal; exact IHl].
  - rewrite IH. unfold removeItem. cbn [scene with_scene].
    induction (scene e) as [|a l IHl]; simpl; [reflexivity|].
    rewrite (Nat.eqb_sym (oid a) (oid x)).
    destruct (Nat.eqb (oid x) (oid a)); simpl; [exact IHl|].
    destruct (existsb _ _); simpl; [exact IHl | f_equal; exact IHl].
Qed.

Lemma existsb_oid_selected (sc : list SceneObject) (y : SceneObject) :
  NoDup (map oid sc) -> In y sc ->
  existsb (Nat.eqb (oid y)) (map oid (filter (fun x => item_selected (item x)) sc))
  = item_selected (item y).
Proof.
  intros ND Hy.
  destruct (item_selected (item y)) eqn:Es.
  - apply existsb_exists. exists (oid y). split; [|apply Nat.eqb_refl].
    apply in_map. apply filter_In. auto.
  - apply not_true_is_false. intro H. apply existsb_exists in H.
    destruct H as (o & Ho & Eo). apply Nat.eqb_eq in Eo. subst o.
    apply in_map_iff in Ho. destruct Ho as (x & Ex & Hx).
    apply filter_In in Hx. destruct Hx as (Hx & Sx).
    assert (x = y) by (apply (NoDup_oid_eq sc); assumption).
    subst. congruence.
Qed.

Lemma selected_clearSelection (e : Editor) : selectedItems (clearSelection e) = [].
Proof.
  unfold selectedItems, clearSelection. cbn [scene with_scene].
  induction (scene e) as [|x l IH]; simpl; [reflexivity|].
  destruct (item x); simpl; exact IH.
Qed.

(** X13.  Deleting removes exactly the selected objects.  In a scene whose
    objects are distinct and whose circles are numbered,
    [delete_selected_items] returns; the objects of the scene afterwards
    are those that were not selected, in their order; none is selected;
    with nothing selected the editor is left as it is, and otherwise the
    dialog is dirty. *)
Theorem delete_removes_exactly_the_selected (e : Editor) :
  scene_inv e ->
  exists e',
    delete_selected_items e = Ok e' /\
    map oid (scene e')
    = map oid (filter (fun x => negb (item_selected (item x))) (scene e)) /\
    selectedItems e' = [] /\
    (selectedItems e = [] -> e' = e) /\
    (selectedItems e <> [] -> _dirty e' = true) /\
    scene_inv e'.
Proof.
  intro Inv. unfold delete_selected_items.
  destruct (selectedItems e) as [|x0 items0] eqn:Esel.
  - exists e. split; [reflexivity|]. split.
    + f_equal. unfold selectedItems in Esel.
      induction (scene e) as [|a l IH]; simpl in *; [reflexivity|].
      destruct (item_selected (item a)); simpl; [discriminate|].
      f_equal. apply IH. exact Esel.
    + repeat split; try assumption; try congruence.
      * destruct Inv; assumption.
      * destruct Inv as (_ & H & _); exact H.
      * destruct Inv as (_ & _ & H); exact H.
  - rewrite <- Esel. set (items := selectedItems e).
    set (e1 := fold_left (fun e x => removeItem (oid x) e) items (_begin_edit e)).
    assert (I1 : scene_inv e1).
    { unfold e1. apply inv_fold_removeItem. apply inv_begin_edit. exact Inv. }
    assert (S1 : scene e1 = filter (fun x => negb (item_selected (item x))) (scene e)).
    { unfold e1. rewrite fold_removeItem_scene. rewrite (proj1 (_begin_edit_scene _)).
      apply filter_ext_in. intros y Hy. unfold items, selectedItems.
      rewrite (existsb_oid_selected _ _ (proj1 Inv) Hy). reflexivity. }
    destruct I1 as (ND1 & Hb1 & Hc1).
    unfold _renumber_circle_ids. rewrite (renumber_scene_map _ Hc1 ND1). cbn [bind].
    eexists. split; [reflexivity|].
    unfold mark_dirty, dialog_mark_dirty. cbn [scene with_dirty with_dirtyChanged _dirty].
    split; [|split; [|split; [|split]]].
    + rewrite (proj1 (_end_edit_scene _)). unfold clearSelection.
      cbn [scene with_scene with_next_defect_index].
      rewrite !map_map. rewrite <- S1. apply map_ext. intro y. simpl.
      apply renumbered_oid.
    + unfold selectedItems. cbn [scene with_dirty with_dirtyChanged].
      rewrite (proj1 (_end_edit_scene _)). apply selected_clearSelection.
    + intro H. unfold items in H. rewrite Esel in H. discriminate.
    + reflexivity.
    + apply (inv_delete e).
      * unfold delete_selected_items. rewrite Esel. rewrite <- Esel. fold items. fold e1.
        unfold _renumber_circle_ids. rewrite (renumber_scene_map _ Hc1 ND1). reflexivity.
      * exact Inv.
Qed.

End DeleteProofs.

(* ================================================================== *)
(** * Restoring and reopening *)
(* ================================================================== *)

Section RestoreMoreProofs.
Context {TK : Toolkit}.

Lemma _restore_item_adds (info : PyVal) (e e' : Editor) :
  _restore_item info e = Ok e' ->
  (scene e' = scene e \/ exists x m, item x = IMark m /\ scene e' = x :: scene e).
Proof.
  unfold _restore_item. intro E. bind_ok E. bind_ok E.
  destruct a0 as [c|]; [|inversion E; subst; auto].
  destruct info; try (inversion E; subst; auto; fail).
  bind_ok E. inversion E; subst. right.
  exists (mkObj (next_oid e) (IMark a0)), a0. split; reflexivity.
Qed.

Lemma restore_memo_adds (m : PyVal) (e e' : Editor) :
  restore_memo m e = Ok e' ->
  (scene e' = scene e \/ exists x, scene e' = x :: scene e).
Proof.
  unfold restore_memo. intro E.
  destruct m; try discriminate.
  destruct (py_eq (dict_get_default d "type" VNone) (VStr "memo_line")).
  - bind_ok E. bind_ok E. inversion E; subst. right. eexists. reflexivity.
  - destruct (py_eq (dict_get_default d "type" VNone) (VStr "memo_free")).
    + destruct (truthy (py_or (dict_get_default d "pts" VNone) (VList [])));
        [|inversion E; subst; auto].
      destruct (py_or (dict_get_default d "pts" VNone) (VList [])); try discriminate.
      destruct l as [|first rest]; [discriminate|].
      bind_ok E. bind_ok E. inversion E; subst. right. eexists. reflexivity.
    + inversion E; subst; auto.
Qed.

Lemma for_each_restore_items_suffix (l : list PyVal) : forall e e' : Editor,
  for_each _restore_item l e = Ok e' ->
  exists added, scene e' = added ++ scene e /\
                Forall (fun x => exists m, item x = IMark m) added /\
                (length added <= length l)%nat.
Proof.
  induction l as [|i l IH]; intros e e' E; simpl in E.
  - inversion E; subst. exists []. repeat split; auto.
  - bind_ok E. destruct (IH _ _ E) as (added & Hs & Hf & Hl).
    destruct (_restore_item_adds _ _ _ H) as [Ha | (x & m & Hx & Ha)].
    + exists added. rewrite Hs, Ha. repeat split; auto. simpl. lia.
    + exists (added ++ [x]). rewrite Hs, Ha, <- app_assoc. repeat split.
      * apply Forall_app. split; [exact Hf|]. constructor; [eauto | constructor].
      * rewrite length_app. simpl. lia.
Qed.

Lemma for_each_restore_memos_suffix (l : list PyVal) : forall e e' : Editor,
  for_each restore_memo l e = Ok e' ->
  exists added, scene e' = added ++ scene e.
Proof.
  induction l as [|i l IH]; intros e e' E; simpl in E.
  - inversion E; subst. exists []. reflexivity.
  - bind_ok E. destruct (IH _ _ E) as (added & Hs).
    destruct (restore_memo_adds _ _ _ H) as [Ha | (x & Ha)].
    + exists added. rewrite Hs, Ha. reflexivity.
    + exists (added ++ [x]). rewrite Hs, Ha, <- app_assoc. reflexivity.
Qed.

(** X14.  Restoring over a background that no longer loads.  When the
    image file of the editor cannot be read any more,
    [open_png_from_path] returns before it clears the scene, so
    [_restore_snapshot], and with it undo and redo, add the restored items
    on top of the items that are there: the old scene is still in the
    new one. *)
Theorem restore_keeps_scene_when_image_is_gone (e e' : Editor) (bp : string) :
  bg_path e = Some bp ->
  pixmap_isNull bp = true ->
  (forall snap,
      dict_get snap "image" = None ->
      _restore_snapshot (VDict snap) e = Ok e' ->
      exists added, scene e' = added ++ scene e) /\
  ((2 <= length (_undo_stack (hist e)))%nat ->
   (forall snap, In (VDict snap) (_undo_stack (hist e)) -> dict_get snap "image" = None) ->
   undo e = Ok e' ->
   exists added, scene e' = added ++ scene e).
Proof.
  intros Hbg Hpix.
  assert (R : forall e0 snap e1,
             bg_path e0 = Some bp -> dict_get snap "image" = None ->
             _restore_snapshot (VDict snap) e0 = Ok e1 ->
             exists added, scene e1 = added ++ scene e0).
  { intros e0 snap e1 Hb Hi E. unfold _restore_snapshot in E. rewrite Hb in E.
    assert (Ei : dict_get_default snap "image" (VStr bp) = VStr bp)
      by (unfold dict_get_default; rewrite Hi; reflexivity).
    rewrite Ei in E. unfold open_png_from_path in E. rewrite Hpix in E.
    bind_ok E. bind_ok E. bind_ok E. bind_ok E. inversion E; subst.
    cbn [scene with_next_defect_index].
    destruct (for_each_restore_items_suffix _ _ _ H0) as (ad1 & S1 & _).
    destruct (for_each_restore_memos_suffix _ _ _ H2) as (ad2 & S2).
    exists (ad2 ++ ad1). rewrite S2, S1, app_assoc. reflexivity. }
  split.
  - intros snap Hi E. apply (R e snap e' Hbg Hi E).
  - intros Hl Hall E. unfold undo in E.
    assert (Hlt : Nat.ltb (length (_undo_stack (hist e))) 2 = false)
      by (apply Nat.ltb_ge; exact Hl).
    rewrite Hlt in E. cbv zeta in E. bind_ok E. inversion E; subst.
    unfold mark_dirty, dialog_mark_dirty. cbn [scene with_dirty with_dirtyChanged with_hist].
    set (st := removelast (_undo_stack (hist e))) in *.
    assert (Hst : st <> []).
    { unfold st. destruct (_undo_stack (hist e)) as [|x [|y l]]; simpl in *; try lia.
      discriminate. }
    assert (Hin : In (last st VNone) (_undo_stack (hist e))).
    { assert (In (last st VNone) st).
      { clear - Hst. induction st as [|x st IH]; [congruence|].
        destruct st as [|y st]; [simpl; auto|].
        right. apply IH. discriminate. }
      unfold st in H0.
      assert (Hne : _undo_stack (hist e) <> []).
      { intro H1. rewrite H1 in Hl. simpl in Hl. lia. }
      rewrite (app_removelast_last VNone Hne). apply in_or_app. left. exact H0. }
    assert (Esnap : last (_undo_stack (hist (undo_pop e))) VNone = last st VNone)
      by reflexivity.
    rewrite Esnap in H.
    destruct (last st VNone) as [| | | | | |snap] eqn:El; try discriminate.
    destruct (R (undo_pop e) snap a Hbg (Hall snap Hin) H) as (added & Hs).
    exists added. rewrite Hs. reflexivity.
Qed.


Lemma memo_records_marks (added : list SceneObject) :
  Forall (fun x => exists m, item x = IMark m) added -> memo_records added = [].
Proof.
  induction 1 as [|x l (m & Hx) F IH]; simpl; [reflexivity|].
  rewrite Hx. exact IH.
Qed.

(** X15.  Memo strokes are not saved.  [_load_defects] clears the scene
    and restores marks only: whatever the saved defects are, when it
    returns the scene holds marks and no memo stroke, at most one mark
    per saved record.  A dialog reopened on the [get_defects()] of a scene
    has, for each mark of that scene, the mark restored from its record,
    in reversed stacking order, and none of its memo strokes. *)
Theorem reopened_dialog_has_the_marks_only (e : Editor) :
  (forall defects e0,
      _load_defects defects e0 = Ok e ->
      Forall (fun x => exists m, item x = IMark m) (scene e) /\
      memo_records (scene e) = [] /\
      (forall d l, defects = VDict d -> dict_get d "items" = Some (VList l) ->
                   (length (scene e) <= length l)%nat)) /\
  (forall radius bp,
      pixmap_isNull bp = false ->
      scene_ok (scene e) = true ->
      exists e' ms',
        FaultEditorDialog_init radius bp (VDict (get_defects e)) = Ok e' /\
        marks_of (scene e') = rev ms' /\
        Forall2 restored_from (marks_of (scene e)) ms' /\
        memo_records (scene e') = [] /\
        length (scene e') = length (marks_of (scene e))).
Proof.
  split.
  - intros defects e0 E. unfold _load_defects in E.
    destruct defects as [| | | | | |d]; try discriminate.
    destruct (bg_path e0) as [bp|]; [|discriminate].
    bind_ok E. bind_ok E. inversion E; subst. clear E.
    cbn [scene with_hist with_dirty with_next_defect_index].
    destruct (for_each_restore_items_suffix _ _ _ H0) as (added & Hs & Hf & Hl).
    assert (S0 : scene (open_png_from_path (VStr bp) (with_scene [] e0)) = []).
    { unfold open_png_from_path. destruct (pixmap_isNull bp); reflexivity. }
    rewrite S0, app_nil_r in Hs. rewrite Hs.
    split; [exact Hf|]. split; [apply memo_records_marks; exact Hf|].
    intros d0 l Ed Hi. inversion Ed; subst d0.
    unfold dict_get_default in H. rewrite Hi in H. simpl in H. inversion H; subst.
    exact Hl.
  - intros radius bp Hpix OK.
    unfold FaultEditorDialog_init. cbv zeta.
    assert (Ht : truthy (VDict (get_defects e)) = true) by reflexivity.
    rewrite Ht. unfold _load_defects.
    assert (Ebg : forall h, bg_path (with_hist h (open_png_from_path (VStr bp)
                                                    (FaultEditorWidget_init radius)))
                            = Some bp).
    { intro h. unfold open_png_from_path. rewrite Hpix. reflexivity. }
    rewrite Ebg.
    assert (Ei : dict_get_default (get_defects e) "items" (VList [])
                 = VList (map (fun m => VDict (to_dict m)) (marks_of (scene e))))
      by reflexivity.
    rewrite Ei. cbn [py_iter bind].
    match goal with
    | |- context [for_each _restore_item _ ?x] => set (e0 := x)
    end.
    destruct (restore_items_to_dict (marks_of (scene e)) e0 (scene_ok_marks _ OK))
      as (e1 & ms' & E1 & F & Hm1 & Hmemo1 & _).
    rewrite E1. cbn [bind].
    assert (S0 : scene e0 = []).
    { unfold e0, open_png_from_path. rewrite Hpix. reflexivity. }
    destruct (for_each_restore_items_suffix _ _ _ E1) as (added & Hs & Hf & Hl).
    rewrite S0, app_nil_r in Hs.
    eexists. exists ms'. split; [reflexivity|].
    cbn [scene with_hist with_dirty with_next_defect_index].
    split; [|split; [exact F|split]].
    + rewrite Hm1, S0. simpl. apply app_nil_r.
    + rewrite Hs. apply memo_records_marks. exact Hf.
    + assert (Hlen : forall sc, Forall (fun x => exists m, item x = IMark m) sc ->
                                length sc = length (marks_of sc)).
      { induction 1 as [|x l (m & Hx) F0 IH]; simpl; [reflexivity|].
        rewrite Hx. simpl. f_equal. exact IH. }
      rewrite Hs in Hm1 |- *. rewrite (Hlen _ Hf), Hm1, S0. simpl.
      rewrite app_nil_r, length_rev. symmetry.
      apply (Forall2_length F).
Qed.

Lemma dict_setdefault_keeps (d : PyDict) (k k' : string) (v x : PyVal) :
  dict_get d k' = Some x -> dict_get (dict_setdefault d k v) k' = Some x.
Proof.
  intro H. unfold dict_setdefault. destruct (dict_get d k) eqn:E; [exact H|].
  destruct (String.eqb k k') eqn:Ek.
  - apply String.eqb_eq in Ek. subst. congruence.
  - rewrite dict_get_set_ne by exact Ek. exact H.
Qed.

Lemma dict_setdefault_has (d : PyDict) (k : string) (v : PyVal) :
  dict_get (dict_setdefault d k v) k <> None.
Proof.
  unfold dict_setdefault. destruct (dict_get d k) eqn:E; [congruence|].
  rewrite dict_get_set_eq. discriminate.
Qed.

Lemma dict_setdefault_has_other (d : PyDict) (k k' : string) (v : PyVal) :
  dict_get d k' <> None -> dict_get (dict_setdefault d k v) k' <> None.
Proof.
  intro H. destruct (dict_get d k') as [x|] eqn:E; [|congruence].
  rewrite (dict_setdefault_keeps d k k' v x E). discriminate.
Qed.

(** X16.  The defect record of a restored circle.  The six [setdefault]
    calls of [_restore_item] never change a field that was recorded; after
    them the six fields are all present; and applying them again changes
    nothing. *)
Theorem restore_defaults_fills_without_overwriting (di : PyDict) :
  (forall k v, dict_get di k = Some v -> dict_get (restore_defaults di) k = Some v) /\
  has_all_fields (restore_defaults di) = true /\
  restore_defaults (restore_defaults di) = restore_defaults di /\
  (dict_get di "member" = None ->
   dict_get (restore_defaults di) "member" = Some (VStr "")) /\
  (dict_get di "progress" = None ->
   dict_get (restore_defaults di) "progress" = Some (VBool false)).
Proof.
  assert (K : forall k v, dict_get di k = Some v -> dict_get (restore_defaults di) k = Some v).
  { intros k v H. unfold restore_defaults.
    repeat apply dict_setdefault_keeps. exact H. }
  assert (F : forall k, In k ["member"; "location"; "defect_type"; "size"; "progress"; "remark"] ->
                        dict_get (restore_defaults di) k <> None).
  { intros k Hk. unfold restore_defaults. simpl in Hk.
    repeat (destruct Hk as [<-|Hk];
            [repeat (first [apply dict_setdefault_has | apply dict_setdefault_has_other])|]).
    destruct Hk. }
  assert (A : has_all_fields (restore_defaults di) = true).
  { unfold has_all_fields. apply forallb_forall. intros k Hk.
    destruct (dict_get (restore_defaults di) k) eqn:E; [reflexivity|].
    exfalso. apply (F k Hk). exact E. }
  split; [exact K|]. split; [exact A|]. split; [apply restore_defaults_complete; exact A|].
  split.
  - intro H. unfold restore_defaults.
    do 5 apply dict_setdefault_keeps.
    unfold dict_setdefault. rewrite H. apply dict_get_set_eq.
  - intro H. unfold restore_defaults.
    apply dict_setdefault_keeps.
    unfold dict_setdefault at 1.
    assert (Hp : dict_get (dict_setdefault (dict_setdefault (dict_setdefault
                   (dict_setdefault di "member" (VStr "")) "location" (VStr ""))
                   "defect_type" (VStr "")) "size" size_default) "progress" = None).
    { unfold dict_setdefault.
      repeat match goal with
             | |- context [match dict_get ?d ?k with _ => _ end] =>
                 destruct (dict_get d k)
             end;
        rewrite ?dict_get_set_ne by reflexivity; exact H. }
    rewrite Hp. apply dict_get_set_eq.
Qed.

End RestoreMoreProofs.

(* ================================================================== *)
(** * The ray intersection *)
(* ================================================================== *)

Section RayProofs.
Context {TK : Toolkit}.

Lemma min_by_key_spec (key : QPointF -> Q) (l : list QPointF) : forall best,
  In (min_by_key key best l) (best :: l) /\
  (forall c, In c (best :: l) -> (key (min_by_key key best l) <= key c)%Q).
Proof.
  induction l as [|c l IH]; intro best; simpl.
  - split; [auto|]. intros c [<-|[]]. apply Qle_refl.
  - destruct (IH (if Qltb (key c) (key best) then c else best)) as (Hin & Hmin).
    split.
    + destruct Hin as [E|Hin]; [|auto].
      rewrite <- E. destruct (Qltb (key c) (key best)); auto.
    + intros x Hx.
      assert (Hb : (key (min_by_key key (if Qltb (key c) (key best) then c else best) l)
                    <= key (if Qltb (key c) (key best) then c else best))%Q)
        by (apply Hmin; left; reflexivity).
      destruct Hx as [<-|[<-|Hx]].
      * destruct (Qltb (key c) (key best)) eqn:E; [|exact Hb].
        apply Qltb_lt in E. apply Qlt_le_weak in E.
        apply (Qle_trans _ _ _ Hb E).
      * destruct (Qltb (key c) (key best)) eqn:E; [exact Hb|].
        apply Qltb_ge in E. apply (Qle_trans _ _ _ Hb E).
      * apply Hmin. right. exact Hx.
Qed.


Lemma ray_intersection_point_unfold (m : Mark) (start_scene toward_scene : QPointF) :
  ray_intersection_point m start_scene toward_scene =
  let direction := ray_direction m start_scene toward_scene in
  if Qltb (hypot (px direction) (py direction)) (1 # 1000000) then None
  else
    match ray_candidates m start_scene (cast_ray m start_scene toward_scene) with
    | [] => None
    | c :: r => Some (min_by_key (fun p => QLineF_length (mkLine start_scene p)) c r)
    end.
Proof. reflexivity. Qed.

(** X17.  The point [ray_intersection_point] returns is the nearest hit:
    it is a bounded intersection of the cast ray with an edge of the
    outline, farther than 1e-6 from the start, and no other such
    intersection is nearer to the start.  No point is returned exactly
    when the direction is shorter than 1e-6 or the ray has no such
    intersection with the outline. *)
Theorem ray_intersection_point_is_nearest (m : Mark) (start_scene toward_scene : QPointF) :
  let ray := cast_ray m start_scene toward_scene in
  let direction := ray_direction m start_scene toward_scene in
  let dist := fun p => QLineF_length (mkLine start_scene p) in
  (forall p,
      ray_intersection_point m start_scene toward_scene = Some p ->
      (exists edge, In edge (_outline_segments_scene m) /\
                    bounded_intersection ray edge = Some p) /\
      ((1 # 1000000) < dist p)%Q /\
      (forall edge c, In edge (_outline_segments_scene m) ->
                      bounded_intersection ray edge = Some c ->
                      ((1 # 1000000) < dist c)%Q ->
                      (dist p <= dist c)%Q)) /\
  (ray_intersection_point m start_scene toward_scene = None <->
   (hypot (px direction) (py direction) < 1 # 1000000)%Q \/
   (forall edge c, In edge (_outline_segments_scene m) ->
                   bounded_intersection ray edge = Some c ->
                   (dist c <= 1 # 1000000)%Q)).
Proof.
  cbv zeta.
  assert (C : forall edge c, In edge (_outline_segments_scene m) ->
                bounded_intersection (cast_ray m start_scene toward_scene) edge = Some c ->
                ((1 # 1000000) < QLineF_length (mkLine start_scene c))%Q ->
                In c (ray_candidates m start_scene (cast_ray m start_scene toward_scene))).
  { intros edge c He Hb Hd. unfold ray_candidates. apply in_flat_map.
    exists edge. split; [exact He|]. rewrite Hb.
    destruct (Qltb (1 # 1000000) (QLineF_length (mkLine start_scene c))) eqn:Ef.
    - left. reflexivity.
    - apply Qltb_ge in Ef. exfalso. apply (Qlt_not_le _ _ Hd Ef). }
  rewrite ray_intersection_point_unfold. cbv zeta. split.
  - intros p E.
    destruct (Qltb (hypot (px (ray_direction m start_scene toward_scene))
                          (py (ray_direction m start_scene toward_scene))) (1 # 1000000));
      [discriminate|].
    destruct (ray_candidates m start_scene (cast_ray m start_scene toward_scene))
      as [|c r] eqn:Ec; [discriminate|].
    destruct (min_by_key_spec (fun p => QLineF_length (mkLine start_scene p)) r c)
      as (Hin & Hmin).
    assert (Ep : min_by_key (fun p => QLineF_length (mkLine start_scene p)) c r = p)
      by (inversion E; reflexivity).
    clear E. rewrite Ep in Hin, Hmin. clear Ep. rewrite <- Ec in Hin, Hmin.
    assert (Hp : In p (ray_candidates m start_scene (cast_ray m start_scene toward_scene)))
      by exact Hin.
    unfold ray_candidates in Hp. apply in_flat_map in Hp.
    destruct Hp as (edge & He & Hp).
    destruct (bounded_intersection (cast_ray m start_scene toward_scene) edge)
      as [ip|] eqn:Eb; [|destruct Hp].
    destruct (Qltb (1 # 1000000) (QLineF_length (mkLine start_scene ip))) eqn:Ef;
      [|destruct Hp].
    destruct Hp as [<-|[]].
    split; [exists edge; auto|]. split; [apply Qltb_lt; exact Ef|].
    intros edge' c' He' Hb' Hd'. apply Hmin. rewrite Ec. apply (C edge' c' He' Hb' Hd').
  - destruct (Qltb (hypot (px (ray_direction m start_scene toward_scene))
                          (py (ray_direction m start_scene toward_scene))) (1 # 1000000))
      eqn:El.
    + split; [intros _; left; apply Qltb_lt; exact El | reflexivity].
    + apply Qltb_ge in El.
      destruct (ray_candidates m start_scene (cast_ray m start_scene toward_scene))
        as [|c r] eqn:Ec.
      * split; [|reflexivity]. intros _. right. intros edge c He Hb.
        destruct (Qlt_le_dec (1 # 1000000) (QLineF_length (mkLine start_scene c)))
          as [Hd|Hd]; [|exact Hd].
        exfalso. apply (C edge c He Hb Hd).
      * split; [discriminate|]. intros [Hl|Hall].
        -- exfalso. apply (Qlt_not_le _ _ Hl El).
        -- exfalso.
           assert (Hc : In c (ray_candidates m start_scene
                                (cast_ray m start_scene toward_scene)))
             by (rewrite Ec; left; reflexivity).
           unfold ray_candidates in Hc. apply in_flat_map in Hc.
           destruct Hc as (edge & He & Hc).
           destruct (bounded_intersection (cast_ray m start_scene toward_scene) edge)
             as [ip|] eqn:Eb; [|destruct Hc].
           destruct (Qltb (1 # 1000000) (QLineF_length (mkLine start_scene ip))) eqn:Ef;
             [|destruct Hc].
           apply Qltb_lt in Ef. apply (Qlt_not_le _ _ Ef). apply (Hall edge ip He Eb).
Qed.

End RayProofs.

(* ================================================================== *)
(** * Creating a circle by a drag *)
(* ================================================================== *)

Section DragCreateProofs.
Context {TK : Toolkit}.

Lemma lookup_update_obj (o : nat) (f : Item -> Item) (sc : list SceneObject) :
  lookup_obj o (update_obj o f sc) = option_map f (lookup_obj o sc).
Proof.
  induction sc as [|x sc IH]; simpl; [reflexivity|].
  destruct (Nat.eqb (oid x) o) eqn:E; simpl; rewrite E; [reflexivity | exact IH].
Qed.

Lemma init_defect_circle (o : nat) (e1 : Editor) (m1 : Mark) :
  lookup_obj o (scene e1) = Some (IMark m1) ->
  is_circle (shape m1) = true ->
  _init_defect_for_item o e1
  = with_next_defect_index (_next_defect_index e1 + 1)
      (with_scene
         (update_obj o
            (fun _ => IMark
               (set_label (Some "벽체")
                  (set_defect_info (Some default_defect_info)
                     (set_circle_id (VInt (_next_defect_index e1))
                        (set_internal_id (Some (VStr (uuid4 (uuid_draws e1)))) m1)))))
            (scene e1))
         (with_uuid_draws (S (uuid_draws e1)) e1)).
Proof.
  intros L Hc. unfold _init_defect_for_item. rewrite L. cbv zeta.
  change (is_circle (shape (set_internal_id (Some (VStr (uuid4 (uuid_draws e1)))) m1)))
    with (is_circle (shape m1)).
  rewrite Hc. reflexivity.
Qed.

(** X18.  A drag that is long enough creates a numbered circle.  On the
    release of the left button in CREATE mode, with a circle being
    dragged whose press-to-release distance is not under
    max(width, height) + 10: the circle is shown at the release point, its
    leader line runs from the anchor to the outline, it takes
    [_next_defect_index] as its number and the index moves on by one; the
    drag state is reset and the dialog is dirty; no object is added or
    removed. *)
Theorem long_drag_creates_a_numbered_circle
        (e : Editor) (ev : MouseEvent) (o : nat) (m : Mark) (pp a : QPointF) (l : QLineF) :
  button ev = LeftButton ->
  _drag_mode (drag e) = CREATE ->
  _drag_item (drag e) = Some o ->
  lookup_obj o (scene e) = Some (IMark m) ->
  is_circle (shape m) = true ->
  _press_pos (drag e) = Some pp ->
  _line_anchor_scene_pos m = Some a ->
  _attached_line m = Some l ->
  (Qmax (rw (boundingRect m)) (rh (boundingRect m)) + 10
   <= QLineF_length (mkLine pp (scene_pos ev)))%Q ->
  exists e' m',
    _on_mouse_release ev e = Ok e' /\
    lookup_obj o (scene e') = Some (IMark m') /\
    shape m' = shape m /\
    pos m' = scene_pos ev /\ isVisible m' = true /\
    _line_anchor_scene_pos m' = Some a /\ line_in_sync m' /\
    display_id m' = Some (VInt (_next_defect_index e)) /\
    _next_defect_index e' = (_next_defect_index e + 1)%Z /\
    _drag_mode (drag e') = NONE /\ _drag_item (drag e') = None /\
    _dirty e' = true /\
    map oid (scene e') = map oid (scene e).
Proof.
  intros Hb Hm Hd El Hc Hp Ha Hl Hlen.
  unfold _on_mouse_release. rewrite Hb. cbn [MouseButton_eqb negb].
  unfold undersized_drag_memo, drag_object. rewrite Hd, El.
  cbn [undersized_memo]. rewrite Hm. cbv zeta.
  assert (E1 : _drag_item (drag (stop_press_timer e)) = Some o) by exact Hd.
  assert (E2 : scene (stop_press_timer e) = scene e) by reflexivity.
  assert (E3 : _press_pos (drag (stop_press_timer e)) = Some pp) by exact Hp.
  rewrite E1, E2, El, E3, Hc. cbn [negb].
  assert (Hs : match shape m with
               | NoteText _ => false
               | _ => Qltb (QLineF_length (mkLine pp (scene_pos ev)))
                           (_min_line_length_for_item m)
               end = false).
  { unfold _min_line_length_for_item. cbv zeta.
    rewrite (proj2 (Qltb_ge _ _) Hlen). destruct (shape m); reflexivity. }
  rewrite Hs. unfold update_mark. rewrite E2, El.
  set (m0 := set_visible true (set_pos (scene_pos ev) m)).
  assert (Ec : confirm_attach m0
               = Ok (set_line (Some (mkLine a (line_end m0 a))) m0)).
  { unfold confirm_attach, _update_attached_line_geometry, m0.
    cbn [_line_anchor_scene_pos _attached_line set_visible set_pos shape].
    rewrite Ha, Hl, Hc. reflexivity. }
  rewrite Ec. cbn [bind].
  set (m1 := set_line (Some (mkLine a (line_end m0 a))) m0).
  rewrite (init_defect_circle o _ m1);
    [| cbn [scene with_scene]; rewrite lookup_update_obj, ?E2, El; reflexivity
     | exact Hc].
  eexists. eexists. split; [reflexivity|].
  unfold _reset_mouse_drag, mark_dirty, dialog_mark_dirty.
  cbn [scene drag with_drag with_dirty with_dirtyChanged _dirty _next_defect_index
       _drag_mode _drag_item with_drag_line with_drag_item with_press_pos with_drag_mode].
  rewrite (proj1 (_end_edit_scene _)), _end_edit_next_index.
  cbn [scene with_scene with_next_defect_index with_uuid_draws _next_defect_index].
  split; [rewrite !lookup_update_obj, ?E2, El; reflexivity|].
  split; [reflexivity|]. split; [reflexivity|]. split; [reflexivity|].
  split; [exact Ha|]. split.
  { exists a. split; [exact Ha | reflexivity]. }
  repeat split.
  rewrite !update_obj_oids. reflexivity.
Qed.

End DragCreateProofs.

(* ================================================================== *)
(** * The inspections in the part manager *)
(* ================================================================== *)

Section PartManagerProofs.
Context {TK : Toolkit}.

Lemma map_result_app {A B : Type} (f : A -> Result B) (l1 l2 : list A) (r1 r2 : list B) :
  map_result f l1 = Ok r1 -> map_result f l2 = Ok r2 ->
  map_result f (l1 ++ l2) = Ok (r1 ++ r2).
Proof.
  revert r1. induction l1 as [|a l1 IH]; intros r1 E1 E2; simpl in *.
  - inversion E1; subst. exact E2.
  - destruct (f a) as [b|]; [|discriminate]. cbn [bind] in *.
    destruct (map_result f l1) as [bs|]; [|discriminate]. cbn [bind] in *.
    inversion E1; subst. rewrite (IH bs eq_refl E2). reflexivity.
Qed.

(** X19.  The inspection list of a migrated sub-part cannot be shown.
    [_refresh_inspection_list] reads [info["name"]] of every inspection;
    the ["DEFAULT"] inspection that [Project.from_dict] makes of legacy
    defects has no name, so for a sub-part that carried its defects
    directly, and for the sub-part made of a part without [subparts], the
    list raises [KeyError].  An inspection stored by [add_inspection] has
    its name, and is listed last, after the rows that were listed
    before. *)
Theorem migrated_inspection_has_no_name :
  (forall (sd dm : PyDict) (n : nat),
      dict_get sd "defects" = Some (VDict dm) ->
      dict_get sd "inspections" = None ->
      exists sp,
        Models.subpart_from_dict (VDict sd) n = Ok (sp, S n) /\
        PartManager._refresh_inspection_list (Models.inspections sp) = Raise KeyError) /\
  (forall (pd dm : PyDict) (n : nat),
      dict_get pd "subparts" = None ->
      dict_get_default pd "defects" (VDict []) = VDict dm ->
      exists sp part,
        Models.part_from_dict (VDict pd) n = Ok (part, S (S n)) /\
        Models.subparts part = [sp] /\
        PartManager._refresh_inspection_list (Models.inspections sp) = Raise KeyError) /\
  (forall (data : PartManager.InspectionData) (insp insp' : PyDict) (n n' : nat) rows,
      PartManager.data_missing data = false ->
      PartManager._refresh_inspection_list insp = Ok rows ->
      PartManager.add_inspection data insp n = Ok (insp', n') ->
      exists key,
        PartManager.new_key "insp" n = Ok (key, n') /\
        (dict_get insp key = None ->
         PartManager._refresh_inspection_list insp'
         = Ok (rows ++ [(VStr (PartManager.data_name data), key)]))).
Proof.
  split; [|split].
  - intros sd dm n Hd Hi.
    destruct (subpart_from_dict_spec sd dm n Hd Hi) as (sp & E & _ & _ & Hn).
    exists sp. split; [exact E|]. rewrite Hn. reflexivity.
  - intros pd dm n Hs Hd.
    destruct (legacy_subpart_spec pd dm n Hd) as (sp & E & _ & _ & Hn).
    exists sp. eexists. split.
    + unfold Models.part_from_dict, Models.bindM, Models.ret, Models.new_id.
      rewrite Hs, E. reflexivity.
    + split; [reflexivity|]. rewrite Hn. reflexivity.
  - intros data insp insp' n n' rows Hm Hr E.
    unfold PartManager.add_inspection in E. rewrite Hm in E.
    unfold Models.bindM, Models.ret in E.
    destruct (PartManager.new_key "insp" n) as [[key k]|] eqn:Ek; [|discriminate].
    inversion E; subst. exists key. split; [reflexivity|].
    intro Hnew. rewrite (dict_set_new _ _ _ Hnew).
    apply map_result_app; [exact Hr | reflexivity].
Qed.

(** X20.  Storing and reading the defects of an inspection.  [on_save]
    replaces the [defects] of the inspection being edited and nothing
    else: read back as [edit_defects] reads them, the defects are the
    value that was stored, the keys keep their order and no other
    inspection has changed; when the inspection is gone it raises
    [KeyError].  [copy_inspection] gives the new inspection the defects
    mapping of its source and leaves the source as it is. *)
Theorem saved_defects_are_reopened (key : string) (insp : PyDict) :
  (forall new_defects i,
      dict_get insp key = Some (VDict i) ->
      exists insp',
        PartManager.on_save key new_defects insp = Ok insp' /\
        PartManager.edit_defects key insp' = Ok new_defects /\
        map fst insp' = map fst insp /\
        (forall k, k <> key -> dict_get insp' k = dict_get insp k)) /\
  (dict_get insp key = None ->
   forall new_defects, PartManager.on_save key new_defects insp = Raise KeyError) /\
  (forall data i dm insp' n n',
      PartManager.data_missing data = false ->
      dict_get insp key = Some (VDict i) ->
      dict_get i "defects" = Some (VDict dm) ->
      PartManager.copy_inspection key data insp n = Ok (insp', n') ->
      exists new_key,
        PartManager.new_key "insp" n = Ok (new_key, n') /\
        (new_key <> key ->
         PartManager.edit_defects new_key insp' = Ok (VDict dm) /\
         PartManager.edit_defects key insp' = Ok (VDict dm) /\
         dict_get insp' key = dict_get insp key)).
Proof.
  split; [|split].
  - intros nd i Hk. unfold PartManager.on_save, Helpers.inspection_at. rewrite Hk.
    cbn [bind]. eexists. split; [reflexivity|].
    split; [|split].
    + unfold PartManager.edit_defects, Helpers.inspection_at.
      rewrite dict_get_set_eq. cbn [bind Models.py_get]. unfold dict_get_default.
      rewrite dict_get_set_eq. reflexivity.
    + apply dict_set_keys. congruence.
    + intros k Hne. apply dict_get_set_other. congruence.
  - intros Hk nd. unfold PartManager.on_save, Helpers.inspection_at. rewrite Hk. reflexivity.
  - intros data i dm insp' n n' Hm Hk Hd E.
    unfold PartManager.copy_inspection in E. rewrite Hm in E.
    unfold Models.bindM, Models.ret, Models.lift, Helpers.inspection_at in E.
    destruct (PartManager.new_key "insp" n) as [[nk k]|] eqn:Ek; [|discriminate].
    rewrite Hk in E. cbn [Models.py_get] in E. unfold dict_get_default in E.
    rewrite Hd in E. cbn [Models.py_dict] in E. inversion E; subst.
    exists nk. split; [reflexivity|]. intro Hne.
    unfold PartManager.edit_defects, Helpers.inspection_at.
    rewrite dict_get_set_eq. rewrite dict_get_set_other by exact Hne. rewrite Hk.
    cbn [bind Models.py_get PartManager.inspection_record]. unfold dict_get_default.
    rewrite Hd. split; [reflexivity|]. split; reflexivity.
Qed.

End PartManagerProofs.

(* ================================================================== *)
(** * Hovering over an anchor *)
(* ================================================================== *)

Section HoverProofs.
Context {TK : Toolkit}.

Lemma hover_fold (p : QPointF) (radius : Q) (l : list SceneObject) :
  forall (done : list SceneObject) best,
    hover_found p radius done best ->
    hover_found p radius (done ++ l) (fold_left (hover_step p radius) l best).
Proof.
  induction l as [|x l IH]; intros done best H; simpl.
  - rewrite app_nil_r. exact H.
  - replace (done ++ x :: l) with ((done ++ [x]) ++ l) by (rewrite <- app_assoc; reflexivity).
    apply IH. destruct H as (Hb & Hf & Hm).
    unfold hover_step. destruct (hover_anchor (item x)) as [anchor|] eqn:Ea.
    + cbv zeta.
      destruct (Qltb (QLineF_length (mkLine p anchor)) radius) eqn:Er; cbn [andb].
      * destruct (Qltb (QLineF_length (mkLine p anchor)) (snd (fst best))) eqn:Ed.
        -- apply Qltb_lt in Er, Ed. split; [|split]; cbn [fst snd].
           ++ apply Qlt_le_weak. apply (Qlt_le_trans _ _ _ Ed Hb).
           ++ exists x. split; [apply in_or_app; right; simpl; auto|].
              repeat split; auto.
           ++ intros y a Hy Ha Hr. apply in_app_or in Hy. destruct Hy as [Hy|[<-|[]]].
              ** apply Qlt_le_weak in Ed.
                 apply (Qle_trans _ _ _ Ed (Hm y a Hy Ha Hr)).
              ** rewrite Ea in Ha. inversion Ha; subst. apply Qle_refl.
        -- apply Qltb_ge in Ed. split; [exact Hb|]. split.
           ++ destruct (fst (fst best)); [|exact Hf].
              destruct Hf as (z & Hz & Hrest). exists z.
              split; [apply in_or_app; left; exact Hz | exact Hrest].
           ++ intros y a Hy Ha Hr. apply in_app_or in Hy. destruct Hy as [Hy|[<-|[]]].
              ** apply (Hm y a Hy Ha Hr).
              ** rewrite Ea in Ha. inversion Ha; subst. exact Ed.
      * apply Qltb_ge in Er. split; [exact Hb|]. split.
        -- destruct (fst (fst best)); [|exact Hf].
           destruct Hf as (z & Hz & Hrest). exists z.
           split; [apply in_or_app; left; exact Hz | exact Hrest].
        -- intros y a Hy Ha Hr. apply in_app_or in Hy. destruct Hy as [Hy|[<-|[]]].
           ++ apply (Hm y a Hy Ha Hr).
           ++ rewrite Ea in Ha. inversion Ha; subst.
              exfalso. apply (Qlt_not_le _ _ Hr Er).
    + split; [exact Hb|]. split.
      * destruct (fst (fst best)); [|exact Hf].
        destruct Hf as (z & Hz & Hrest). exists z.
        split; [apply in_or_app; left; exact Hz | exact Hrest].
      * intros y a Hy Ha Hr. apply in_app_or in Hy. destruct Hy as [Hy|[<-|[]]].
        -- apply (Hm y a Hy Ha Hr).
        -- congruence.
Qed.

Lemma lookup_obj_NoDup (sc : list SceneObject) (x : SceneObject) :
  NoDup (map oid sc) -> In x sc -> lookup_obj (oid x) sc = Some (item x).
Proof.
  induction sc as [|y sc IH]; simpl; [tauto|].
  intros ND [<-|Hx].
  - rewrite Nat.eqb_refl. reflexivity.
  - inversion ND as [|? ? Hn ND']; subst.
    destruct (Nat.eqb_spec (oid y) (oid x)) as [E|E].
    + exfalso. apply Hn. rewrite E. apply in_map. exact Hx.
    + apply IH; assumption.
Qed.

(** X21.  Hovering shows the handle of the nearest anchor in reach, and a
    press there drags it.  Outside a drag, [_on_hover_move] leaves the
    scene as it is; when it shows the handle, the handle sits on the
    anchor of a mark with a leader line, that anchor is nearer to the
    pointer than the handle radius, and no anchor in reach is nearer; when
    it hides the handle, no anchor nearer than 1e18 is in reach.  A left
    press at the same point then starts an anchor drag on that mark.
    During a drag hovering does nothing. *)
Theorem hover_shows_the_nearest_anchor (ev : MouseEvent) (e : Editor) :
  (_drag_mode (drag e) <> NONE -> _on_hover_move ev e = e) /\
  (_drag_mode (drag e) = NONE ->
   let e' := _on_hover_move ev e in
   let dist := fun a => QLineF_length (mkLine (scene_pos ev) a) in
   scene e' = scene e /\ drag e' = drag e /\ hist e' = hist e /\
   match _anchor_handle_target (handle e') with
   | Some t =>
       _anchor_handle_visible (handle e') = true /\
       (exists x, In x (scene e) /\ oid x = t /\
                  hover_anchor (item x) = Some (_anchor_handle_pos (handle e'))) /\
       (dist (_anchor_handle_pos (handle e')) < handle_radius_scene e)%Q /\
       (forall y a, In y (scene e) -> hover_anchor (item y) = Some a ->
                    (dist a < handle_radius_scene e)%Q ->
                    (dist (_anchor_handle_pos (handle e')) <= dist a)%Q) /\
       (NoDup (map oid (scene e)) -> bg_path e <> None -> button ev = LeftButton ->
        snd (_on_mouse_press ev e') = true /\
        _drag_mode (drag (fst (_on_mouse_press ev e'))) = MOVE_ANCHOR /\
        _drag_item (drag (fst (_on_mouse_press ev e'))) = Some t)
   | None =>
       _anchor_handle_visible (handle e') = false /\
       (forall y a, In y (scene e) -> hover_anchor (item y) = Some a ->
                    (dist a < handle_radius_scene e)%Q ->
                    (1000000000000000000 <= dist a)%Q)
   end).
Proof.
  split.
  - intro H. unfold _on_hover_move. destruct (_drag_mode (drag e)); congruence.
  - intro Hn. cbv zeta. unfold _on_hover_move. rewrite Hn. cbv zeta.
    assert (F : hover_found (scene_pos ev) (handle_radius_scene e) ([] ++ scene e)
                  (fold_left (hover_step (scene_pos ev) (handle_radius_scene e)) (scene e)
                             (None, 1000000000000000000%Q, mkPoint 0 0))).
    { apply hover_fold. split; [apply Qle_refl|]. split; [reflexivity|].
      intros y a []. }
    simpl app in F.
    destruct (fold_left _ _ _) as [[bt bd] ba]. destruct F as (Hb & Hf & Hm).
    cbn [fst snd] in *. destruct bt as [t|]; cbn [scene drag hist handle with_handle
      _anchor_handle_target _anchor_handle_visible _anchor_handle_pos].
    + destruct Hf as (x & Hx & Ho & Ha & Hd & Hr).
      split; [reflexivity|]. split; [reflexivity|]. split; [reflexivity|].
      split; [reflexivity|]. split; [exists x; auto|].
      split; [rewrite <- Hd; exact Hr|].
      split; [intros y a Hy Hya Hlt; rewrite <- Hd; apply (Hm y a Hy Hya Hlt)|].
      intros ND Hbg Hbt. unfold _on_mouse_press, anchor_of.
      cbn [bg_path with_handle scene handle _anchor_handle_visible _anchor_handle_target
           handle_radius_scene].
      destruct (bg_path e); [|congruence]. rewrite Hbt. cbn [MouseButton_eqb negb].
      cbv zeta. rewrite <- Ho. rewrite (lookup_obj_NoDup _ _ ND Hx).
      assert (Hm2 : exists m, item x = IMark m /\ _line_anchor_scene_pos m = Some ba).
      { unfold hover_anchor in Ha. destruct (item x) as [m| |]; try discriminate.
        exists m. split; [reflexivity|].
        destruct (_attached_line m); [|discriminate].
        destruct (_line_anchor_scene_pos m); [|discriminate]. congruence. }
      destruct Hm2 as (m & Hi & Hanc). rewrite Hi, Hanc.
      assert (Hle : Qle_bool (QLineF_length (mkLine (scene_pos ev) ba))
                             (handle_radius_scene e) = true).
      { apply Qle_bool_iff. rewrite <- Hd. apply Qlt_le_weak. exact Hr. }
      rewrite Hle. cbn [fst snd drag with_drag _drag_mode _drag_item with_drag_item
                        with_drag_mode].
      repeat split.
    + split; [reflexivity|]. split; [reflexivity|]. split; [reflexivity|].
      split; [reflexivity|].
      intros y a Hy Hya Hlt. rewrite <- Hf. apply (Hm y a Hy Hya Hlt).
Qed.

End HoverProofs.

(* ================================================================== *)
(** * The properties on concrete inputs *)
(* ================================================================== *)

Section ConcreteExtras.
#[local] Existing Instance Reference.toolkit.

Lemma saved_inspections_normal : Helpers.normal saved_inspections.
Proof.
  split.
  - simpl. constructor; [intros []|constructor].
  - constructor; [|constructor]. simpl. eexists _, _. split; reflexivity.
Qed.

Lemma mixed_inspections_NoDup : NoDup (map fst mixed_inspections).
Proof.
  simpl. constructor; [intros [H|[H|[]]]; discriminate|].
  constructor; [intros [H|[]]; discriminate|].
  constructor; [intros []|constructor].
Qed.

Lemma mixed_inspections_str_keyed : str_keyed (VDict mixed_inspections).
Proof. simpl. repeat split. Qed.

Lemma normalize_subpart_inspections_normal_form_witness :
  NoDup (map fst mixed_inspections) /\
  str_keyed (VDict mixed_inspections) /\
  map fst mixed_inspections_normalized = map fst mixed_inspections /\
  Helpers.normal mixed_inspections_normalized /\
  Models.normalize_subpart_inspections mixed_inspections_normalized
  = Ok mixed_inspections_normalized.
Proof.
  split; [exact mixed_inspections_NoDup|].
  split; [exact mixed_inspections_str_keyed|].
  apply (proj1 (normalize_subpart_inspections_normal_form mixed_inspections
                  mixed_inspections_NoDup mixed_inspections_str_keyed)
               mixed_inspections_normalized).
  reflexivity.
Defined.

Lemma get_defects_creates_missing_inspection_witness :
  Helpers.normal saved_inspections /\
  Helpers.get_defects "2024-01" saved_inspections = Ok (VDict saved_defects, saved_inspections) /\
  Helpers.get_defects "2024-06" saved_inspections
  = Ok (VDict [], saved_inspections ++ [("2024-06", VDict [("defects", VDict [])])]).
Proof.
  split; [exact saved_inspections_normal|].
  destruct (get_defects_creates_missing_inspection "2024-01" saved_inspections
              saved_inspections_normal) as [H1 _].
  destruct (get_defects_creates_missing_inspection "2024-06" saved_inspections
              saved_inspections_normal) as [_ H2].
  split; [apply (H1 [("defects", VDict saved_defects)] saved_defects); reflexivity|].
  apply H2. reflexivity.
Defined.

Lemma set_defects_then_get_defects_witness :
  exists insp',
    Helpers.set_defects "2024-01" VNone saved_inspections = Ok insp' /\
    Helpers.get_defects "2024-01" insp' = Ok (VDict [], insp').
Proof.
  destruct (set_defects_then_get_defects "2024-01" VNone [] saved_inspections
              saved_inspections_normal eq_refl) as (insp' & Hs & _ & Hg & _).
  exists insp'. split; assumption.
Defined.

Lemma copy_inspection_appends_or_raises_witness :
  Helpers.copy_inspection "2024-01" "2024-01" saved_inspections = Raise ValueError /\
  Helpers.copy_inspection "2024-01" "2024-06" saved_inspections
  = Ok (saved_inspections ++ [("2024-06", VDict [("defects", VDict saved_defects)])]).
Proof.
  destruct (copy_inspection_appends_or_raises "2024-01" "2024-01" saved_inspections
              saved_inspections_normal) as [H1 _].
  destruct (copy_inspection_appends_or_raises "2024-01" "2024-06" saved_inspections
              saved_inspections_normal) as (_ & H2 & _).
  split; [apply H1; right; reflexivity|].
  apply H2; [discriminate | reflexivity | reflexivity].
Defined.

Lemma surveyed_project_normal (part : Models.Part) (sp : Models.SubPart) :
  In part (Models.parts surveyed_project) -> In sp (Models.subparts part) ->
  Helpers.normal (Models.inspections sp).
Proof.
  intros [<-|[]] [<-|[]]. exact saved_inspections_normal.
Qed.

Lemma from_dict_to_dict_round_trip_witness :
  exists n', Models.from_dict (Helpers.to_dict surveyed_project) 0%nat
             = Ok (surveyed_project, n').
Proof.
  apply (from_dict_to_dict_round_trip surveyed_project 0%nat surveyed_project_normal).
Defined.

Lemma old_project_unique_keys : unique_keys (VDict old_project).
Proof.
  simpl. repeat (first [ split | constructor | exact I
                       | (intros H; simpl in H; intuition discriminate) ]).
Qed.

Lemma old_project_str_keyed : str_keyed (VDict old_project).
Proof. simpl. repeat split. Qed.

Lemma loaded_project_is_normal_witness :
  exists proj n',
    Models.from_dict (VDict old_project) 0%nat = Ok (proj, n') /\
    (forall part sp, In part (Models.parts proj) -> In sp (Models.subparts part) ->
                     Helpers.normal (Models.inspections sp)) /\
    exists k', Models.from_dict (Helpers.to_dict proj) 7%nat = Ok (proj, k').
Proof.
  destruct (Models.from_dict (VDict old_project) 0%nat) as [[proj n']|] eqn:E;
    [|vm_compute in E; discriminate].
  exists proj, n'. split; [reflexivity|].
  destruct (loaded_project_is_normal (VDict old_project) proj 0%nat n'
              old_project_unique_keys old_project_str_keyed E) as [Hn Hr].
  split; [exact Hn | apply Hr].
Defined.

Lemma editor_opened_init : FaultEditorDialog_init 10 "plan.png" VNone = Ok editor_opened.
Proof. vm_compute. reflexivity. Qed.

Lemma editor_reopened_init :
  FaultEditorDialog_init 10 "plan.png" (VDict [("items", VList [])]) = Ok editor_reopened.
Proof. vm_compute. reflexivity. Qed.

Lemma dialog_opens_clean_witness :
  FaultEditorDialog_init 10 "plan.png" (VDict [("items", VList [])]) = Ok editor_reopened /\
  _dirty editor_reopened = false /\
  length (_undo_stack (hist editor_reopened)) = 1%nat /\
  undo editor_reopened = Ok editor_reopened /\
  redo editor_reopened = Ok editor_reopened.
Proof.
  split; [exact editor_reopened_init|].
  destruct (dialog_opens_clean 10 "plan.png" (VDict [("items", VList [])]) editor_reopened
              editor_reopened_init) as (H1 & H2 & _ & _ & H3 & H4).
  repeat split; assumption.
Defined.

Lemma undo_and_redo_move_one_snapshot_witness :
  (2 <= length (_undo_stack (hist editor_with_circle)))%nat /\
  exists e1 e2,
    undo editor_with_circle = Ok e1 /\
    _undo_stack (hist e1) = removelast (_undo_stack (hist editor_with_circle)) /\
    _undo_stack (hist e1) <> [] /\
    redo e1 = Ok e2 /\
    _undo_stack (hist e2) = _undo_stack (hist editor_with_circle) /\
    _redo_stack (hist e2) = _redo_stack (hist editor_with_circle).
Proof.
  assert (L : (2 <= length (_undo_stack (hist editor_with_circle)))%nat)
    by (vm_compute; lia).
  split; [exact L|].
  destruct (undo editor_with_circle) as [e1|] eqn:E1; [|vm_compute in E1; discriminate].
  destruct (redo e1) as [e2|] eqn:E2.
  - exists e1, e2.
    destruct (undo_and_redo_move_one_snapshot editor_with_circle e1 e2)
      as (_ & _ & H & _).
    destruct (H L E1) as (Hu & _ & Hne & Hr).
    destruct (Hr E2) as (Hu2 & Hr2).
    repeat split; assumption.
  - exfalso. vm_compute in E1. inversion E1; subst e1. vm_compute in E2. discriminate.
Defined.

Lemma first_edit_session_after_opening_witness :
  _undo_stack (hist (_end_edit (_begin_edit editor_opened)))
  = _undo_stack (hist editor_opened) /\
  _undo_stack (hist editor_reopened) = [VDict (get_defects editor_reopened)] /\
  _undo_stack (hist (_end_edit (_begin_edit editor_reopened)))
  = [VDict (get_defects editor_reopened); _make_snapshot editor_reopened] /\
  _dirty (_end_edit (_begin_edit editor_reopened)) = true.
Proof.
  destruct (first_edit_session_after_opening 10 "plan.png" VNone editor_opened
              editor_opened_init) as [H1 _].
  destruct (first_edit_session_after_opening 10 "plan.png" (VDict [("items", VList [])])
              editor_reopened editor_reopened_init) as [_ H2].
  split; [apply (H1 eq_refl)|]. apply (H2 eq_refl).
Defined.

Lemma save_cuts_the_history_witness :
  _dirty editor_with_circle = true /\
  snd (save_if_dirty editor_with_circle) = Some (get_defects editor_with_circle) /\
  _undo_stack (hist (fst (save_if_dirty editor_with_circle)))
  = [_make_snapshot editor_with_circle] /\
  undo (fst (save_if_dirty editor_with_circle)) = Ok (fst (save_if_dirty editor_with_circle)) /\
  save_if_dirty editor_opened = (editor_opened, None).
Proof.
  assert (D : _dirty editor_with_circle = true) by (vm_compute; reflexivity).
  assert (C : _dirty editor_opened = false) by (vm_compute; reflexivity).
  split; [exact D|].
  destruct (save_cuts_the_history editor_with_circle) as [_ H].
  destruct (H D) as (H1 & _ & _ & H2 & _ & H3 & _).
  destruct (save_cuts_the_history editor_opened) as [H4 _].
  split; [exact H1|]. split; [exact H2|]. split; [exact H3 | exact (H4 C)].
Defined.

Lemma next_defect_index_is_above_all_numbers_witness :
  number_in_use (scene editor_two_circles) 2 /\
  (2 < _calc_next_defect_index editor_two_circles)%Z.
Proof.
  assert (U : number_in_use (scene editor_two_circles) 2).
  { unfold number_in_use.
    destruct (scene editor_two_circles) as [|x sc] eqn:E; [vm_compute in E; discriminate|].
    vm_compute in E. inversion E; subst x sc.
    eexists _, _, _. split; [left; reflexivity|].
    split; [reflexivity|]. split; reflexivity. }
  split; [exact U|].
  apply (proj1 (next_defect_index_is_above_all_numbers editor_two_circles) 2%Z U).
Defined.

Lemma numbers_below_next_tool (tool : string) (e : Editor) :
  numbers_below_next e -> numbers_below_next (_on_shape_selected tool e).
Proof. intro H. exact H. Qed.

Lemma numbers_are_handed_out_fresh_witness :
  numbers_below_next editor_reopened /\
  _next_defect_index (fst (_on_mouse_double_click (left_at (mkPoint 100 100) [])
                             (_on_shape_selected "circle" editor_reopened)))
  = (_next_defect_index (_on_shape_selected "circle" editor_reopened) + 1)%Z.
Proof.
  assert (B : numbers_below_next editor_reopened).
  { apply (proj1 (numbers_are_handed_out_fresh editor_reopened)
             10 "plan.png" (VDict [("items", VList [])]) editor_reopened_init). }
  split; [exact B|].
  assert (S : snd (_on_mouse_double_click (left_at (mkPoint 100 100) [])
                     (_on_shape_selected "circle" editor_reopened)) = true)
    by (vm_compute; reflexivity).
  assert (C : current_tool (_on_shape_selected "circle" editor_reopened) = "circle")
    by (vm_compute; reflexivity).
  revert S C. generalize (numbers_below_next_tool "circle" editor_reopened B).
  generalize (_on_shape_selected "circle" editor_reopened). intros e Be S C.
  destruct (numbers_are_handed_out_fresh e) as (_ & _ & _ & H).
  destruct (H (left_at (mkPoint 100 100) []) Be) as (_ & _ & H3).
  apply (H3 S C).
Defined.

Lemma editor_two_circles_selected_inv : scene_inv editor_two_circles_selected.
Proof.
  apply reachable_scene_inv.
  exists 10, "plan.png", (two_circles_actions ++ [Select [0%nat]]).
  vm_compute. reflexivity.
Qed.

Lemma delete_removes_exactly_the_selected_witness :
  scene_inv editor_two_circles_selected /\
  exists e',
    delete_selected_items editor_two_circles_selected = Ok e' /\
    map oid (scene e') = [1%nat] /\
    selectedItems e' = [] /\
    _dirty e' = true.
Proof.
  split; [exact editor_two_circles_selected_inv|].
  destruct (delete_removes_exactly_the_selected editor_two_circles_selected
              editor_two_circles_selected_inv) as (e' & E & Hs & Hn & _ & Hd & _).
  exists e'. split; [exact E|]. split; [|split; [exact Hn|]].
  - rewrite Hs. vm_compute. reflexivity.
  - apply Hd. vm_compute. discriminate.
Defined.

Lemma restore_keeps_scene_when_image_is_gone_witness :
  bg_path editor_image_gone = Some "" /\
  pixmap_isNull "" = true /\
  exists e' added,
    _restore_snapshot (_make_snapshot editor_image_gone) editor_image_gone = Ok e' /\
    scene e' = added ++ scene editor_image_gone /\
    length added = 1%nat.
Proof.
  assert (B : bg_path editor_image_gone = Some "") by reflexivity.
  assert (N : pixmap_isNull "" = true) by reflexivity.
  split; [exact B|]. split; [exact N|].
  destruct (_make_snapshot editor_image_gone) as [| | | | |l|snap] eqn:Es;
    try (vm_compute in Es; discriminate).
  destruct (_restore_snapshot (VDict snap) editor_image_gone) as [e'|] eqn:E.
  - destruct (restore_keeps_scene_when_image_is_gone editor_image_gone e' "" B N)
      as [H _].
    assert (Hi : dict_get snap "image" = None).
    { vm_compute in Es. inversion Es; subst snap. reflexivity. }
    destruct (H snap Hi E) as (added & Ha).
    exists e', added. split; [reflexivity|]. split; [exact Ha|].
    assert (L : length (scene e') = 2%nat).
    { vm_compute in Es. inversion Es; subst snap. vm_compute in E.
      inversion E; subst e'. reflexivity. }
    rewrite Ha, length_app in L.
    assert (L1 : length (scene editor_image_gone) = 1%nat) by (vm_compute; reflexivity).
    lia.
  - exfalso. vm_compute in Es. inversion Es; subst snap. vm_compute in E. discriminate.
Defined.

Lemma reopened_dialog_has_the_marks_only_witness :
  exists e' ms',
    FaultEditorDialog_init 10 "plan.png" (VDict (get_defects editor_covered_circle)) = Ok e' /\
    marks_of (scene e') = rev ms' /\
    Forall2 restored_from (marks_of (scene editor_covered_circle)) ms' /\
    memo_records (scene e') = [] /\
    memo_records (scene editor_covered_circle) <> [].
Proof.
  destruct (reopened_dialog_has_the_marks_only editor_covered_circle) as [_ H].
  destruct (H 10 "plan.png") as (e' & ms' & E & Hm & Hf & Hn & _).
  - reflexivity.
  - vm_compute. reflexivity.
  - exists e', ms'. repeat split; try assumption.
    vm_compute. discriminate.
Defined.

Lemma restore_defaults_fills_without_overwriting_witness :
  dict_get (restore_defaults beam_defect) "member" = Some (VStr "beam") /\
  dict_get (restore_defaults beam_defect) "progress" = Some (VBool false) /\
  has_all_fields (restore_defaults beam_defect) = true.
Proof.
  destruct (restore_defaults_fills_without_overwriting beam_defect)
    as (H1 & H2 & _ & _ & H3).
  split; [apply H1; reflexivity|]. split; [apply H3; reflexivity | exact H2].
Defined.

Lemma ray_intersection_point_is_nearest_witness :
  exists p,
    ray_intersection_point circle_with_line (mkPoint 10 0) (mkPoint 110 0) = Some p /\
    ((1 # 1000000) < QLineF_length (mkLine (mkPoint 10 0) p))%Q /\
    exists edge, In edge (_outline_segments_scene circle_with_line) /\
                 bounded_intersection
                   (cast_ray circle_with_line (mkPoint 10 0) (mkPoint 110 0)) edge = Some p.
Proof.
  destruct (ray_intersection_point circle_with_line (mkPoint 10 0) (mkPoint 110 0))
    as [p|] eqn:E; [|vm_compute in E; discriminate].
  exists p. split; [reflexivity|].
  destruct (ray_intersection_point_is_nearest circle_with_line (mkPoint 10 0) (mkPoint 110 0))
    as [H _].
  destruct (H p E) as (He & Hd & _).
  split; [exact Hd | exact He].
Defined.

Lemma long_drag_creates_a_numbered_circle_witness :
  exists e' m',
    _on_mouse_release far_release editor_circle_dragged = Ok e' /\
    lookup_obj 0 (scene e') = Some (IMark m') /\
    pos m' = mkPoint 300 200 /\
    display_id m' = Some (VInt (_next_defect_index editor_circle_dragged)) /\
    _next_defect_index e' = (_next_defect_index editor_circle_dragged + 1)%Z /\
    _drag_mode (drag e') = NONE.
Proof.
  destruct (lookup_obj 0 (scene editor_circle_dragged)) as [[m| |]|] eqn:El;
    try (vm_compute in El; discriminate).
  assert (Hc : is_circle (shape m) = true)
    by (vm_compute in El; inversion El; subst m; reflexivity).
  assert (Ha : _line_anchor_scene_pos m = Some (mkPoint 200 200))
    by (vm_compute in El; inversion El; subst m; reflexivity).
  destruct (_attached_line m) as [l|] eqn:Eline;
    [|vm_compute in El; inversion El; subst m; discriminate].
  assert (Hb : button far_release = LeftButton) by reflexivity.
  assert (Hm : _drag_mode (drag editor_circle_dragged) = CREATE)
    by (vm_compute; reflexivity).
  assert (Hi : _drag_item (drag editor_circle_dragged) = Some 0%nat)
    by (vm_compute; reflexivity).
  assert (Hp : _press_pos (drag editor_circle_dragged) = Some (mkPoint 200 200))
    by (vm_compute; reflexivity).
  assert (Hd : (Qmax (rw (boundingRect m)) (rh (boundingRect m)) + 10
                <= QLineF_length (mkLine (mkPoint 200 200) (scene_pos far_release)))%Q).
  { vm_compute in El. inversion El; subst m. vm_compute. discriminate. }
  destruct (long_drag_creates_a_numbered_circle editor_circle_dragged far_release 0 m
              (mkPoint 200 200) (mkPoint 200 200) l Hb Hm Hi El Hc Hp Ha Eline Hd)
    as (e' & m' & E & Hl & _ & Hpos & _ & _ & _ & Hid & Hn & Hmode & _).
  exists e', m'. repeat split; assumption.
Defined.

Lemma migrated_inspection_has_no_name_witness :
  (exists sp,
      Models.subpart_from_dict (VDict old_subpart) 0%nat = Ok (sp, 1%nat) /\
      PartManager._refresh_inspection_list (Models.inspections sp) = Raise KeyError) /\
  (exists sp part,
      Models.part_from_dict (VDict oldest_part) 0%nat = Ok (part, 2%nat) /\
      Models.subparts part = [sp] /\
      PartManager._refresh_inspection_list (Models.inspections sp) = Raise KeyError) /\
  exists insp' key,
    PartManager.add_inspection spring_inspection [] 0%nat = Ok (insp', 1%nat) /\
    PartManager._refresh_inspection_list insp' = Ok [(VStr "2024 spring", key)].
Proof.
  destruct migrated_inspection_has_no_name as (H1 & H2 & H3).
  split; [|split].
  - apply (H1 old_subpart saved_defects 0%nat); reflexivity.
  - apply (H2 oldest_part saved_defects 0%nat); reflexivity.
  - destruct (PartManager.add_inspection spring_inspection [] 0%nat) as [[insp' n']|] eqn:E;
      [|vm_compute in E; discriminate].
    assert (En : n' = 1%nat) by (vm_compute in E; inversion E; reflexivity).
    subst n'.
    destruct (H3 spring_inspection [] insp' 0%nat 1%nat [] eq_refl eq_refl E)
      as (key & _ & Hr).
    exists insp', key. split; [reflexivity|]. apply Hr. reflexivity.
Defined.

Lemma saved_defects_are_reopened_witness :
  (exists insp',
      PartManager.on_save "2024-01" (VDict [("items", VList [])]) saved_inspections = Ok insp' /\
      PartManager.edit_defects "2024-01" insp' = Ok (VDict [("items", VList [])])) /\
  PartManager.on_save "2024-06" (VDict []) saved_inspections = Raise KeyError.
Proof.
  destruct (saved_defects_are_reopened "2024-01" saved_inspections) as (H1 & _ & _).
  destruct (saved_defects_are_reopened "2024-06" saved_inspections) as (_ & H2 & _).
  split.
  - destruct (H1 (VDict [("items", VList [])]) [("defects", VDict saved_defects)] eq_refl)
      as (insp' & Hs & He & _).
    exists insp'. split; assumption.
  - apply H2. reflexivity.
Defined.

Lemma hover_shows_the_nearest_anchor_witness :
  _drag_mode (drag editor_circle_created) = NONE /\
  _anchor_handle_target (handle (_on_hover_move near_anchor editor_circle_created))
  = Some 0%nat /\
  _anchor_handle_pos (handle (_on_hover_move near_anchor editor_circle_created))
  = mkPoint 200 200 /\
  _drag_mode (drag (fst (_on_mouse_press near_anchor
                           (_on_hover_move near_anchor editor_circle_created))))
  = MOVE_ANCHOR /\
  _on_hover_move near_anchor editor_circle_dragged = editor_circle_dragged.
Proof.
  assert (N : _drag_mode (drag editor_circle_created) = NONE) by (vm_compute; reflexivity).
  assert (T : _anchor_handle_target (handle (_on_hover_move near_anchor editor_circle_created))
              = Some 0%nat) by (vm_compute; reflexivity).
  assert (P : _anchor_handle_pos (handle (_on_hover_move near_anchor editor_circle_created))
              = mkPoint 200 200) by (vm_compute; reflexivity).
  split; [exact N|]. split; [exact T|]. split; [exact P|].
  destruct (hover_shows_the_nearest_anchor near_anchor editor_circle_created) as [_ H].
  specialize (H N). cbv zeta in H. destruct H as (_ & _ & _ & H).
  rewrite T in H. destruct H as (_ & _ & _ & _ & H).
  destruct (hover_shows_the_nearest_anchor near_anchor editor_circle_dragged) as [H' _].
  split.
  - apply H.
    + vm_compute. repeat constructor. intros [].
    + vm_compute. discriminate.
    + reflexivity.
  - apply H'. vm_compute. discriminate.
Defined.

End ConcreteExtras.
